(** * Agent orchestration engine: a shallow embedding of the Python sources

    Embedded functions (paths relative to [backend/src/services/rag]):
    - [agent.py]: [RagAgent._rule_guess_scenario], [RagAgent._choose_scenario],
      [RagAgent._rrf_merge], the parallel branch of
      [RagAgent._run_tool_conversation];
    - [fusion_planner.py]: [FusionPlan.expansions], [_ensure_list],
      [FusionPlanner.plan];
    - [tool_executor.py]: [ParallelToolExecutor];
    - [context_manager.py]: [TokenAwareContextManager].

    Conventions.  A Python [str] is the list of its Unicode code points; a
    Python [int] is a [Z]; a Python [float] is an IEEE-754 binary64 value
    ([spec_float] with precision 53 and emax 1024); a [dict] whose iteration
    order is observable is an association list in insertion order; a raised
    exception is the [Raise] constructor of [outcome]. *)

From Stdlib Require Import Ascii String.
From Stdlib Require Import ZArith NArith QArith Qround Qpower List Bool Lia.
From Stdlib Require Import Floats.SpecFloat.
From Stdlib Require Import Sorting.Sorted Sorting.Permutation.
Import ListNotations.
Close Scope Q_scope.
Close Scope string_scope.
Open Scope Z_scope.

(* ================================================================== *)
(** ** Python values *)

Module Py.

(** [str]: the sequence of code points. *)
Definition str := list N.

(** Decoding of a UTF-8 literal of this file into code points (used to write
    the string constants of the sources as they appear there). *)
Fixpoint utf8_decode (bs : list N) : str :=
  match bs with
  | [] => []
  | b0 :: r0 =>
    if (b0 <? 128)%N then b0 :: utf8_decode r0
    else match r0 with
    | [] => [b0]
    | b1 :: r1 =>
      if (b0 <? 224)%N then ((b0 - 192) * 64 + (b1 - 128))%N :: utf8_decode r1
      else match r1 with
      | [] => [b0; b1]
      | b2 :: r2 =>
        if (b0 <? 240)%N
        then ((b0 - 224) * 4096 + (b1 - 128) * 64 + (b2 - 128))%N :: utf8_decode r2
        else match r2 with
        | [] => [b0; b1; b2]
        | b3 :: r3 =>
          ((b0 - 240) * 262144 + (b1 - 128) * 4096 + (b2 - 128) * 64 + (b3 - 128))%N
            :: utf8_decode r3
        end
      end
    end
  end.

Definition lit (s : string) : str :=
  utf8_decode (map N_of_ascii (list_ascii_of_string s)).

Definition str_eqb (a b : str) : bool :=
  if list_eq_dec N.eq_dec a b then true else false.

(** [str.isspace] for one character, the set used by [str.strip()]. *)
Definition isspace (c : N) : bool :=
  ((9 <=? c) && (c <=? 13) || (28 <=? c) && (c <=? 32)
   || (c =? 133) || (c =? 160) || (c =? 5760)
   || (8192 <=? c) && (c <=? 8202)
   || (c =? 8232) || (c =? 8233) || (c =? 8239) || (c =? 8287)
   || (c =? 12288))%N.

Fixpoint lstrip (s : str) : str :=
  match s with
  | c :: r => if isspace c then lstrip r else s
  | [] => []
  end.

Definition rstrip (s : str) : str := rev (lstrip (rev s)).

(** [s.strip()] *)
Definition strip (s : str) : str := rstrip (lstrip s).

(** Truth value of a string: [bool(s)]. *)
Definition truthy_str (s : str) : bool :=
  match s with [] => false | _ => true end.

Fixpoint starts_with (p s : str) : bool :=
  match p, s with
  | [], _ => true
  | a :: p', b :: s' => (a =? b)%N && starts_with p' s'
  | _ :: _, [] => false
  end.

(** [needle in hay] on strings *)
Fixpoint contains (needle hay : str) : bool :=
  starts_with needle hay ||
  match hay with
  | [] => false
  | _ :: hay' => contains needle hay'
  end.

(** [x in xs] on lists of strings *)
Definition mem (x : str) (xs : list str) : bool := existsb (str_eqb x) xs.

(** [xs[:n]] for an integer [n] of either sign *)
Definition slice_to {A} (n : Z) (xs : list A) : list A :=
  if (0 <=? n)%Z then firstn (Z.to_nat n) xs
  else firstn (length xs - Z.to_nat (- n)) xs.

(** [xs[-n:]] for the integer [n]; [-0] is [0], so [n = 0] keeps all of [xs];
    a negative [n] makes the start index [-n] positive. *)
Definition slice_last {A} (n : Z) (xs : list A) : list A :=
  if (0 <? n)%Z then skipn (length xs - Z.to_nat n) xs
  else skipn (Z.to_nat (- n)) xs.

(** Whitespace-only strings (the empty string included). *)
Definition blank (s : str) : bool := forallb isspace s.

End Py.

(* ================================================================== *)
(** ** Exceptions and results *)

Inductive exn : Type :=
| KeyError | IndexError | TypeError | AttributeError
| ValueError | OverflowError | ZeroDivisionError
| JSONDecodeError
| UnknownTool                 (* ValueError("Unknown tool: ...") *)
| BadToolArguments            (* ValueError("Tool arguments must be an object") *)
| CircularDependency          (* RuntimeError("Circular dependency in tool execution...") *)
| FailedWithoutException      (* RuntimeError("Tool ... failed without exception") *)
| TransportError (code : Z)   (* httpx errors of the completion client *)
| ToolError (code : Z).       (* an exception raised inside a tool handler *)

Inductive outcome (A : Type) : Type :=
| Return (a : A)
| Raise (e : exn).
Arguments Return {A} a.
Arguments Raise {A} e.

Definition bind {A B} (m : outcome A) (f : A -> outcome B) : outcome B :=
  match m with
  | Return a => f a
  | Raise e => Raise e
  end.

Declare Scope py_scope.
Delimit Scope py_scope with py.
Notation "x <- m ;; k" := (bind m (fun x => k))
  (at level 100, m at next level, right associativity) : py_scope.

Definition of_option {A} (e : exn) (o : option A) : outcome A :=
  match o with Some a => Return a | None => Raise e end.

(* ================================================================== *)
(** ** binary64 floats *)

Module Float.

Definition prec : Z := 53.
Definition emax : Z := 1024.

Definition t := spec_float.

Definition of_Z (z : Z) : t := binary_normalize prec emax z 0 false.
Definition add : t -> t -> t := SFadd prec emax.
Definition sub : t -> t -> t := SFsub prec emax.
Definition mul : t -> t -> t := SFmul prec emax.
Definition div : t -> t -> t := SFdiv prec emax.
Definition leb : t -> t -> bool := SFleb.
Definition eqb : t -> t -> bool := SFeqb.

Definition zero : t := S754_zero false.
Definition one : t := of_Z 1.

(** The float literal with decimal expansion [n/d] for small integers [n], [d]:
    the correctly rounded quotient. *)
Definition ratio (n d : Z) : t := div (of_Z n) (of_Z d).

(** [float(z)] for an [int]: [OverflowError] beyond the binary64 range. *)
Definition of_int (z : Z) : outcome t :=
  match of_Z z with
  | S754_infinity _ => Raise OverflowError
  | f => Return f
  end.

(** [int(f)]: truncation toward zero; [ValueError] on NaN, [OverflowError]
    on an infinity. *)
Definition to_int (f : t) : outcome Z :=
  match f with
  | S754_zero _ => Return 0
  | S754_finite s m e =>
      let a := if 0 <=? e then Z.pos m * 2 ^ e else Z.pos m / 2 ^ (- e) in
      Return (if s then - a else a)
  | S754_infinity _ => Raise OverflowError
  | S754_nan => Raise ValueError
  end.

(** [x < y] on floats: false when either is a NaN. *)
Definition ltb : t -> t -> bool := SFltb.

(** The rational a finite float stands for. *)
Definition to_Q (f : t) : Q :=
  match f with
  | S754_finite s m e =>
      ((if s then -1 else 1) * inject_Z (Z.pos m) * Qpower (2 # 1) e)%Q
  | _ => 0%Q
  end.

(** [bool(f)] *)
Definition truthy (f : t) : bool :=
  match f with S754_zero _ => false | _ => true end.

End Float.

(* ================================================================== *)
(** ** JSON values, as [json.loads] and [response.json()] produce them *)

Unset Elimination Schemes.
Inductive json : Type :=
| JNull                                  (* None *)
| JBool (b : bool)
| JInt (z : Z)
| JFloat (f : Float.t)
| JStr (s : Py.str)
| JArr (items : list json)
| JObj (fields : list (Py.str * json)).  (* keys pairwise distinct *)
Set Elimination Schemes.

Module J.

Fixpoint assoc {A} (k : Py.str) (kv : list (Py.str * A)) : option A :=
  match kv with
  | [] => None
  | (k', v) :: r => if Py.str_eqb k k' then Some v else assoc k r
  end.

(** [d.get(key, default)]: only a dict has [get]. *)
Definition get (d : json) (key : Py.str) (default : json) : outcome json :=
  match d with
  | JObj kv => Return (match assoc key kv with Some v => v | None => default end)
  | _ => Raise AttributeError
  end.

(** [v[key]] for a string key. *)
Definition getitem (v : json) (key : Py.str) : outcome json :=
  match v with
  | JObj kv => of_option KeyError (assoc key kv)
  | _ => Raise TypeError
  end.

(** [v[0]] *)
Definition getitem0 (v : json) : outcome json :=
  match v with
  | JArr (x :: _) => Return x
  | JStr (c :: _) => Return (JStr [c])
  | JArr [] | JStr [] => Raise IndexError
  | JObj _ => Raise KeyError
  | _ => Raise TypeError
  end.

(** [bool(v)] *)
Definition truthy (v : json) : bool :=
  match v with
  | JNull => false
  | JBool b => b
  | JInt z => negb (z =? 0)
  | JFloat f => Float.truthy f
  | JStr s => Py.truthy_str s
  | JArr l => match l with [] => false | _ => true end
  | JObj kv => match kv with [] => false | _ => true end
  end.

(** [for item in v]: the items of a list, the characters of a string, the
    keys of a dict; anything else is not iterable. *)
Definition iter (v : json) : outcome (list json) :=
  match v with
  | JArr l => Return l
  | JStr s => Return (map (fun c => JStr [c]) s)
  | JObj kv => Return (map (fun p => JStr (fst p)) kv)
  | _ => Raise TypeError
  end.

Definition is_dict (v : json) : bool :=
  match v with JObj _ => true | _ => false end.

(** [str(v)]: a string is itself; [repr] renders the other values. *)
Definition str (repr : json -> Py.str) (v : json) : Py.str :=
  match v with JStr s => s | _ => repr v end.

(** [a or b] *)
Definition or_else (a b : json) : json := if truthy a then a else b.

End J.

(* ================================================================== *)
(** ** Scenario decision engine ([agent.py], [RagAgent._choose_scenario]) *)

Module Scenario.

Record message : Type := Message { role : Py.str; content : Py.str }.

(** [ScenarioDecision].  [use_query_expansion], [raw_response] and [intent]
    hold whatever the parsed reply holds; [JNull] is [None]. *)
Record ScenarioDecision : Type := {
  scenario : Z;
  confidence : Float.t;
  reason : Py.str;
  follow_up : bool;
  clarifications : list Py.str;
  use_query_expansion : json;
  rule_guess : Z;
  raw_response : json;
  intent : json
}.

(** The fields of [RagAgentSettings] read by the decision. *)
Record settings : Type := {
  orchestrator_confidence_threshold : Float.t;
  orchestrator_history_tail : Z;
  clarifications_limit : Z
}.

Definition search_keywords : list Py.str :=
  [ Py.lit "найти"; Py.lit "найди"; Py.lit "ищи"; Py.lit "поиск"; Py.lit "где";
    Py.lit "какой договор"; Py.lit "какой документ"; Py.lit "покажи";
    Py.lit "подбери" ].

Section WithRuntime.

(** What the Python runtime and the deployment supply. *)
Variable lower : Py.str -> Py.str.                 (* str.lower *)
Variable repr : json -> Py.str.                     (* str(v), v not a string *)
Variable int_of_str : Py.str -> option Z.           (* int(s), None: ValueError *)
Variable float_of_str : Py.str -> option Float.t.   (* float(s), None: ValueError *)
Variable json_loads : Py.str -> option json.        (* None: JSONDecodeError *)
Variable json_dumps : json -> Py.str.
Variable system_prompt orchestrator_prompt : Py.str. (* prompt_storage/*.txt *)

(** [int(v)] *)
Definition py_int (v : json) : outcome Z :=
  match v with
  | JInt z => Return z
  | JBool b => Return (if b then 1 else 0)
  | JFloat f => Float.to_int f
  | JStr s => of_option ValueError (int_of_str s)
  | JNull | JArr _ | JObj _ => Raise TypeError
  end.

(** [float(v)] *)
Definition py_float (v : json) : outcome Float.t :=
  match v with
  | JInt z => Float.of_int z
  | JBool b => Return (if b then Float.one else Float.zero)
  | JFloat f => Return f
  | JStr s => of_option ValueError (float_of_str s)
  | JNull | JArr _ | JObj _ => Raise TypeError
  end.

(** [query or ""] *)
Definition or_empty (query : option Py.str) : Py.str :=
  match query with Some s => s | None => [] end.

(** [selected_ids and len(selected_ids) > 0] *)
Definition has_selection (selected_ids : option (list Z)) : bool :=
  match selected_ids with
  | Some (_ :: _) => true
  | _ => false
  end.

Definition _rule_guess_scenario
    (query : option Py.str) (history : list message)
    (selected_ids : option (list Z)) : Z :=
  if has_selection selected_ids then 3
  else
    let q := lower (or_empty query) in
    if existsb (fun k => Py.contains k q) search_keywords then 1
    else if negb (Py.truthy_str (Py.strip q)) then 5
    else 2.

(** [list(selected_ids or [])] *)
Definition ids_or_empty (selected_ids : option (list Z)) : list Z :=
  match selected_ids with Some l => l | None => [] end.

Definition fallback_decision (rule_guess : Z) : ScenarioDecision :=
  {| scenario := rule_guess;
     confidence := Float.zero;
     reason := Py.lit "rule fallback";
     follow_up := false;
     clarifications := [];
     use_query_expansion := JNull;
     rule_guess := rule_guess;
     raw_response := JNull;
     intent := JNull |}.

Section Decide.

Variable cfg : settings.
(** [self._chat.chat(messages=..., response_format={"type": "json_object"})] *)
Variable chat : list message -> outcome json.

(** The body of the [try] block, in two steps: the reply's content, parsed
    ([resp["choices"][0]["message"]["content"]], then [json.loads]), and the
    decision built from the parsed reply. *)
Definition message_content (resp : json) : outcome json :=
  (choices <- J.getitem resp (Py.lit "choices") ;;
   choice <- J.getitem0 choices ;;
   msg <- J.getitem choice (Py.lit "message") ;;
   J.getitem msg (Py.lit "content"))%py.

Definition response_content (resp : json) : outcome json :=
  (content <- message_content resp ;;
   match content with
   | JStr s => of_option JSONDecodeError (json_loads s)
   | _ => Raise TypeError
   end)%py.

(** [int(parsed.get("scenario", 3))] and [float(parsed.get("confidence", 0.5))] *)
Definition llm_scenario_of (parsed : json) : outcome Z :=
  (raw <- J.get parsed (Py.lit "scenario") (JInt 3) ;; py_int raw)%py.

Definition confidence_of (parsed : json) : outcome Float.t :=
  (raw <- J.get parsed (Py.lit "confidence") (JFloat (Float.ratio 1 2)) ;; py_float raw)%py.

Definition decision_of_parsed (rule_guess : Z) (parsed : json) : outcome ScenarioDecision :=
  (llm_scenario <- llm_scenario_of parsed ;;
   confidence <- confidence_of parsed ;;
   let threshold := orchestrator_confidence_threshold cfg in
   let scenario := if Float.leb threshold confidence then llm_scenario else rule_guess in
   raw_clar <- J.get parsed (Py.lit "clarifications") (JArr []) ;;
   items <- J.iter raw_clar ;;
   let clarifications := Py.slice_to (clarifications_limit cfg) (map (J.str repr) items) in
   use_qe <- J.get parsed (Py.lit "use_query_expansion") JNull ;;
   let use_qe :=
     match use_qe with
     | JStr s => JBool (Py.mem (lower s) [Py.lit "true"; Py.lit "1"; Py.lit "yes"])
     | v => v
     end in
   intent <- J.get parsed (Py.lit "intent") JNull ;;
   raw_reason <- J.get parsed (Py.lit "reason") (JStr []) ;;
   raw_follow <- J.get parsed (Py.lit "follow_up") (JBool false) ;;
   Return {| scenario := scenario;
             confidence := confidence;
             reason := J.str repr raw_reason;
             follow_up := J.truthy raw_follow;
             clarifications := clarifications;
             use_query_expansion := use_qe;
             rule_guess := rule_guess;
             raw_response := parsed;
             intent := intent |})%py.

Definition parse_decision (rule_guess : Z) (resp : json) : outcome ScenarioDecision :=
  (parsed <- response_content resp ;; decision_of_parsed rule_guess parsed)%py.

Definition user_payload (query : option Py.str) (history : list message)
    (selected_ids : option (list Z)) (rule_guess : Z) (current_datetime : Py.str) : json :=
  JObj [ (Py.lit "query", match query with Some s => JStr s | None => JNull end);
         (Py.lit "selected_document_ids", JArr (map JInt (ids_or_empty selected_ids)));
         (Py.lit "has_history", JBool (match history with [] => false | _ => true end));
         (Py.lit "rule_guess", JInt rule_guess);
         (Py.lit "history_messages", JInt (Z.of_nat (length history)));
         (Py.lit "current_datetime", JStr current_datetime) ].

(** The message list sent to the completion model. *)
Definition orchestrator_messages
    (query : option Py.str) (history : list message)
    (selected_ids : option (list Z)) (current_datetime : Py.str) : list message :=
  let rule_guess := _rule_guess_scenario query history selected_ids in
  let sys_msg := Message (Py.lit "system") system_prompt in
  let orch_msg := Message (Py.lit "system") orchestrator_prompt in
  let user_msg :=
    Message (Py.lit "user")
      (json_dumps (user_payload query history selected_ids rule_guess current_datetime)) in
  let history_tail := orchestrator_history_tail cfg in
  [sys_msg; orch_msg] ++ Py.slice_last history_tail history ++ [user_msg].

Definition _choose_scenario
    (query : option Py.str) (history : list message)
    (selected_ids : option (list Z)) (current_datetime : Py.str)
    : outcome ScenarioDecision :=
  let rule_guess := _rule_guess_scenario query history selected_ids in
  let messages := orchestrator_messages query history selected_ids current_datetime in
  (resp <- chat messages ;;
   Return match parse_decision rule_guess resp with
          | Return decision => decision
          | Raise _ => fallback_decision rule_guess
          end)%py.

End Decide.

(** Declarative readings used in the statements below. *)
Definition Substring (k q : Py.str) : Prop := exists pre post, q = pre ++ k ++ post.

Definition search_intent (q : Py.str) : Prop :=
  exists k, In k search_keywords /\ Substring k (lower q).

Definition whitespace_only (q : Py.str) : Prop :=
  Forall (fun c => Py.isspace c = true) q.

Definition no_selection (selected_ids : option (list Z)) : Prop :=
  selected_ids = None \/ selected_ids = Some [].

End WithRuntime.

(** *** A small concrete runtime, for evaluating the model on sample inputs *)

(** Lower-casing restricted to the Latin and Cyrillic alphabets. *)
Definition lower_cp (c : N) : N :=
  if ((65 <=? c) && (c <=? 90))%N then (c + 32)%N
  else if ((1040 <=? c) && (c <=? 1071))%N then (c + 32)%N
  else if ((1024 <=? c) && (c <=? 1039))%N then (c + 80)%N
  else c.

Definition lower_ru (s : Py.str) : Py.str := map lower_cp s.

(** A name in double quotes, as in JSON text. *)
Definition quoted (s : string) : Py.str := [34%N] ++ Py.lit s ++ [34%N].

(** The text [{"scenario": 7, "confidence": 0.9}]. *)
Definition reply7_text : Py.str :=
  Py.lit "{" ++ quoted "scenario" ++ Py.lit ": 7, " ++ quoted "confidence"
    ++ Py.lit ": 0.9}".

Definition reply7_value : json :=
  JObj [ (Py.lit "scenario", JInt 7); (Py.lit "confidence", JFloat (Float.ratio 9 10)) ].

(** [json.loads] on the three texts used below; any other text is taken as
    malformed. *)
Definition sample_loads (s : Py.str) : option json :=
  if Py.str_eqb s reply7_text then Some reply7_value
  else if Py.str_eqb s (Py.lit "{}") then Some (JObj [])
  else if Py.str_eqb s (Py.lit "[]") then Some (JArr [])
  else None.

Definition sample_repr (v : json) : Py.str := Py.lit "?".

Definition no_int (s : Py.str) : option Z := None.
Definition no_float (s : Py.str) : option Float.t := None.
Definition sample_dumps (v : json) : Py.str := Py.lit "{...}".

Definition sample_settings : settings :=
  {| orchestrator_confidence_threshold := Float.ratio 3 5;
     orchestrator_history_tail := 5;
     clarifications_limit := 3 |}.

(** A completion reply carrying [text] as the message content. *)
Definition reply_with (text : Py.str) : json :=
  JObj [ (Py.lit "choices",
          JArr [ JObj [ (Py.lit "message",
                         JObj [ (Py.lit "role", JStr (Py.lit "assistant"));
                                (Py.lit "content", JStr text) ]) ] ]) ].

Definition sample_choose (chat : list message -> outcome json)
    (query : Py.str) (selected_ids : option (list Z)) : outcome ScenarioDecision :=
  _choose_scenario lower_ru sample_repr no_int no_float sample_loads sample_dumps
    (Py.lit "system") (Py.lit "orchestrator") sample_settings chat
    (Some query) [] selected_ids (Py.lit "2025-01-01T00:00:00+00:00").

End Scenario.

(* ================================================================== *)
(** ** Reciprocal rank fusion ([agent.py], [RagAgent._rrf_merge]) *)

Module Rrf.

(** The fields of [DocumentChunk] read by the agent. *)
Record DocumentChunk : Type := {
  chunk_id : Z;
  chunk_serial : Z;
  chunk_content : Py.str
}.

(** [VectorSearchResult] *)
Record VectorSearchResult : Type := {
  chunk : DocumentChunk;
  score : Float.t;
  payload : json
}.

Definition cid_of (res : VectorSearchResult) : Z := chunk_id (chunk res).

(** A [dict] keyed by chunk id, in insertion order. *)
Definition dict (V : Type) : Type := list (Z * V).

Fixpoint dict_get {V} (key : Z) (d : dict V) : option V :=
  match d with
  | [] => None
  | (k, v) :: r => if (k =? key)%Z then Some v else dict_get key r
  end.

(** [d[key] = v]: an existing key keeps its position. *)
Fixpoint dict_set {V} (key : Z) (v : V) (d : dict V) : dict V :=
  match d with
  | [] => [(key, v)]
  | (k, x) :: r => if (k =? key)%Z then (k, v) :: r else (k, x) :: dict_set key v r
  end.

(** The two dictionaries of the second loop. *)
Record fusion_state : Type := {
  fused_scores : dict Float.t;
  best_result_for_chunk : dict VectorSearchResult
}.

Definition empty_state : fusion_state :=
  {| fused_scores := []; best_result_for_chunk := [] |}.

(** [1.0 / n] for an [int] [n]: the integer is converted to a float
    ([OverflowError] beyond the binary64 range), and a zero divisor raises
    [ZeroDivisionError]. *)
Definition reciprocal (n : Z) : outcome Float.t :=
  (d <- Float.of_int n ;;
   if Float.truthy d then Return (Float.div Float.one d)
   else Raise ZeroDivisionError)%py.

(** The body of the inner loop for the item [res] at zero-based position
    [idx]. *)
Definition fuse_item (k : Z) (idx : Z) (res : VectorSearchResult) (st : fusion_state)
    : outcome fusion_state :=
  let cid := cid_of res in
  let score_sum :=
    match dict_get cid (fused_scores st) with Some s => s | None => Float.zero end in
  let rank := idx + 1 in
  (r <- reciprocal (k + rank) ;;
   let score_sum := Float.add score_sum r in
   let fused := dict_set cid score_sum (fused_scores st) in
   let best :=
     match dict_get cid (best_result_for_chunk st) with
     | None => dict_set cid res (best_result_for_chunk st)
     | Some b =>
         if Float.ltb (score b) (score res)
         then dict_set cid res (best_result_for_chunk st)
         else best_result_for_chunk st
     end in
   Return {| fused_scores := fused; best_result_for_chunk := best |})%py.

(** [for idx, res in enumerate(lst)], from position [idx] on. *)
Fixpoint fuse_list (k : Z) (idx : Z) (lst : list VectorSearchResult) (st : fusion_state)
    : outcome fusion_state :=
  match lst with
  | [] => Return st
  | res :: rest => (st' <- fuse_item k idx res st ;; fuse_list k (idx + 1) rest st')%py
  end.

(** [for lst in results_by_query] *)
Fixpoint fuse_lists (k : Z) (results_by_query : list (list VectorSearchResult))
    (st : fusion_state) : outcome fusion_state :=
  match results_by_query with
  | [] => Return st
  | lst :: rest => (st' <- fuse_list k 0 lst st ;; fuse_lists k rest st')%py
  end.

(** [[(cid, score, best_result_for_chunk[cid]) for cid, score in fused_scores.items()]] *)
Fixpoint fused_triples (best : dict VectorSearchResult) (scores : dict Float.t)
    : outcome (list (Z * Float.t * VectorSearchResult)) :=
  match scores with
  | [] => Return []
  | (cid, s) :: r =>
      (res <- of_option KeyError (dict_get cid best) ;;
       rest <- fused_triples best r ;;
       Return ((cid, s, res) :: rest))%py
  end.

(** [fused.sort(key=lambda x: x[1], reverse=True)]: the sort compares the
    scores with [<] only and is stable, also in reverse (entries that
    compare equal keep their order).  For scores that [<] orders totally (no
    NaN among them) the result is the one the insertion below gives: an
    entry goes before the first later entry that is not greater. *)
Fixpoint insert_desc (x : Z * Float.t * VectorSearchResult)
    (l : list (Z * Float.t * VectorSearchResult))
    : list (Z * Float.t * VectorSearchResult) :=
  match l with
  | [] => [x]
  | y :: r =>
      if Float.ltb (snd (fst x)) (snd (fst y)) then y :: insert_desc x r
      else x :: y :: r
  end.

Definition sort_desc (l : list (Z * Float.t * VectorSearchResult)) :=
  fold_right insert_desc [] l.

(** [_rrf_merge].  The first loop of the source fills [rank_maps], which is
    never read; it has no counterpart here. *)
Definition _rrf_merge (results_by_query : list (list VectorSearchResult)) (k : Z) (limit : Z)
    : outcome (list VectorSearchResult) :=
  (st <- fuse_lists k results_by_query empty_state ;;
   fused <- fused_triples (best_result_for_chunk st) (fused_scores st) ;;
   let fused := sort_desc fused in
   Return (map snd (Py.slice_to limit fused)))%py.

(** *** Notions used to state what the merge computes *)

(** The items of a list from position [idx] on, each with its rank (counted
    from 1), and the items of all the lists in the order of the loops. *)
Fixpoint ranked (idx : Z) (lst : list VectorSearchResult) : list (Z * VectorSearchResult) :=
  match lst with
  | [] => []
  | res :: rest => (idx + 1, res) :: ranked (idx + 1) rest
  end.

Definition occurrences (lists : list (list VectorSearchResult))
    : list (Z * VectorSearchResult) :=
  flat_map (ranked 0) lists.

(** The ranks at which a chunk id occurs, in that order. *)
Definition ranks_in (cid : Z) (seen : list (Z * VectorSearchResult)) : list Z :=
  map fst (filter (fun o => cid_of (snd o) =? cid) seen).

Definition ranks_of (cid : Z) (lists : list (list VectorSearchResult)) : list Z :=
  ranks_in cid (occurrences lists).

(** The float [1.0 / (k + rank)], when the conversion and the division
    succeed. *)
Definition contribution (k rank : Z) : Float.t :=
  Float.div Float.one (Float.of_Z (k + rank)).

(** The contributions of the given ranks, added one after another to [0.0]. *)
Definition float_total (k : Z) (ranks : list Z) : Float.t :=
  fold_left (fun acc rank => Float.add acc (contribution k rank)) ranks Float.zero.

(** The total a chunk id has accumulated at the end of the loops. *)
Definition fused_total (k : Z) (cid : Z) (lists : list (list VectorSearchResult)) : Float.t :=
  float_total k (ranks_of cid lists).

(** The lists are short enough for every [k + rank] to convert to a float
    without overflow. *)
Definition in_float_range (k : Z) (lists : list (list VectorSearchResult)) : Prop :=
  Forall (fun lst => k + Z.of_nat (length lst) < 2 ^ 1023) lists.

(** Invariant of the second loop, [seen] being the ranked items processed so
    far: both dictionaries have the same keys, without repetition; the total
    kept for a chunk id is the float sum of the contributions of its ranks,
    and is not negative; the result kept for a chunk id is an item seen with
    that id whose similarity score no other such item exceeds. *)
Definition loop_inv (k : Z) (seen : list (Z * VectorSearchResult)) (st : fusion_state)
    : Prop :=
  map fst (fused_scores st) = map fst (best_result_for_chunk st) /\
  NoDup (map fst (fused_scores st)) /\
  (forall cid, dict_get cid (fused_scores st) =
     match ranks_in cid seen with
     | [] => None
     | _ => Some (float_total k (ranks_in cid seen))
     end) /\
  (forall cid r, dict_get cid (best_result_for_chunk st) = Some r ->
     cid_of r = cid /\ In r (map snd seen) /\
     forall r', In r' (map snd seen) -> cid_of r' = cid ->
                Float.ltb (score r) (score r') = false) /\
  (forall cid s, dict_get cid (fused_scores st) = Some s ->
     Float.leb Float.zero s = true).

(** Order of the sorted triples: descending total. *)
Definition desc (a b : Z * Float.t * VectorSearchResult) : Prop :=
  Float.leb (snd (fst b)) (snd (fst a)) = true.

(** Order of the merged results: descending accumulated total. *)
Definition by_fused_score (k : Z) (lists : list (list VectorSearchResult))
    (r1 r2 : VectorSearchResult) : Prop :=
  Float.leb (fused_total k (cid_of r2) lists) (fused_total k (cid_of r1) lists) = true.

(** The representative of a chunk id: an item of the input that no item of
    the input with the same id beats on similarity score. *)
Definition representative (lists : list (list VectorSearchResult))
    (r : VectorSearchResult) : Prop :=
  In r (concat lists) /\
  forall r', In r' (concat lists) -> cid_of r' = cid_of r ->
             Float.ltb (score r) (score r') = false.

(** Sample results, the similarity score written as a decimal fraction. *)
Definition sample_result (cid : Z) (s : Q) : VectorSearchResult :=
  {| chunk := {| chunk_id := cid; chunk_serial := 0; chunk_content := [] |};
     score := Float.ratio (Qnum s) (Z.pos (Qden s)); payload := JNull |}.

End Rrf.

(* ================================================================== *)
(** ** Fusion planner ([fusion_planner.py]) *)

Module Fusion.

Import Scenario.

Record FusionPlan : Type := {
  base_query : Py.str;
  refinements : list Py.str;
  subqueries : list Py.str;
  priority_notes : Py.str;
  rerank : bool;
  direct_answer_hint : option Py.str
}.

(** One turn of the loop of [expansions]:
    [if item and item.strip() and item not in uniq: uniq.append(item.strip())]. *)
Definition add_expansion (uniq : list Py.str) (item : Py.str) : list Py.str :=
  if Py.truthy_str item && Py.truthy_str (Py.strip item) && negb (Py.mem item uniq)
  then uniq ++ [Py.strip item]
  else uniq.

(** The property [FusionPlan.expansions]. *)
Definition expansions (p : FusionPlan) : list Py.str :=
  fold_left add_expansion (base_query p :: refinements p ++ subqueries p) [].

Section WithRuntime.

Variable repr : json -> Py.str.
Variable json_loads : Py.str -> option json.
Variable json_dumps : json -> Py.str.
Variable system_prompt fusion_prompt : Py.str.
Variable history_tail : Z.            (* the constructor argument *)
Variable chat : list message -> outcome json.

Definition _ensure_list (value : json) : list Py.str :=
  match value with
  | JArr items =>
      map (fun item => Py.strip (J.str repr item))
          (filter (fun item => Py.truthy_str (Py.strip (J.str repr item))) items)
  | JStr s => if Py.truthy_str (Py.strip s) then [Py.strip s] else []
  | _ => []
  end.

Definition message_json (m : message) : json :=
  JObj [ (Py.lit "role", JStr (role m)); (Py.lit "content", JStr (content m)) ].

Definition plan (query : Py.str) (history : option (list message))
    (selected_ids : option (list Z)) : outcome FusionPlan :=
  let tail := Py.slice_last (Z.max 0 history_tail)
                (match history with Some h => h | None => [] end) in
  let payload :=
    JObj [ (Py.lit "query", JStr query);
           (Py.lit "history_messages", JInt (Z.of_nat (length tail)));
           (Py.lit "history_preview", JArr (map message_json tail));
           (Py.lit "selected_document_ids", JArr (map JInt (ids_or_empty selected_ids))) ] in
  let messages :=
    [ Message (Py.lit "system") system_prompt;
      Message (Py.lit "system") fusion_prompt;
      Message (Py.lit "user") (json_dumps payload) ] in
  (response <- chat messages ;;
   content <- message_content response ;;
   data <- match content with
           | JStr s => Return (match json_loads s with Some v => v | None => JObj [] end)
           | _ => Raise TypeError
           end ;;
   raw_refinements <- J.get data (Py.lit "refinements") JNull ;;
   raw_subqueries <- J.get data (Py.lit "subqueries") JNull ;;
   raw_notes <- J.get data (Py.lit "notes") JNull ;;
   raw_strategy <- J.get data (Py.lit "strategy") JNull ;;
   let notes :=
     Py.strip (J.str repr (J.or_else (J.or_else raw_notes raw_strategy) (JStr []))) in
   raw_rerank <- J.get data (Py.lit "rerank") (JBool true) ;;
   raw_hint <- J.get data (Py.lit "direct_answer_hint") (JStr []) ;;
   let hint := Py.strip (J.str repr raw_hint) in
   Return {| base_query := query;
             refinements := _ensure_list raw_refinements;
             subqueries := _ensure_list raw_subqueries;
             priority_notes := notes;
             rerank := J.truthy raw_rerank;
             direct_answer_hint := if Py.truthy_str hint then Some hint else None |})%py.

(** [RagAgent._generate_fusion_plan] ([agent.py]): the planner under a
    handler that turns any exception into the fallback plan. *)
Definition _generate_fusion_plan (query : Py.str) (history : list message)
    (selected_ids : option (list Z)) : FusionPlan :=
  match plan query (Some history) selected_ids with
  | Return p => p
  | Raise _ =>
      {| base_query := query; refinements := []; subqueries := [];
         priority_notes := Py.lit "fallback-plan"; rerank := false;
         direct_answer_hint := None |}
  end.

End WithRuntime.

(** The planner on the sample runtime. *)
Definition sample_plan (chat : list message -> outcome json) (query : Py.str) : FusionPlan :=
  _generate_fusion_plan sample_repr sample_loads sample_dumps
    (Py.lit "system") (Py.lit "fusion") 5 chat query [] None.

End Fusion.

(* ================================================================== *)
(** ** Parallel tool executor ([tool_executor.py]) *)

Module Executor.

Import Scenario.

(** [ToolResult] *)
Record ToolResult : Type := {
  content : json;
  used_chunks : list Rrf.VectorSearchResult
}.

(** [ToolExecution].  [duration_ms], a wall-clock measurement, is left out.
    The objects of a batch live in a store (a list) and are referred to by
    their position, so that the fields written by [execute_plan] are seen by
    whoever holds the batch. *)
Record ToolExecution : Type := {
  tool_name : Py.str;
  arguments : json;
  depends_on : list Py.str;
  result : option ToolResult;
  error : option exn
}.

(** A [dict] keyed by strings, in insertion order. *)
Definition sdict (V : Type) : Type := list (Py.str * V).

(** [d[key] = v] *)
Fixpoint sset {V} (key : Py.str) (v : V) (d : sdict V) : sdict V :=
  match d with
  | [] => [(key, v)]
  | (k, x) :: r => if Py.str_eqb key k then (k, v) :: r else (k, x) :: sset key v r
  end.

(** [del d[key]] on a key that is present *)
Fixpoint sdel {V} (key : Py.str) (d : sdict V) : sdict V :=
  match d with
  | [] => []
  | (k, x) :: r => if Py.str_eqb key k then r else (k, x) :: sdel key r
  end.

(** [{k: v for (k, v) in items}] *)
Definition dict_of {V} (items : list (Py.str * V)) : sdict V :=
  fold_left (fun d kv => sset (fst kv) (snd kv) d) items [].

Definition keys {V} (d : sdict V) : list Py.str := map fst d.

(** What a run does that can be observed from outside: each call of a tool
    handler through the registry (tool, arguments, attempt number from 0) and
    each [asyncio.sleep(seconds)]. *)
Inductive event : Type :=
| Attempt (name : Py.str) (args : json) (attempt : Z)
| Sleep (seconds : Z).

Section WithRegistry.

(** The state the tool handlers act on (database, caches, remote services). *)
Context {World : Type}.

Definition handler : Type := json -> World -> outcome ToolResult * World.

(** [ToolRegistry._definitions], for the handlers. *)
Variable registry : sdict handler.
Variable max_retries : Z.

Record state : Type := { world : World; trace : list event }.

Definition log (e : event) (st : state) : state :=
  {| world := world st; trace := trace st ++ [e] |}.

(** [ToolRegistry.execute] as the executor calls it.  The executor passes
    [json.dumps(execution.arguments)] and the registry reads it back with
    [json.loads], which gives the arguments again; arguments that are not an
    object are refused. *)
Definition registry_execute (name : Py.str) (args : json) (w : World)
    : outcome ToolResult * World :=
  match J.assoc name registry with
  | None => (Raise UnknownTool, w)
  | Some h => if J.is_dict args then h args w else (Raise BadToolArguments, w)
  end.

(** [for attempt in range(...)], with [n] turns left. *)
Fixpoint retry_from (n : nat) (attempt : Z) (last_error : option exn)
    (ex : ToolExecution) (st : state) : outcome ToolResult * state :=
  match n with
  | O =>
      (Raise (match last_error with Some e => e | None => FailedWithoutException end), st)
  | S n' =>
      let st := log (Attempt (tool_name ex) (arguments ex) attempt) st in
      let (r, w) := registry_execute (tool_name ex) (arguments ex) (world st) in
      let st := {| world := w; trace := trace st |} in
      match r with
      | Return res => (Return res, st)
      | Raise exc =>
          let st := if attempt <? max_retries then log (Sleep (2 ^ attempt)) st else st in
          retry_from n' (attempt + 1) (Some exc) ex st
      end
  end.

Definition _execute_with_retry (ex : ToolExecution) (st : state)
    : outcome ToolResult * state :=
  retry_from (Z.to_nat (max_retries + 1)) 0 None ex st.

(** The variables of [execute_plan]; [pending] maps a tool name to the
    position of its execution in [store]. *)
Record plan_state : Type := {
  results : sdict ToolResult;
  completed : list Py.str;
  pending : sdict nat;
  store : list ToolExecution
}.

Definition blank_execution : ToolExecution :=
  {| tool_name := []; arguments := JNull; depends_on := []; result := None; error := None |}.

Definition exec_at (store : list ToolExecution) (i : nat) : ToolExecution :=
  nth i store blank_execution.

Fixpoint update_at (i : nat) (f : ToolExecution -> ToolExecution)
    (store : list ToolExecution) : list ToolExecution :=
  match store, i with
  | [], _ => []
  | ex :: r, O => f ex :: r
  | ex :: r, S i' => ex :: update_at i' f r
  end.

Definition set_error (e : exn) (ex : ToolExecution) : ToolExecution :=
  {| tool_name := tool_name ex; arguments := arguments ex; depends_on := depends_on ex;
     result := result ex; error := Some e |}.

Definition set_result (r : ToolResult) (ex : ToolExecution) : ToolExecution :=
  {| tool_name := tool_name ex; arguments := arguments ex; depends_on := depends_on ex;
     result := Some r; error := error ex |}.

(** [all(dep in completed for dep in ex.depends_on)] *)
Definition deps_met (completed : list Py.str) (ex : ToolExecution) : bool :=
  forallb (fun dep => Py.mem dep completed) (depends_on ex).

(** [ready]: the pending executions whose dependencies are completed. *)
Definition ready_executions (ps : plan_state) : list ToolExecution :=
  filter (deps_met (completed ps)) (map (fun p => exec_at (store ps) (snd p)) (pending ps)).

(** [asyncio.gather] over [tasks.values()] with [return_exceptions=True]: the tasks of a
    wave are run here one after the other, in the order of the wave; each
    yields its result or its exception. *)
Fixpoint gather (tasks : sdict ToolExecution) (st : state)
    : list (Py.str * outcome ToolResult) * state :=
  match tasks with
  | [] => ([], st)
  | (name, ex) :: rest =>
      let (r, st1) := _execute_with_retry ex st in
      let (outs, st2) := gather rest st1 in
      ((name, r) :: outs, st2)
  end.

(** One turn of the loop over [zip(tasks.keys(), completed_tasks)]. *)
Definition process_result (ps : plan_state) (item : Py.str * outcome ToolResult)
    : outcome plan_state :=
  let (name, r) := item in
  (i <- of_option KeyError (J.assoc name (pending ps)) ;;
   let ps1 :=
     match r with
     | Raise e =>
         {| results := results ps; completed := completed ps; pending := pending ps;
            store := update_at i (set_error e) (store ps) |}
     | Return res =>
         {| results := sset name res (results ps); completed := completed ps;
            pending := pending ps; store := update_at i (set_result res) (store ps) |}
     end in
   Return {| results := results ps1;
             completed := if Py.mem name (completed ps1) then completed ps1
                          else completed ps1 ++ [name];
             pending := sdel name (pending ps1);
             store := store ps1 |})%py.

Fixpoint process_results (ps : plan_state) (items : list (Py.str * outcome ToolResult))
    : outcome plan_state :=
  match items with
  | [] => Return ps
  | item :: rest => (ps' <- process_result ps item ;; process_results ps' rest)%py
  end.

(** What [execute_plan] leaves behind: the value returned or the exception
    raised, its variables at that point ([store] holds the executions as
    written to), and the state reached. *)
Record plan_run : Type := {
  returned : outcome (sdict ToolResult);
  final : plan_state;
  state_after : state
}.

Definition executions_after (run : plan_run) : list ToolExecution := store (final run).

(** [while pending: ...]; [None] when [fuel] turns do not reach the end. *)
Fixpoint run_waves (fuel : nat) (ps : plan_state) (st : state) : option plan_run :=
  match pending ps with
  | [] => Some {| returned := Return (results ps); final := ps; state_after := st |}
  | _ :: _ =>
      match fuel with
      | O => None
      | S fuel' =>
          match ready_executions ps with
          | [] => Some {| returned := Raise CircularDependency; final := ps;
                          state_after := st |}
          | _ :: _ =>
              let tasks :=
                dict_of (map (fun ex => (tool_name ex, ex)) (ready_executions ps)) in
              let (completed_tasks, st') := gather tasks st in
              match process_results ps completed_tasks with
              | Raise e => Some {| returned := Raise e; final := ps; state_after := st' |}
              | Return ps' => run_waves fuel' ps' st'
              end
          end
      end
  end.

(** [{ex.tool_name: ex for ex in executions}], by position. *)
Definition index_by_name (executions : list ToolExecution) : sdict nat :=
  dict_of (combine (map tool_name executions) (seq 0 (length executions))).

Definition initial_plan (executions : list ToolExecution) : plan_state :=
  {| results := []; completed := []; pending := index_by_name executions;
     store := executions |}.

(** [execute_plan]: every turn of the loop takes at least one execution out
    of [pending], so one turn per pending execution is enough fuel. *)
Definition execute_plan (executions : list ToolExecution) (st : state) : option plan_run :=
  match executions with
  | [] => Some {| returned := Return []; final := initial_plan []; state_after := st |}
  | _ => run_waves (length (index_by_name executions)) (initial_plan executions) st
  end.

(** An OpenAI-style tool call: [{"id": ..., "function": {"name": ...,
    "arguments": <JSON text>}}]; [None] is an absent key. *)
Record tool_call : Type := {
  call_id : json;
  fn_name : option Py.str;
  fn_arguments : option Py.str
}.

Variable json_loads : Py.str -> option json.
Variable json_dumps : json -> Py.str.
Variable exn_str : exn -> Py.str.            (* str(exc) *)

(** [json.loads(func.get("arguments", "{}"))], [{}] on a decoding error. *)
Definition call_arguments (call : tool_call) : json :=
  match fn_arguments call with
  | None => JObj []
  | Some text => match json_loads text with Some v => v | None => JObj [] end
  end.

Definition search_tool : Py.str := Py.lit "search_user_documents".
Definition load_tool : Py.str := Py.lit "load_documents_full".

(** The body of the loop of [analyze_dependencies], on the lists built so far. *)
Fixpoint analyze_from (tool_calls : list tool_call) (tool_names : list Py.str)
    (executions : list ToolExecution) : outcome (list ToolExecution) :=
  match tool_calls with
  | [] => Return executions
  | call :: rest =>
      match fn_name call with
      | None | Some [] => analyze_from rest tool_names executions
      | Some tool_name =>
          let args := call_arguments call in
          (depends_on <-
             (if Py.str_eqb tool_name load_tool then
                (ids <- J.get args (Py.lit "document_ids") JNull ;;
                 Return (if negb (J.truthy ids)
                            && Py.mem search_tool tool_names
                         then [search_tool] else []))
              else Return []) ;;
           analyze_from rest (tool_names ++ [tool_name])
             (executions ++ [ {| tool_name := tool_name; arguments := args;
                                 depends_on := depends_on; result := None;
                                 error := None |} ]))%py
      end
  end.

Definition analyze_dependencies (tool_calls : list tool_call)
    : outcome (list ToolExecution) :=
  analyze_from tool_calls [] [].

(** *** The parallel branch of [RagAgent._run_tool_conversation] ([agent.py]) *)

(** A message of role ["tool"]. *)
Record tool_message : Type := {
  tool_call_id : json;
  name : option Py.str;
  message_text : Py.str             (* the value under "content" *)
}.

(** An entry of [tool_debug], without its [duration_ms]. *)
Record debug_entry : Type := {
  debug_name : option Py.str;
  debug_arguments : option Py.str;
  returned_chunks : option nat;
  debug_error : option Py.str
}.

Definition error_payload (error_msg : Py.str) : json :=
  JObj [ (Py.lit "status", JStr (Py.lit "error")); (Py.lit "message", JStr error_msg) ].

(** [name in results], [results[name]] *)
Definition lookup_result (results : sdict ToolResult) (name : option Py.str)
    : option ToolResult :=
  match name with Some n => J.assoc n results | None => None end.

(** [next((e for e in executions if e.tool_name == name), None)] *)
Definition exec_info (executions : list ToolExecution) (name : option Py.str)
    : option ToolExecution :=
  match name with
  | Some n => find (fun e => Py.str_eqb (tool_name e) n) executions
  | None => None
  end.

Definition error_message (executions : list ToolExecution) (name : option Py.str) : Py.str :=
  match exec_info executions name with
  | Some e => match error e with Some err => exn_str err | None => Py.lit "Unknown error" end
  | None => Py.lit "Unknown error"
  end.

(** The body of [for call in tool_calls] after [execute_plan] has returned:
    the tool message, the chunks and the debug entry the call adds. *)
Definition answer_call (results : sdict ToolResult) (executions : list ToolExecution)
    (call : tool_call) : tool_message * list Rrf.VectorSearchResult * debug_entry :=
  match lookup_result results (fn_name call) with
  | Some res =>
      ({| tool_call_id := call_id call; name := fn_name call;
          message_text := json_dumps (content res) |},
       used_chunks res,
       {| debug_name := fn_name call; debug_arguments := fn_arguments call;
          returned_chunks := Some (length (used_chunks res)); debug_error := None |})
  | None =>
      let error_msg := error_message executions (fn_name call) in
      ({| tool_call_id := call_id call; name := fn_name call;
          message_text := json_dumps (error_payload error_msg) |},
       [],
       {| debug_name := fn_name call; debug_arguments := fn_arguments call;
          returned_chunks := None; debug_error := Some error_msg |})
  end.

(** How one batch of tool calls ends in the parallel branch. *)
Inductive dispatch : Type :=
| Answered (messages : list tool_message)
           (collected_chunks : list Rrf.VectorSearchResult)
           (tool_debug : list debug_entry) (st : state)
| SequentialFallback (st : state)     (* [enable_parallel = False; continue] *)
| TurnFailed (e : exn).               (* raised outside the [try] *)

Definition parallel_dispatch (tool_calls : list tool_call) (st : state) : option dispatch :=
  match analyze_dependencies tool_calls with
  | Raise e => Some (TurnFailed e)
  | Return executions =>
      match execute_plan executions st with
      | None => None
      | Some run =>
          match returned run with
          | Raise _ => Some (SequentialFallback (state_after run))
          | Return results =>
              let answers := map (answer_call results (executions_after run)) tool_calls in
              Some (Answered (map (fun a => fst (fst a)) answers)
                             (flat_map (fun a => snd (fst a)) answers)
                             (map snd answers)
                             (state_after run))
          end
      end
  end.

End WithRegistry.

(** *** Specification notions *)

(** The events of one run of [_execute_with_retry] that makes [n] attempts,
    the first numbered [first]: the attempts, with a sleep of [2^attempt]
    seconds between one attempt and the next. *)
Fixpoint attempts_trace (name : Py.str) (args : json) (first : Z) (n : nat) : list event :=
  match n with
  | O => []
  | S O => [Attempt name args first]
  | S n' => Attempt name args first :: Sleep (2 ^ first)
              :: attempts_trace name args (first + 1) n'
  end.

Definition sleeps (tr : list event) : list Z :=
  flat_map (fun e => match e with Sleep s => [s] | Attempt _ _ _ => [] end) tr.

Definition attempts_of (name : Py.str) (tr : list event) : nat :=
  length (filter (fun e => match e with
                           | Attempt n _ _ => Py.str_eqb n name
                           | Sleep _ => false
                           end) tr).

(** The fields of an execution that [execute_plan] never writes. *)
Definition same_fields (a b : ToolExecution) : Prop :=
  tool_name a = tool_name b /\ arguments a = arguments b /\ depends_on a = depends_on b.

(** How the outcome [r] of the execution at position [i], named [n], is
    recorded: a result goes to the result map and to the execution; an
    exception goes to the execution only. *)
Definition recorded_as (ps : plan_state) (n : Py.str) (i : nat) (r : outcome ToolResult)
    : Prop :=
  match r with
  | Return res =>
      J.assoc n (results ps) = Some res /\ result (exec_at (store ps) i) = Some res
  | Raise e =>
      J.assoc n (results ps) = None /\ error (exec_at (store ps) i) = Some e
  end.

(** Invariant of the loop of [execute_plan], for the batch [store0] indexed
    by [pending0]. *)
Record well_formed (store0 : list ToolExecution) (pending0 : sdict nat)
    (ps : plan_state) : Prop := {
  wf_nodup0 : NoDup (keys pending0);
  wf_named0 : forall n i, In (n, i) pending0 ->
                (i < length store0)%nat /\ tool_name (exec_at store0 i) = n;
  wf_sub : forall n i, In (n, i) (pending ps) -> In (n, i) pending0;
  wf_nodup : NoDup (keys (pending ps));
  wf_fresh : forall n, In n (keys (pending ps)) ->
               ~ In n (completed ps) /\ J.assoc n (results ps) = None;
  wf_length : length (store ps) = length store0;
  wf_same : forall i, same_fields (exec_at (store ps) i) (exec_at store0 i);
  wf_results : NoDup (keys (results ps));
  wf_known : forall n, In n (keys (results ps)) -> In n (keys pending0)
}.
Arguments wf_nodup0 {store0 pending0 ps} _.
Arguments wf_named0 {store0 pending0 ps} _ _ _ _.
Arguments wf_sub {store0 pending0 ps} _ _ _ _.
Arguments wf_nodup {store0 pending0 ps} _.
Arguments wf_fresh {store0 pending0 ps} _ _ _.
Arguments wf_length {store0 pending0 ps} _.
Arguments wf_same {store0 pending0 ps} _ _.
Arguments wf_results {store0 pending0 ps} _.
Arguments wf_known {store0 pending0 ps} _ _ _.

(** The pending entries that are ready, as the guard of [ready] selects them. *)
Definition ready_entries (store : list ToolExecution) (completed : list Py.str)
    (pending : sdict nat) : sdict nat :=
  filter (fun p => deps_met completed (exec_at store (snd p))) pending.

Definition without (names : list Py.str) (pending : sdict nat) : sdict nat :=
  filter (fun p => negb (Py.mem (fst p) names)) pending.

(** The waves of a batch, computed from the dependencies alone: the names
    run in each wave, and whether the batch is run to its end ([true]) or
    stops at a wave with nothing ready ([false]). *)
Fixpoint schedule (fuel : nat) (store : list ToolExecution) (pending : sdict nat)
    (completed : list Py.str) : option (list (list Py.str) * bool) :=
  match pending with
  | [] => Some ([], true)
  | _ :: _ =>
      match fuel with
      | O => None
      | S fuel' =>
          match ready_entries store completed pending with
          | [] => Some ([], false)
          | ready =>
              let names := keys ready in
              match schedule fuel' store (without names pending) (completed ++ names) with
              | Some (waves, ok) => Some (names :: waves, ok)
              | None => None
              end
          end
      end
  end.

Definition plan_schedule (executions : list ToolExecution)
    : option (list (list Py.str) * bool) :=
  schedule (length (index_by_name executions)) executions (index_by_name executions) [].

(** The execution that [execute_plan] keeps for a tool name: [pending] is
    keyed by name, so of several executions of one name the last is kept. *)
Definition kept (executions : list ToolExecution) (n : Py.str) : option ToolExecution :=
  option_map (exec_at executions) (J.assoc n (index_by_name executions)).

(** Every tool named in [names] waits for a tool named in [names]: the
    dependencies among [names] have no starting point (a dependency cycle
    A, B, C with A waiting for B, B for C and C for A is the typical case). *)
Definition depends_within (executions : list ToolExecution) (names : list Py.str) : Prop :=
  forall n, In n names ->
    exists ex d, kept executions n = Some ex /\ In d (depends_on ex) /\ In d names.

(** The tool names of a batch of calls, as [analyze_dependencies] collects
    them (calls without a name are skipped). *)
Definition call_names (tool_calls : list tool_call) : list Py.str :=
  flat_map (fun call => match fn_name call with
                        | Some (c :: s) => [c :: s]
                        | _ => []
                        end) tool_calls.

(** The dependencies [analyze_dependencies] can give an execution of the
    batch [l]: none, or the document search when the batch has one; and a
    document search has none. *)
Definition agent_deps (l : list ToolExecution) (ex : ToolExecution) : Prop :=
  (depends_on ex = [] \/
   (depends_on ex = [search_tool] /\ In search_tool (map tool_name l))) /\
  (tool_name ex = search_tool -> depends_on ex = []).

(** One run of [_execute_with_retry]: the execution, the number of attempts
    made and the outcome. *)
Definition retry_run : Type := (ToolExecution * nat * outcome ToolResult)%type.

Definition run_name (r : retry_run) : Py.str := tool_name (fst (fst r)).

Definition runs_trace (runs : list retry_run) : list event :=
  flat_map (fun r => attempts_trace (tool_name (fst (fst r))) (arguments (fst (fst r)))
                       0 (snd (fst r))) runs.

(** A run makes at most [bound] attempts, at least one when [bound] is not
    zero, and all of them when it ends in an exception. *)
Definition run_bounds (bound : nat) (r : retry_run) : Prop :=
  (snd (fst r) <= bound)%nat /\
  (bound <> O -> snd (fst r) <> O) /\
  (forall e, snd r = Raise e -> snd (fst r) = bound).

(** *** Sample tools: the world counts the handler calls made so far *)

Definition ok_result (v : Z) : ToolResult := {| content := JInt v; used_chunks := [] |}.

(** Fails on the first two calls it receives, then succeeds. *)
Definition flaky : @handler nat :=
  fun _ w => (if (w <? 2)%nat then Raise (ToolError 1) else Return (ok_result 1), S w).

Definition steady : @handler nat := fun _ w => (Return (ok_result 2), S w).
Definition broken : @handler nat := fun _ w => (Raise (ToolError 3), S w).

Definition sample_registry : sdict (@handler nat) :=
  [ (Py.lit "flaky", flaky); (Py.lit "steady", steady); (Py.lit "broken", broken);
    (Py.lit "A", steady); (Py.lit "B", steady); (Py.lit "C", steady) ].

Definition sample_execution (n : string) (deps : list string) : ToolExecution :=
  {| tool_name := Py.lit n; arguments := JObj []; depends_on := map Py.lit deps;
     result := None; error := None |}.

Definition start : @state nat := {| world := O; trace := [] |}.

Definition sample_exn_str (e : exn) : Py.str := Py.lit "tool failed".

(** Two calls of the tool [steady], the first with arguments, the second
    without. *)
Definition duplicate_calls : list tool_call :=
  [ {| call_id := JStr (Py.lit "call_1"); fn_name := Some (Py.lit "steady");
       fn_arguments := Some reply7_text |};
    {| call_id := JStr (Py.lit "call_2"); fn_name := Some (Py.lit "steady");
       fn_arguments := None |} ].

Definition duplicate_executions : list ToolExecution :=
  [ {| tool_name := Py.lit "steady"; arguments := reply7_value; depends_on := [];
       result := None; error := None |};
    {| tool_name := Py.lit "steady"; arguments := JObj []; depends_on := [];
       result := None; error := None |} ].

End Executor.

(* ================================================================== *)
(** ** Token-aware context manager ([context_manager.py]) *)

Module Context.

Import Scenario Rrf.

(** The fields set by the constructor ([model] is only a label). *)
Record manager : Type := {
  max_tokens : Z;
  reserved_output : Z;
  reserved_system : Z
}.

(** [self._available] *)
Definition available (m : manager) : Z :=
  max_tokens m - reserved_output m - reserved_system m.

(** [self._chars_per_token = 4.0] *)
Definition chars_per_token : Float.t := Float.of_Z 4.

(** [estimate_tokens]: [int(len(text) / 4.0)].  A length is converted to a
    float without rounding and the division by 4.0 is exact, so the
    truncated quotient is the integer quotient. *)
Definition estimate_tokens (text : Py.str) : Z :=
  match text with
  | [] => 0
  | _ => Z.of_nat (length text) / 4
  end.

Definition estimate_messages_tokens (messages : list message) : Z :=
  fold_left (fun total msg => total + 4 + estimate_tokens (content msg)) messages 0.

Definition is_system (m : message) : bool := Py.str_eqb (role m) (Py.lit "system").

(** The loop over [reversed(other_msgs)], on the reversed list: messages are
    put in front of [result] until one does not fit. *)
Fixpoint keep_recent (available : Z) (reversed_msgs : list message)
    (result : list message) (current_tokens : Z) : list message :=
  match reversed_msgs with
  | [] => result
  | msg :: rest =>
      let msg_tokens := estimate_tokens (content msg) + 4 in
      if current_tokens + msg_tokens >? available then result
      else keep_recent available rest (msg :: result) (current_tokens + msg_tokens)
  end.

(** [truncate_to_budget] with [preserve_system=True] *)
Definition truncate_to_budget (messages : list message) (budget : Z) : list message :=
  match messages with
  | [] => []
  | _ =>
      let system_msgs := filter is_system messages in
      let other_msgs := filter (fun m => negb (is_system m)) messages in
      let system_tokens := estimate_messages_tokens system_msgs in
      let available := Z.max 0 (budget - system_tokens) in
      if available <=? 0 then system_msgs
      else system_msgs ++ keep_recent available (rev other_msgs) [] 0
  end.

(** [content[:n]] for an integer [n] that is not negative *)
Definition prefix (n : Z) (s : Py.str) : Py.str := Py.slice_to n s.

Definition with_content (c : VectorSearchResult) (text : Py.str) : VectorSearchResult :=
  {| chunk := {| chunk_id := chunk_id (chunk c); chunk_serial := chunk_serial (chunk c);
                 chunk_content := text |};
     score := score c; payload := payload c |}.

(** [optimize_chunks]: a chunk of more than [max_chunk_tokens] estimated
    tokens is cut to [int(max_chunk_tokens * 4.0 * 0.9)] characters, with
    ["..."] appended. *)
Fixpoint optimize_chunks (chunks : list VectorSearchResult) (max_chunk_tokens : Z)
    : outcome (list VectorSearchResult) :=
  match chunks with
  | [] => Return []
  | c :: rest =>
      let text := chunk_content (chunk c) in
      (c' <-
         (if estimate_tokens text <=? max_chunk_tokens then Return c
          else
            (f <- Float.of_int max_chunk_tokens ;;
             target_chars <-
               Float.to_int (Float.mul (Float.mul f chars_per_token) (Float.ratio 9 10)) ;;
             Return (with_content c (prefix target_chars text ++ Py.lit "...")))) ;;
       rest' <- optimize_chunks rest max_chunk_tokens ;;
       Return (c' :: rest'))%py
  end.

Definition chunks_cost (chunks : list VectorSearchResult) : Z :=
  fold_left (fun total c => total + (estimate_tokens (chunk_content (chunk c)) + 20)) chunks 0.

(** [while chunks_tokens > chunk_budget and len(optimized_chunks) > 3:
    optimized_chunks.pop()], in at most [n] turns. *)
Fixpoint drop_over_budget (n : nat) (chunk_budget : Z) (chunks : list VectorSearchResult)
    : list VectorSearchResult :=
  match n with
  | O => chunks
  | S n' =>
      if (chunks_cost chunks >? chunk_budget) && (3 <? length chunks)%nat
      then drop_over_budget n' chunk_budget (removelast chunks)
      else chunks
  end.

(** The [stats] dictionary; the keys set only when there are chunks are
    optional. *)
Record stats : Type := {
  total_budget : Z;
  base_tokens : Z;
  remaining : Z;
  chunk_budget : Z;
  history_budget : Z;
  chunks_tokens : option Z;
  chunks_count : option nat;
  history_tokens : Z;
  history_count : nat;
  total_tokens : Z;
  utilization : Float.t
}.

Section WithRuntime.

Variable repr : json -> Py.str.          (* str(v), v not a string *)

Definition newline : Py.str := [10%N].

(** ["\n".join(parts)] *)
Definition join_lines (parts : list Py.str) : Py.str :=
  match parts with
  | [] => []
  | p :: rest => p ++ flat_map (fun q => newline ++ q) rest
  end.

(** [_format_chunks_context] *)
Fixpoint format_parts (i : Z) (chunks : list VectorSearchResult) : outcome (list Py.str) :=
  match chunks with
  | [] => Return []
  | c :: rest =>
      let payload := J.or_else (payload c) (JObj []) in
      (doc_id <- J.get payload (Py.lit "document_id") (JStr (Py.lit "?")) ;;
       title <- J.get payload (Py.lit "filename")
                  (JStr (Py.lit "Документ " ++ J.str repr doc_id)) ;;
       parts <- format_parts (i + 1) rest ;;
       Return ((Py.lit "## Фрагмент " ++ J.str repr (JInt i) ++ Py.lit " ["
                  ++ J.str repr title ++ Py.lit "]" ++ newline
                  ++ chunk_content (chunk c) ++ newline) :: parts))%py
  end.

Definition _format_chunks_context (chunks : list VectorSearchResult) : outcome Py.str :=
  match chunks with
  | [] => Return []
  | _ =>
      (parts <- format_parts 1 chunks ;;
       Return (join_lines ((Py.lit "=== КОНТЕКСТ ИЗ ДОКУМЕНТОВ ===" ++ newline) :: parts)))%py
  end.

(** The two budgets: [int(remaining * chunk_weight)] and
    [int(remaining * (1.0 - chunk_weight))]. *)
Definition split_budget (remaining : Z) (chunk_weight : Float.t) : outcome (Z * Z) :=
  (r <- Float.of_int remaining ;;
   chunk_budget <- Float.to_int (Float.mul r chunk_weight) ;;
   r' <- Float.of_int remaining ;;
   history_budget <- Float.to_int (Float.mul r' (Float.sub Float.one chunk_weight)) ;;
   Return (chunk_budget, history_budget))%py.

(** [build_optimal_context].  [stats["utilization"]] is the true division
    [total_tokens / self._available] of two integers, taken here as the
    quotient of their floats (the same value for integers below [2^53]); a
    zero divisor raises. *)
Definition build_optimal_context (m : manager)
    (system_prompt guidance : Py.str) (history : list message) (user_query : Py.str)
    (chunks : option (list VectorSearchResult)) (chunk_weight : Float.t)
    : outcome (list message * stats) :=
  let system_tokens := estimate_tokens system_prompt in
  let guidance_tokens := estimate_tokens guidance in
  let query_tokens := estimate_tokens user_query + 4 in
  let base_tokens := system_tokens + guidance_tokens + query_tokens in
  let remaining := Z.max 0 (available m - base_tokens) in
  (budgets <- split_budget remaining chunk_weight ;;
   let chunk_budget := fst budgets in
   let history_budget := snd budgets in
   optimized <-
     match chunks with
     | Some (c :: cs) =>
         (opt <- optimize_chunks (c :: cs) 500 ;;
          Return (drop_over_budget (length opt) chunk_budget opt))
     | _ => Return []
     end ;;
   let has_chunks := match chunks with Some (_ :: _) => true | _ => false end in
   let optimized_history := truncate_to_budget history history_budget in
   let history_tokens := estimate_messages_tokens optimized_history in
   user_content <-
     match optimized with
     | [] => Return user_query
     | _ => (chunks_text <- _format_chunks_context optimized ;;
             Return (chunks_text ++ newline ++ newline ++ user_query))
     end ;;
   let messages :=
     [ Message (Py.lit "system") system_prompt; Message (Py.lit "system") guidance ]
       ++ optimized_history ++ [ Message (Py.lit "user") user_content ] in
   let total_tokens := estimate_messages_tokens messages in
   utilization <-
     (if available m =? 0 then Raise ZeroDivisionError
      else Return (Float.div (Float.of_Z total_tokens) (Float.of_Z (available m)))) ;;
   Return (messages,
           {| total_budget := available m;
              base_tokens := base_tokens;
              remaining := remaining;
              chunk_budget := chunk_budget;
              history_budget := history_budget;
              chunks_tokens := if has_chunks then Some (chunks_cost optimized) else None;
              chunks_count := if has_chunks then Some (length optimized) else None;
              history_tokens := history_tokens;
              history_count := length optimized_history;
              total_tokens := total_tokens;
              utilization := utilization |}))%py.

End WithRuntime.

(** *** A sample: 5000 tokens available, fixed cost 1000, weight 0.4 *)

Definition sample_manager : manager :=
  {| max_tokens := 11000; reserved_output := 4000; reserved_system := 2000 |}.

Definition filler (n : nat) : Py.str := repeat 97%N n.

Definition sample_context : outcome (list message * stats) :=
  build_optimal_context sample_repr sample_manager (filler 1600) (filler 1600) []
    (filler 784) None (Float.ratio 2 5).

End Context.

(* ================================================================== *)
(** ** Queries of a fusion plan *)

Module FusionNotions.

(** A query as [expansions] keeps it: not blank, and with no whitespace at
    either end ([strip] leaves it as it is). *)
Definition clean (e : Py.str) : Prop := Py.blank e = false /\ Py.strip e = e.

End FusionNotions.

(* ================================================================== *)
(** ** Tool registry ([tool_registry.py]) *)

Module Registry.

Import Scenario.

Section WithWorld.

Context {World : Type}.
Variable json_loads : Py.str -> option json.

(** [ToolDefinition]; the handler is called with the parsed arguments, and
    acts on the state of the world. *)
Record ToolDefinition : Type := {
  name : Py.str;
  description : Py.str;
  parameters : json;
  handler : @Executor.handler World
}.

Definition to_openai (d : ToolDefinition) : json :=
  JObj [ (Py.lit "type", JStr (Py.lit "function"));
         (Py.lit "function",
          JObj [ (Py.lit "name", JStr (name d));
                 (Py.lit "description", JStr (description d));
                 (Py.lit "parameters", parameters d) ]) ].

(** [ToolRegistry.__init__]: [{definition.name: definition for definition in definitions}] *)
Definition ToolRegistry (definitions : list ToolDefinition) : Executor.sdict ToolDefinition :=
  Executor.dict_of (map (fun d => (name d, d)) definitions).

(** [describe]; [None] for [allowed] lists every definition. *)
Definition describe (_definitions : Executor.sdict ToolDefinition)
    (allowed : option (list Py.str)) : list json :=
  match allowed with
  | None => map (fun p => to_openai (snd p)) _definitions
  | Some names =>
      flat_map (fun n => match J.assoc n _definitions with
                         | Some d => [to_openai d]
                         | None => []
                         end) names
  end.

(** [_parse_arguments]: no text, or an empty one, stands for [{}]; text that
    is not JSON and JSON that is not an object are refused with a
    [ValueError] (["Invalid tool arguments: ..."],
    ["Tool arguments must be an object"]). *)
Definition _parse_arguments (raw : option Py.str) : outcome json :=
  match raw with
  | None | Some [] => Return (JObj [])
  | Some text =>
      match json_loads text with
      | None => Raise ValueError
      | Some parsed => if J.is_dict parsed then Return parsed else Raise BadToolArguments
      end
  end.

(** [execute]; a name that is [None] is in no registry. *)
Definition execute (_definitions : Executor.sdict ToolDefinition)
    (tool : option Py.str) (arguments_json : option Py.str) (w : World)
    : outcome Executor.ToolResult * World :=
  match tool with
  | None => (Raise UnknownTool, w)
  | Some n =>
      match J.assoc n _definitions with
      | None => (Raise UnknownTool, w)
      | Some d =>
          match _parse_arguments arguments_json with
          | Raise e => (Raise e, w)
          | Return arguments => handler d arguments w
          end
      end
  end.

(** The handlers of a registry by name, as the executor's model of it has
    them. *)
Definition handlers (_definitions : Executor.sdict ToolDefinition)
    : Executor.sdict (@Executor.handler World) :=
  map (fun p => (fst p, handler (snd p))) _definitions.

(** The name a tool specification carries ([spec["function"]["name"]]). *)
Definition spec_name (spec : json) : option Py.str :=
  match spec with
  | JObj fields =>
      match J.assoc (Py.lit "function") fields with
      | Some (JObj f) =>
          match J.assoc (Py.lit "name") f with
          | Some (JStr n) => Some n
          | _ => None
          end
      | _ => None
      end
  | _ => None
  end.

(** The last definition of a list that carries the name [n]. *)
Definition last_named (n : Py.str) (definitions : list ToolDefinition)
    : option ToolDefinition :=
  find (fun d => Py.str_eqb (name d) n) (rev definitions).

End WithWorld.

End Registry.

(* ================================================================== *)
(** ** Loading documents in full ([agent.py], [_tool_load_documents_full]) *)

Module Documents.

(** The fields of [ParsedDocument] the tool reads; a [content] that is
    [None] counts as empty. *)
Record ParsedDocument : Type := {
  document_id : Z;
  content : option Py.str;
  minio_url : option Py.str;
  filename : option Py.str;
  created_at : json
}.

(** An entry of [trimmed_docs]: the dictionary built from [source], with
    [text] under the key ["content"]. *)
Record trimmed : Type := {
  source : ParsedDocument;
  text : Py.str
}.

(** [doc.content or ""] *)
Definition text_of (doc : ParsedDocument) : Py.str :=
  match content doc with Some s => s | None => [] end.

(** The loop over [documents], [remaining] characters being left. *)
Fixpoint trim_documents (remaining : Z) (documents : list ParsedDocument) : list trimmed :=
  match documents with
  | [] => []
  | doc :: rest =>
      let content := Py.slice_to (Z.max 0 remaining) (text_of doc) in
      let remaining := Z.max 0 (remaining - Z.of_nat (length content)) in
      {| source := doc; text := content |}
        :: (if remaining <=? 0 then [] else trim_documents remaining rest)
  end.

(** [sum(len(d.content) for d in docs if d.content)] *)
Definition total_length (documents : list ParsedDocument) : Z :=
  fold_left (fun total d => total + Z.of_nat (length (text_of d))) documents 0.

(** The characters handed over in all. *)
Definition trimmed_length (docs : list trimmed) : Z :=
  fold_left (fun total t => total + Z.of_nat (length (text t))) docs 0.

Section Handler.

(** [ParsedDocumentRepository.get_many_by_ids(list(document_ids))] *)
Variable get_many_by_ids : json -> outcome (list ParsedDocument).
(** [self._max_context_chars] *)
Variable max_context_chars : Z.

(** [_load_documents] *)
Definition _load_documents (document_ids : json) : outcome (list ParsedDocument * Z) :=
  (docs <- get_many_by_ids document_ids ;; Return (docs, total_length docs))%py.

(** [int(max_chars) if isinstance(max_chars, int) else self._max_context_chars];
    a [bool] is an [int]. *)
Definition max_chars_of (raw : json) : Z :=
  match raw with
  | JInt z => z
  | JBool b => if b then 1 else 0
  | _ => max_context_chars
  end.

(** [_tool_load_documents_full], on the arguments of the invocation and the
    selection of the context: the trimmed documents and [total_length]. *)
Definition _tool_load_documents_full (arguments : json) (selected_document_ids : list Z)
    : outcome (list trimmed * Z) :=
  (document_ids <- J.get arguments (Py.lit "document_ids") JNull ;;
   let document_ids :=
     if J.truthy document_ids then document_ids else JArr (map JInt selected_document_ids) in
   if negb (J.truthy document_ids) then Raise ValueError
   else
     loaded <- _load_documents document_ids ;;
     max_chars <- J.get arguments (Py.lit "max_chars") JNull ;;
     Return (trim_documents (max_chars_of max_chars) (fst loaded), snd loaded))%py.

End Handler.

(** Sample documents. *)
Definition sample_document (id : Z) (n : nat) : ParsedDocument :=
  {| document_id := id; content := Some (repeat 97%N n); minio_url := None;
     filename := None; created_at := JNull |}.

End Documents.

(* ================================================================== *)
(** ** Finance news ([agent.py], [_prioritize_news_results] and its helpers) *)

Module News.

Section WithRuntime.

Variable lower : Py.str -> Py.str.            (* str.lower *)
Variable repr : json -> Py.str.                (* str(v), v not a string *)
(** [urlparse(url).hostname or ""], and [""] when [urlparse] raises
    [ValueError]. *)
Variable hostname_of : Py.str -> Py.str.

(** [_RUSSIAN_NEWS_DOMAINS] *)
Definition _RUSSIAN_NEWS_DOMAINS : list Py.str :=
  [ Py.lit "cbr.ru"; Py.lit "tass.ru"; Py.lit "ria.ru"; Py.lit "rbc.ru";
    Py.lit "vedomosti.ru"; Py.lit "kommersant.ru"; Py.lit "interfax.ru";
    Py.lit "banki.ru"; Py.lit "finmarket.ru"; Py.lit "iz.ru"; Py.lit "1prime.ru";
    Py.lit "forbes.ru"; Py.lit "rg.ru"; Py.lit "vestifinance.ru" ].

(** [s.endswith(suffix)] *)
Definition ends_with (suffix s : Py.str) : bool := Py.starts_with (rev suffix) (rev s).

(** [(item.get("url") or "").strip()] *)
Definition url_of (item : json) : outcome Py.str :=
  (raw <- J.get item (Py.lit "url") JNull ;;
   match J.or_else raw (JStr []) with
   | JStr s => Return (Py.strip s)
   | _ => Raise AttributeError
   end)%py.

(** A small Cyrillic letter: ["а" <= ch <= "я" or ch == "ё"]. *)
Definition is_cyrillic (ch : N) : bool :=
  ((1072 <=? ch) && (ch <=? 1103) || (ch =? 1105))%N.

Definition _is_russian_source (item : json) : outcome bool :=
  (url <- url_of item ;;
   let hostname := if Py.truthy_str url then hostname_of url else [] in
   let hostname := lower hostname in
   if existsb (fun domain => ends_with domain hostname) _RUSSIAN_NEWS_DOMAINS
   then Return true
   else
     title <- J.get item (Py.lit "title") (JStr []) ;;
     content <- J.get item (Py.lit "content") (JStr []) ;;
     let snippet := lower (J.str repr title ++ Py.lit " " ++ J.str repr content) in
     Return (existsb is_cyrillic snippet))%py.

(** The first loop of [_prioritize_news_results]: the items with a URL not
    seen before, [seen] being the URLs met so far. *)
Fixpoint dedupe (results : list json) (seen : list Py.str) : outcome (list json) :=
  match results with
  | [] => Return []
  | item :: rest =>
      (url <- url_of item ;;
       if negb (Py.truthy_str url) || Py.mem url seen then dedupe rest seen
       else (kept <- dedupe rest (seen ++ [url]) ;; Return (item :: kept)))%py
  end.

(** The second loop: the Russian sources and the others, each in order. *)
Fixpoint split_sources (items : list json) : outcome (list json * list json) :=
  match items with
  | [] => Return ([], [])
  | item :: rest =>
      (russian <- _is_russian_source item ;;
       parts <- split_sources rest ;;
       Return (if russian then (item :: fst parts, snd parts)
               else (fst parts, item :: snd parts)))%py
  end.

Definition _prioritize_news_results (results : list json) : outcome (list json) :=
  match results with
  | [] => Return []
  | _ =>
      (deduped <- dedupe results [] ;;
       parts <- split_sources deduped ;;
       Return (fst parts ++ snd parts))%py
  end.

(** [_bias_news_query] *)
Definition _bias_news_query (query : Py.str) : Py.str :=
  let base := Py.strip query in
  if negb (Py.truthy_str base) then Py.lit "финансовые новости России"
  else
    let normalized := lower base in
    if Py.contains (Py.lit "россия") normalized || Py.contains (Py.lit "рф") normalized
    then base
    else base ++ Py.lit " Россия".

End WithRuntime.

(** A news item with the given URL and title. *)
Definition sample_item (url title : string) : json :=
  JObj [ (Py.lit "url", JStr (Py.lit url)); (Py.lit "title", JStr (Py.lit title)) ].

(** The host of the sample URLs, which have the form [https://host/path]. *)
Definition sample_host (url : Py.str) : Py.str :=
  let after := skipn 8 url in
  (fix upto (s : Py.str) : Py.str :=
     match s with
     | [] => []
     | c :: r => if (c =? 47)%N then [] else c :: upto r
     end) after.

End News.

(* ================================================================== *)
(** ** The agent's run ([agent.py], [RagAgent.run] and what it decides by) *)

Module Routing.

Import Scenario.

(** The names under which [_build_tool_registry] registers its tools. *)
Definition registered_tools : list Py.str :=
  [ Py.lit "search_user_documents"; Py.lit "load_documents_full";
    Py.lit "search_general_kb"; Py.lit "fetch_cbr_data"; Py.lit "fetch_finance_news" ].

(** [value == "text"] for a value read from JSON *)
Definition is_text (value : json) (text : Py.str) : bool :=
  match value with
  | JStr s => Py.str_eqb s text
  | _ => false
  end.

Definition _tools_for_scenario (scenario : Z) (intent : json) : list Py.str :=
  if scenario =? 1 then [Py.lit "search_user_documents"]
  else if scenario =? 2 then
    if is_text intent (Py.lit "small_talk") || is_text intent (Py.lit "off_topic") then []
    else if is_text intent (Py.lit "cbr_rate") then [Py.lit "fetch_cbr_data"]
    else if is_text intent (Py.lit "finance_news") then [Py.lit "fetch_finance_news"]
    else if is_text intent (Py.lit "knowledge_base") then [Py.lit "search_general_kb"]
    else if is_text intent (Py.lit "hybrid_kb_docs")
         then [Py.lit "search_general_kb"; Py.lit "search_user_documents"]
    else [Py.lit "search_general_kb"]
  else if scenario =? 3 then [Py.lit "load_documents_full"]
  else if scenario =? 4 then [Py.lit "search_user_documents"]
  else [].

(** [value in {"small_talk", "off_topic"}]: the value is hashed first, and a
    list or a dictionary cannot be. *)
Definition in_predefined (value : json) : outcome bool :=
  match value with
  | JArr _ | JObj _ => Raise TypeError
  | _ => Return (is_text value (Py.lit "small_talk") || is_text value (Py.lit "off_topic"))
  end.

(** [AgentResult], without its [debug] dictionary. *)
Record AgentResult : Type := {
  answer : Py.str;
  used_chunks : list Rrf.VectorSearchResult;
  result_scenario : Z       (* the field [scenario] *)
}.

(** How [_run_tool_conversation] ends: with an answer and the chunks used,
    with [VectorSearchError], or with another exception. *)
Inductive conversation : Type :=
| Finished (answer : Py.str) (chunks : list Rrf.VectorSearchResult)
| SearchUnavailable
| Failed (e : exn).

Section Run.

(** The operations [run] calls on the database and on the completion model. *)
Variable _load_chat_history : Z -> outcome (list message).
Variable _choose_scenario :
  Py.str -> list message -> option (list Z) -> outcome ScenarioDecision.
Variable _ask_clarification : Py.str -> list message -> list Py.str -> outcome Py.str.
(** [total_len] of [_load_documents] *)
Variable _load_documents : list Z -> outcome Z.
Variable _max_context_chars : Z.
Variable _get_predefined_response : json -> Py.str -> Py.str.
Variable _answer_format_instructions : Py.str.
Variable _vector_search_unavailable_message : Py.str.
(** [_run_tool_conversation] on the scenario, the query, the history, the
    instructions, the allowed tools, the selection, the intent and the
    expansion flag. *)
Variable _run_tool_conversation :
  Z -> Py.str -> list message -> Py.str -> list Py.str -> option (list Z) -> json -> json
  -> conversation.

Definition _resolve_instructions (custom_value : option Py.str) : Py.str :=
  match custom_value with
  | Some (c :: s) =>
      let stripped := Py.strip (c :: s) in
      if Py.truthy_str stripped then stripped else _answer_format_instructions
  | _ => _answer_format_instructions
  end.

Definition _adjust_scenario_for_documents (selected_ids : option (list Z)) (scenario : Z)
    : outcome Z :=
  if ((scenario =? 3) || (scenario =? 4)) && has_selection selected_ids
  then (total_len <- _load_documents (ids_or_empty selected_ids) ;;
        Return (if total_len >? _max_context_chars then 4 else 3))%py
  else Return scenario.

(** [await self._load_chat_history(db, chat_id) if chat_id else []] *)
Definition history_of (chat_id : option Z) : outcome (list message) :=
  match chat_id with
  | Some c => if c =? 0 then Return [] else _load_chat_history c
  | None => Return []
  end.

Definition run (query : Py.str) (chat_id : option Z)
    (selected_document_ids : option (list Z)) (answer_instructions : option Py.str)
    : outcome AgentResult :=
  (history <- history_of chat_id ;;
   decision <- _choose_scenario query history selected_document_ids ;;
   if follow_up decision
   then
     answer <- _ask_clarification query history (clarifications decision) ;;
     Return {| answer := answer; used_chunks := []; result_scenario := 5 |}
   else
     let instructions := _resolve_instructions answer_instructions in
     scenario <- _adjust_scenario_for_documents selected_document_ids (scenario decision) ;;
     let allowed_tools := _tools_for_scenario scenario (intent decision) in
     predefined <- in_predefined (intent decision) ;;
     if predefined
     then Return {| answer := _get_predefined_response (intent decision) query;
                    used_chunks := []; result_scenario := scenario |}
     else if (scenario =? 5)
             || (match allowed_tools with [] => true | _ => false end
                 && negb (is_text (intent decision) (Py.lit "small_talk"))
                 && negb (is_text (intent decision) (Py.lit "off_topic")))
     then
       answer <- _ask_clarification query history (clarifications decision) ;;
       Return {| answer := answer; used_chunks := []; result_scenario := scenario |}
     else
       match _run_tool_conversation scenario query history instructions allowed_tools
               selected_document_ids (intent decision) (use_query_expansion decision) with
       | Finished answer chunks =>
           Return {| answer := answer; used_chunks := chunks; result_scenario := scenario |}
       | SearchUnavailable =>
           Return {| answer := _vector_search_unavailable_message; used_chunks := [];
                     result_scenario := scenario |}
       | Failed e => Raise e
       end)%py.

End Run.

(** Sample operations: a decision by the model, one clarification text, one
    conversation. *)
Definition sample_decision (scenario : Z) (intent : json) : ScenarioDecision :=
  {| scenario := scenario; confidence := Float.ratio 9 10; reason := [];
     follow_up := false; clarifications := []; use_query_expansion := JNull;
     rule_guess := 2; raw_response := JNull; intent := intent |}.

Definition sample_run (scenario : Z) (intent : json)
    (conversation_of : Z -> list Py.str -> conversation) : outcome AgentResult :=
  run (fun _ => Return [])
      (fun _ _ _ => Return (sample_decision scenario intent))
      (fun _ _ _ => Return (Py.lit "?"))
      (fun _ => Return 0) 100
      (fun _ _ => Py.lit "hello") (Py.lit "format") (Py.lit "unavailable")
      (fun s _ _ _ tools _ _ _ => conversation_of s tools)
      (Py.lit "query") None None None.

End Routing.

(* ================================================================== *)
(** * Properties *)

Module PyFacts.
Import Py.

Lemma str_eqb_eq (a b : str) : str_eqb a b = true <-> a = b.
Proof.
  unfold str_eqb. destruct (list_eq_dec N.eq_dec a b); split; congruence.
Qed.

Lemma str_eqb_refl (a : str) : str_eqb a a = true.
Proof. now apply str_eqb_eq. Qed.

Lemma str_eqb_neq (a b : str) : str_eqb a b = false <-> a <> b.
Proof.
  unfold str_eqb. destruct (list_eq_dec N.eq_dec a b); split; congruence.
Qed.

Lemma lstrip_nil_iff (s : str) : lstrip s = [] <-> blank s = true.
Proof.
  induction s as [|c r IH]; simpl; [tauto|].
  destruct (isspace c); simpl; [exact IH|]. split; discriminate.
Qed.

Lemma blank_rev (s : str) : blank (rev s) = blank s.
Proof.
  unfold blank. induction s as [|c r IH]; simpl; auto.
  rewrite forallb_app, IH. simpl. rewrite andb_true_r. apply andb_comm.
Qed.

Lemma lstrip_suffix (s : str) : exists p, s = p ++ lstrip s /\ blank p = true.
Proof.
  induction s as [|c r [p [E B]]]; simpl.
  - exists []. auto.
  - destruct (isspace c) eqn:Hc.
    + exists (c :: p). simpl. rewrite Hc, B. split; [congruence|reflexivity].
    + exists []. auto.
Qed.

Lemma blank_lstrip (s : str) : blank (lstrip s) = blank s.
Proof.
  destruct (lstrip_suffix s) as [p [E B]].
  rewrite E at 2. unfold blank in *. rewrite forallb_app, B. reflexivity.
Qed.

Lemma blank_strip (s : str) : blank (strip s) = blank s.
Proof.
  unfold strip, rstrip. now rewrite blank_rev, blank_lstrip, blank_rev, blank_lstrip.
Qed.

(** [not s.strip()] holds exactly for the whitespace-only strings. *)
Lemma strip_nil_iff (s : str) : strip s = [] <-> blank s = true.
Proof.
  rewrite <- (blank_strip s). unfold strip, rstrip.
  set (t := lstrip s). split.
  - intros H. rewrite H. reflexivity.
  - rewrite blank_rev, blank_lstrip, blank_rev. intros H.
    assert (E : lstrip (rev t) = []) by (apply lstrip_nil_iff; now rewrite blank_rev).
    now rewrite E.
Qed.

Lemma truthy_strip (s : str) : truthy_str (strip s) = negb (blank s).
Proof.
  destruct (blank s) eqn:B.
  - apply strip_nil_iff in B. now rewrite B.
  - destruct (strip s) eqn:E; [|reflexivity].
    apply strip_nil_iff in E. congruence.
Qed.

(** Declarative reading of [contains]. *)
Lemma starts_with_spec (p s : str) :
  starts_with p s = true <-> exists post, s = p ++ post.
Proof.
  revert s. induction p as [|a p IH]; intros s; simpl.
  - split; eauto.
  - destruct s as [|b s].
    + split; [discriminate|]. intros [post H]. discriminate.
    + rewrite andb_true_iff, N.eqb_eq, IH. split.
      * intros [-> [post ->]]. eauto.
      * intros [post H]. injection H as -> ->. eauto.
Qed.

Lemma contains_spec (needle hay : str) :
  contains needle hay = true <-> exists pre post, hay = pre ++ needle ++ post.
Proof.
  induction hay as [|c hay IH].
  - simpl. rewrite orb_false_r, starts_with_spec. split.
    + intros [post H]. exists [], post. exact H.
    + intros [pre [post H]]. destruct pre; simpl in H.
      * eauto.
      * discriminate.
  - simpl. rewrite orb_true_iff, starts_with_spec, IH. split.
    + intros [[post H] | [pre [post H]]].
      * exists [], post. exact H.
      * exists (c :: pre), post. simpl. now rewrite H.
    + intros [pre [post H]]. destruct pre as [|c' pre]; simpl in H.
      * left. eauto.
      * right. injection H as _ H. eauto.
Qed.

End PyFacts.

(* ================================================================== *)
(** ** Scenario decision engine *)

Module ScenarioFacts.
Import Py PyFacts Scenario.

Lemma isspace_true_iff (c : N) :
  isspace c = true <->
  ((9 <= c <= 13) \/ (28 <= c <= 32) \/ c = 133 \/ c = 160 \/ c = 5760
   \/ (8192 <= c <= 8202) \/ c = 8232 \/ c = 8233 \/ c = 8239 \/ c = 8287
   \/ c = 12288)%N.
Proof.
  unfold isspace.
  repeat rewrite orb_true_iff. repeat rewrite andb_true_iff.
  repeat rewrite N.leb_le. repeat rewrite N.eqb_eq. tauto.
Qed.

Lemma isspace_lower_cp (c : N) : isspace (lower_cp c) = isspace c.
Proof.
  apply eq_true_iff_eq. rewrite !isspace_true_iff. unfold lower_cp.
  destruct ((65 <=? c) && (c <=? 90))%N eqn:E1;
    [apply andb_true_iff in E1; rewrite !N.leb_le in E1; lia|].
  destruct ((1040 <=? c) && (c <=? 1071))%N eqn:E2;
    [apply andb_true_iff in E2; rewrite !N.leb_le in E2; lia|].
  destruct ((1024 <=? c) && (c <=? 1039))%N eqn:E3;
    [apply andb_true_iff in E3; rewrite !N.leb_le in E3; lia|].
  tauto.
Qed.

Lemma lower_ru_blank (s : str) : blank (lower_ru s) = blank s.
Proof.
  unfold blank, lower_ru. induction s as [|c r IH]; simpl; [reflexivity|].
  now rewrite isspace_lower_cp, IH.
Qed.

Lemma blank_whitespace_only (q : str) : blank q = true <-> whitespace_only q.
Proof.
  unfold blank, whitespace_only. rewrite forallb_forall, Forall_forall. tauto.
Qed.

Section RuleGuess.

Variable lower : str -> str.

Lemma has_keyword_iff (q : str) :
  existsb (fun k => contains k (lower q)) search_keywords = true <-> search_intent lower q.
Proof.
  unfold search_intent, Substring. rewrite existsb_exists. split.
  - intros [k [Hin Hc]]. exists k. split; [exact Hin|]. now apply contains_spec.
  - intros [k [Hin Hs]]. exists k. split; [exact Hin|]. now apply contains_spec.
Qed.

Lemma has_selection_true (selected_ids : option (list Z)) :
  has_selection selected_ids = true <-> exists i l, selected_ids = Some (i :: l).
Proof.
  destruct selected_ids as [[|i l]|]; simpl; split; try discriminate; eauto;
    intros [i' [l' H]]; discriminate.
Qed.

Lemma has_selection_false (selected_ids : option (list Z)) :
  has_selection selected_ids = false <-> no_selection selected_ids.
Proof.
  unfold no_selection.
  destruct selected_ids as [[|i l]|]; simpl; split; auto; try discriminate;
    intros [H|H]; discriminate.
Qed.

(** The guess is one of 1, 2, 3, 5. *)
Lemma rule_guess_range query history selected_ids :
  In (_rule_guess_scenario lower query history selected_ids) [1; 2; 3; 5].
Proof.
  unfold _rule_guess_scenario.
  destruct (has_selection selected_ids); [simpl; tauto|].
  destruct (existsb _ _); [simpl; tauto|].
  destruct (negb _); simpl; tauto.
Qed.

Hypothesis lower_blank : forall s, blank (lower s) = blank s.

(** C9.  The rule-based guess, case by case: a non-empty selection gives 3
    whatever the query; with no selection, a lower-cased query containing one
    of the search keywords gives 1; failing that, an empty or whitespace-only
    query gives 5; anything else gives 2. *)
Theorem rule_guess_scenario_cases
    (query : option str) (history : list message) (selected_ids : option (list Z)) :
  let guess := _rule_guess_scenario lower query history selected_ids in
  let q := or_empty query in
  ((exists i l, selected_ids = Some (i :: l)) -> guess = 3) /\
  (no_selection selected_ids -> search_intent lower q -> guess = 1) /\
  (no_selection selected_ids -> ~ search_intent lower q -> whitespace_only q ->
     guess = 5) /\
  (no_selection selected_ids -> ~ search_intent lower q -> ~ whitespace_only q ->
     guess = 2).
Proof.
  cbv zeta. unfold _rule_guess_scenario.
  rewrite truthy_strip, negb_involutive, lower_blank.
  repeat split.
  - intros H. apply has_selection_true in H. now rewrite H.
  - intros Hs Hk. apply has_selection_false in Hs. apply has_keyword_iff in Hk.
    now rewrite Hs, Hk.
  - intros Hs Hk Hw. apply has_selection_false in Hs. rewrite Hs.
    destruct (existsb _ _) eqn:E; [apply has_keyword_iff in E; contradiction|].
    apply blank_whitespace_only in Hw. now rewrite Hw.
  - intros Hs Hk Hw. apply has_selection_false in Hs. rewrite Hs.
    destruct (existsb _ _) eqn:E; [apply has_keyword_iff in E; contradiction|].
    destruct (blank (or_empty query)) eqn:B; [|reflexivity].
    apply blank_whitespace_only in B. contradiction.
Qed.

End RuleGuess.

(** The four cases at sample inputs: a selection; the query "Найди документ
    про штрафы"; a query of two spaces; the query "привет". *)
Lemma rule_guess_scenario_cases_witness :
  _rule_guess_scenario lower_ru (Some (lit "найди")) [] (Some [7]) = 3 /\
  _rule_guess_scenario lower_ru (Some (lit "Найди документ про штрафы")) [] None = 1 /\
  _rule_guess_scenario lower_ru (Some (lit "  ")) [] (Some []) = 5 /\
  _rule_guess_scenario lower_ru (Some (lit "привет")) [] None = 2.
Proof.
  split; [|split; [|split]].
  - apply (rule_guess_scenario_cases lower_ru lower_ru_blank (Some (lit "найди")) [] (Some [7])).
    exists 7, []. reflexivity.
  - apply (rule_guess_scenario_cases lower_ru lower_ru_blank
             (Some (lit "Найди документ про штрафы")) [] None).
    + left. reflexivity.
    + apply has_keyword_iff. vm_compute. reflexivity.
  - apply (rule_guess_scenario_cases lower_ru lower_ru_blank (Some (lit "  ")) [] (Some [])).
    + right. reflexivity.
    + intros H. apply has_keyword_iff in H. vm_compute in H. discriminate.
    + apply blank_whitespace_only. vm_compute. reflexivity.
  - apply (rule_guess_scenario_cases lower_ru lower_ru_blank (Some (lit "привет")) [] None).
    + left. reflexivity.
    + intros H. apply has_keyword_iff in H. vm_compute in H. discriminate.
    + intros H. apply blank_whitespace_only in H. vm_compute in H. discriminate.
Defined.

Section Decide.

Variable lower : str -> str.
Variable repr : json -> str.
Variable int_of_str : str -> option Z.
Variable float_of_str : str -> option Float.t.
Variable json_loads : str -> option json.
Variable json_dumps : json -> str.
Variables system_prompt orchestrator_prompt : str.
Variable cfg : settings.
Variable chat : list message -> outcome json.

Local Abbreviation parse := (parse_decision lower repr int_of_str float_of_str json_loads cfg).
Local Abbreviation choose :=
  (_choose_scenario lower repr int_of_str float_of_str json_loads json_dumps
     system_prompt orchestrator_prompt cfg chat).
Local Abbreviation messages_for :=
  (orchestrator_messages lower json_dumps system_prompt orchestrator_prompt cfg).

Lemma bind_return {A B} (m : outcome A) (f : A -> outcome B) (b : B) :
  bind m f = Return b -> exists a, m = Return a /\ f a = Return b.
Proof. destruct m; simpl; [eauto|discriminate]. Qed.

(** A decision built from a parsed reply carries the reply's confidence, and
    its scenario is the model's integer when the confidence reaches the
    threshold and the rule guess otherwise. *)
Lemma decision_of_parsed_fields rg parsed d llm conf :
  decision_of_parsed lower repr int_of_str float_of_str cfg rg parsed = Return d ->
  llm_scenario_of int_of_str parsed = Return llm ->
  confidence_of float_of_str parsed = Return conf ->
  confidence d = conf /\
  scenario d = (if Float.leb (orchestrator_confidence_threshold cfg) conf then llm else rg) /\
  rule_guess d = rg.
Proof.
  unfold decision_of_parsed. intros H Hl Hc. rewrite Hl, Hc in H. simpl in H.
  repeat (apply bind_return in H; destruct H as [? [_ H]]).
  injection H as <-. simpl. auto.
Qed.

(** C1, as the code has it.  Once the completion call has returned a reply,
    the decision is returned without raising, and its rule guess is one of
    1, 2, 3, 5.  A reply without [choices[0].message.content], a content that
    is not valid JSON, and any other failure while the reply is read give
    the rule fallback: scenario = rule guess, confidence 0, no follow-up, no
    clarifications.  A reply that is read without failure gives the model's
    integer (no range check) when its confidence reaches the threshold and
    the rule guess otherwise, with the model's confidence. *)
Theorem choose_scenario_after_reply
    (query : option str) (history : list message) (selected_ids : option (list Z))
    (current_datetime : str) (resp : json) :
  chat (messages_for query history selected_ids current_datetime) = Return resp ->
  let rg := _rule_guess_scenario lower query history selected_ids in
  exists d,
    choose query history selected_ids current_datetime = Return d /\
    rule_guess d = rg /\ In rg [1; 2; 3; 5] /\
    (forall e, message_content resp = Raise e -> d = fallback_decision rg) /\
    (forall s, message_content resp = Return (JStr s) -> json_loads s = None ->
       d = fallback_decision rg) /\
    (forall e, parse rg resp = Raise e ->
       d = fallback_decision rg /\ scenario d = rg /\ confidence d = Float.zero /\
       follow_up d = false /\ clarifications d = []) /\
    (forall d', parse rg resp = Return d' ->
       d = d' /\
       exists parsed llm conf,
         response_content json_loads resp = Return parsed /\
         llm_scenario_of int_of_str parsed = Return llm /\
         confidence_of float_of_str parsed = Return conf /\
         confidence d = conf /\
         scenario d =
           (if Float.leb (orchestrator_confidence_threshold cfg) conf then llm else rg)).
Proof.
  intros Hchat rg. unfold _choose_scenario. fold rg. rewrite Hchat. simpl.
  eexists. split; [reflexivity|].
  assert (Hfail : forall e, parse rg resp = Raise e ->
            match parse rg resp with Return d => d | Raise _ => fallback_decision rg end
            = fallback_decision rg).
  { intros e He. now rewrite He. }
  split; [|split; [apply rule_guess_range|]].
  - destruct (parse rg resp) as [d|e] eqn:E; [|reflexivity].
    unfold parse_decision in E. apply bind_return in E. destruct E as [parsed [_ E]].
    unfold decision_of_parsed in E.
    repeat (apply bind_return in E; destruct E as [? [_ E]]).
    injection E as <-. reflexivity.
  - split; [|split; [|split]].
    + intros e He. apply (Hfail e). unfold parse_decision, response_content.
      now rewrite He.
    + intros s Hs Hl. apply (Hfail JSONDecodeError).
      unfold parse_decision, response_content. rewrite Hs. simpl. now rewrite Hl.
    + intros e He. rewrite (Hfail e He). auto.
    + intros d' Hd. rewrite Hd. split; [reflexivity|].
      unfold parse_decision in Hd. apply bind_return in Hd.
      destruct Hd as [parsed [Hp Hd]]. exists parsed.
      assert (Hd' := Hd). unfold decision_of_parsed in Hd'.
      apply bind_return in Hd'. destruct Hd' as [llm [Hl Hd']].
      apply bind_return in Hd'. destruct Hd' as [conf [Hc _]].
      exists llm, conf. repeat split; auto;
        now destruct (decision_of_parsed_fields _ _ _ _ _ Hd Hl Hc) as [? [? ?]].
Qed.

End Decide.

(** The theorem at a sample reply: the model answers
    [{"scenario": 7, "confidence": 0.9}] to the query "привет". *)
Lemma choose_scenario_after_reply_witness :
  exists d,
    sample_choose (fun _ => Return (reply_with reply7_text)) (lit "привет") None = Return d /\
    rule_guess d = 2 /\ confidence d = Float.ratio 9 10.
Proof.
  destruct (@choose_scenario_after_reply lower_ru sample_repr no_int no_float sample_loads
              sample_dumps (lit "system") (lit "orchestrator") sample_settings
              (fun _ => Return (reply_with reply7_text))
              (Some (lit "привет")) [] None (lit "2025-01-01T00:00:00+00:00")
              (reply_with reply7_text) eq_refl)
    as [d [Hd [Hrg [_ [_ [_ [_ Hok]]]]]]].
  exists d. split; [exact Hd|]. split; [rewrite Hrg; vm_compute; reflexivity|].
  destruct (Hok _ ltac:(vm_compute; reflexivity)) as [-> _].
  vm_compute. reflexivity.
Defined.

(** C1 as stated fails on the code, at three sample inputs (threshold 0.6,
    query "привет", no selection): a confident reply with scenario 7 is
    returned as scenario 7; a failed completion call propagates its
    exception; and the reply [{}], all of whose fields are missing, is not
    turned into the fallback (its confidence is the default 0.5). *)
Lemma choose_scenario_counterexample :
  (exists d,
     sample_choose (fun _ => Return (reply_with reply7_text)) (lit "привет") None = Return d /\
     scenario d = 7 /\ ~ In (scenario d) [1; 2; 3; 4; 5]) /\
  sample_choose (fun _ => Raise (TransportError 503)) (lit "привет") None
    = Raise (TransportError 503) /\
  (exists d,
     sample_choose (fun _ => Return (reply_with (lit "{}"))) (lit "привет") None = Return d /\
     scenario d = 2 /\ confidence d = Float.ratio 1 2 /\ confidence d <> Float.zero).
Proof.
  split; [|split].
  - eexists. split; [vm_compute; reflexivity|]. split; [reflexivity|].
    simpl. intros H. repeat (destruct H as [H|H]; [discriminate|]). exact H.
  - vm_compute. reflexivity.
  - eexists. split; [vm_compute; reflexivity|]. split; [reflexivity|].
    split; [reflexivity|]. vm_compute. discriminate.
Qed.

End ScenarioFacts.

(* ================================================================== *)
(** ** binary64 arithmetic *)

Module FloatFacts.
Import Float.

Local Abbreviation fexp := (SpecFloat.fexp prec emax).

Lemma fexp_eq (e : Z) : fexp e = Z.max (e - 53) (-1074).
Proof. reflexivity. Qed.

Lemma fexp_mono (a b : Z) : a <= b -> fexp a <= fexp b.
Proof. rewrite !fexp_eq. lia. Qed.

Lemma fexp_succ (a : Z) : fexp (a + 1) <= fexp a + 1.
Proof. rewrite !fexp_eq. lia. Qed.

(** *** Number of binary digits *)

Lemma digits2_log2 (p : positive) : Z.pos (digits2_pos p) = Z.log2 (Z.pos p) + 1.
Proof.
  assert (H : forall q, digits2_pos q = Pos.size q).
  { induction q; simpl; congruence. }
  rewrite H. destruct p; simpl; lia.
Qed.

Lemma Zdigits2_log2 (z : Z) : 0 < z -> Zdigits2 z = Z.log2 z + 1.
Proof. destruct z; try lia. intros _. apply digits2_log2. Qed.

Lemma Zdigits2_pos (z : Z) : 0 < z -> 0 < Zdigits2 z.
Proof. intros H. rewrite Zdigits2_log2 by exact H. pose proof (Z.log2_nonneg z). lia. Qed.

Lemma Zdigits2_bounds (z : Z) : 0 < z -> 2 ^ (Zdigits2 z - 1) <= z < 2 ^ Zdigits2 z.
Proof.
  intros H. rewrite Zdigits2_log2 by exact H.
  replace (Z.log2 z + 1 - 1) with (Z.log2 z) by lia.
  replace (Z.log2 z + 1) with (Z.succ (Z.log2 z)) by lia.
  now apply Z.log2_spec.
Qed.

Lemma Zdigits2_mono (a b : Z) : 0 < a -> a <= b -> Zdigits2 a <= Zdigits2 b.
Proof.
  intros Ha Hab. rewrite !Zdigits2_log2 by lia.
  pose proof (Z.log2_le_mono a b Hab). lia.
Qed.

Lemma Zdigits2_succ (a : Z) : 0 < a -> Zdigits2 (a + 1) <= Zdigits2 a + 1.
Proof.
  intros Ha. rewrite !Zdigits2_log2 by lia.
  pose proof (Z.log2_succ_le a). unfold Z.succ in *. lia.
Qed.

Lemma Zdigits2_shiftr (a n : Z) :
  0 < a -> 0 <= n -> n < Zdigits2 a ->
  0 < Z.shiftr a n /\ Zdigits2 (Z.shiftr a n) = Zdigits2 a - n.
Proof.
  intros Ha Hn Hlt. rewrite Zdigits2_log2 in Hlt by exact Ha.
  assert (Hpos : 0 < Z.shiftr a n).
  { rewrite Z.shiftr_div_pow2 by exact Hn.
    apply Z.div_str_pos. split; [apply Z.pow_pos_nonneg; lia|].
    apply Z.le_trans with (2 ^ Z.log2 a).
    - apply Z.pow_le_mono_r; lia.
    - now apply Z.log2_spec. }
  split; [exact Hpos|].
  rewrite !Zdigits2_log2 by assumption.
  rewrite Z.log2_shiftr by exact Ha. lia.
Qed.

Lemma shiftr_small (a n : Z) : 0 < a -> Zdigits2 a <= n -> Z.shiftr a n = 0.
Proof.
  intros Ha Hn. rewrite Zdigits2_log2 in Hn by exact Ha.
  apply Z.shiftr_eq_0; lia.
Qed.

(** *** Shifting a mantissa to the right *)

Lemma shr_1_m (r : shr_record) : 0 <= shr_m r -> shr_m (shr_1 r) = Z.shiftr (shr_m r) 1.
Proof.
  destruct r as [m rb sb]. cbn [shr_m]. intros Hm.
  rewrite Z.shiftr_div_pow2 by lia. change (2 ^ 1) with 2.
  destruct m as [|[p|p|]|p]; try lia; cbn [shr_1 shr_m].
  - reflexivity.
  - rewrite Pos2Z.inj_xI. apply Z.div_unique with 1; lia.
  - rewrite Pos2Z.inj_xO. apply Z.div_unique with 0; lia.
  - reflexivity.
Qed.

Lemma shr_1_nonneg (r : shr_record) : 0 <= shr_m r -> 0 <= shr_m (shr_1 r).
Proof.
  intros H. rewrite shr_1_m by exact H. now apply Z.shiftr_nonneg.
Qed.

Lemma iter_shr_m (n : positive) : forall r,
  0 <= shr_m r ->
  shr_m (iter_pos shr_1 n r) = Z.shiftr (shr_m r) (Z.pos n).
Proof.
  induction n as [n IH|n IH|]; intros r Hr; cbn [iter_pos].
  - pose proof (shr_1_nonneg r Hr) as H1.
    assert (H2 : 0 <= shr_m (iter_pos shr_1 n (shr_1 r))).
    { rewrite IH by exact H1. now apply Z.shiftr_nonneg. }
    rewrite IH by exact H2. rewrite IH by exact H1. rewrite shr_1_m by exact Hr.
    rewrite !Z.shiftr_shiftr by lia. f_equal. lia.
  - assert (H2 : 0 <= shr_m (iter_pos shr_1 n r)).
    { rewrite IH by exact Hr. now apply Z.shiftr_nonneg. }
    rewrite IH by exact H2. rewrite IH by exact Hr.
    rewrite !Z.shiftr_shiftr by lia. f_equal. lia.
  - now apply shr_1_m.
Qed.

Lemma shr_record_of_loc_m (m : Z) (l : location) : shr_m (shr_record_of_loc m l) = m.
Proof. now destruct l as [|[]]. Qed.

Lemma loc_of_exact (m : Z) : loc_of_shr_record (shr_record_of_loc m loc_Exact) = loc_Exact.
Proof. reflexivity. Qed.

(** The mantissa and the exponent after [shr]. *)
Lemma shr_spec (r : shr_record) (e n : Z) :
  0 <= shr_m r ->
  shr_m (fst (shr r e n)) = Z.shiftr (shr_m r) (Z.max 0 n) /\
  snd (shr r e n) = e + Z.max 0 n.
Proof.
  intros Hr. destruct n as [|n|n]; cbn [shr fst snd].
  - rewrite Z.shiftr_0_r. split; [reflexivity|lia].
  - rewrite iter_shr_m by exact Hr. split; [f_equal; lia|lia].
  - rewrite Z.shiftr_0_r. split; [reflexivity|lia].
Qed.

Lemma round_nearest_even_cases (m : Z) (l : location) :
  round_nearest_even m l = m \/ round_nearest_even m l = m + 1.
Proof.
  destruct l as [|[]]; cbn [round_nearest_even]; auto.
  destruct (Z.even m); auto.
Qed.

(** *** Rounding *)

Lemma shr_fexp_spec (m e : Z) (l : location) :
  0 <= m ->
  shr_m (fst (shr_fexp prec emax m e l))
  = Z.shiftr m (Z.max 0 (fexp (Zdigits2 m + e) - e)) /\
  snd (shr_fexp prec emax m e l) = e + Z.max 0 (fexp (Zdigits2 m + e) - e).
Proof.
  intros Hm. unfold shr_fexp.
  destruct (shr_spec (shr_record_of_loc m l) e (fexp (Zdigits2 m + e) - e)) as [H1 H2].
  - now rewrite shr_record_of_loc_m.
  - rewrite shr_record_of_loc_m in H1. now split.
Qed.

(** What [binary_round_aux] returns for a positive mantissa that is not too
    short for its exponent: zero only below the smallest subnormal, otherwise
    a canonical number whose exponent is the expected one or the next, or an
    infinity beyond the largest exponent. *)
Lemma binary_round_aux_spec (sx : bool) (p : positive) (ex : Z) (lx : location) :
  ex <= fexp (Z.pos (digits2_pos p) + ex) ->
  (binary_round_aux prec emax sx (Z.pos p) ex lx = S754_zero sx /\
   Z.pos (digits2_pos p) + ex <= -1074) \/
  (exists m e,
     binary_round_aux prec emax sx (Z.pos p) ex lx = S754_finite sx m e /\
     canonical_mantissa prec emax m e = true /\ e <= 971 /\
     fexp (Z.pos (digits2_pos p) + ex) <= e <= fexp (Z.pos (digits2_pos p) + ex) + 1) \/
  (binary_round_aux prec emax sx (Z.pos p) ex lx = S754_infinity sx /\
   971 <= fexp (Z.pos (digits2_pos p) + ex)).
Proof.
  intros Hex. unfold binary_round_aux.
  set (d := Z.pos (digits2_pos p)) in *.
  set (E := fexp (d + ex)) in *.
  assert (HE : E = Z.max (d + ex - 53) (-1074)) by reflexivity.
  assert (Hd : 0 < d) by (unfold d; lia).
  destruct (shr_fexp_spec (Z.pos p) ex lx ltac:(lia)) as [Hm1 He1].
  destruct (shr_fexp prec emax (Z.pos p) ex lx) as [mrs1 e1].
  cbn [fst snd] in Hm1, He1.
  change (Zdigits2 (Z.pos p)) with d in Hm1, He1. fold E in Hm1, He1.
  rewrite Z.max_r in Hm1, He1 by lia.
  replace (ex + (E - ex)) with E in He1 by lia. subst e1.
  set (m1 := round_nearest_even (shr_m mrs1) (loc_of_shr_record mrs1)).
  assert (Hm1' : m1 = shr_m mrs1 \/ m1 = shr_m mrs1 + 1)
    by apply round_nearest_even_cases.
  assert (Hshift : 0 <= shr_m mrs1).
  { rewrite Hm1. apply Z.shiftr_nonneg. lia. }
  destruct (shr_fexp_spec m1 E loc_Exact ltac:(lia)) as [Hm2 He2].
  destruct (shr_fexp prec emax m1 E loc_Exact) as [mrs2 e2].
  cbn [fst snd] in Hm2, He2.
  change (emax - prec) with 971.
  destruct (Z_lt_le_dec (E - ex) d) as [Hlt|Hge].
  - (* the shifted mantissa is positive *)
    destruct (Zdigits2_shiftr (Z.pos p) (E - ex) ltac:(lia) ltac:(lia) Hlt) as [Hpos Hdig].
    change (Zdigits2 (Z.pos p)) with d in Hdig. rewrite <- Hm1 in Hpos, Hdig.
    assert (H1pos : 0 < m1) by lia.
    assert (Hd1 : d - (E - ex) <= Zdigits2 m1 <= d - (E - ex) + 1).
    { destruct Hm1' as [->| ->].
      - lia.
      - split.
        + rewrite <- Hdig. apply Zdigits2_mono; lia.
        + rewrite <- Hdig. now apply Zdigits2_succ. }
    assert (Hn2 : 0 <= fexp (Zdigits2 m1 + E) - E <= 1).
    { rewrite fexp_eq. lia. }
    destruct (Z.eq_dec (fexp (Zdigits2 m1 + E) - E) 0) as [E0|E1].
    + rewrite E0 in Hm2, He2. rewrite Z.max_l in Hm2, He2 by lia.
      rewrite Z.shiftr_0_r in Hm2. rewrite Z.add_0_r in He2. subst e2.
      rewrite Hm2. destruct m1 as [|q|q]; try lia.
      destruct (Z.leb_spec E 971) as [Hle|Hgt].
      * right. left. exists q, E. split; [reflexivity|]. split; [|lia].
        unfold canonical_mantissa. apply Z.eqb_eq.
        change (Z.pos (digits2_pos q)) with (Zdigits2 (Z.pos q)). lia.
      * right. right. split; [reflexivity|lia].
    + assert (E1' : fexp (Zdigits2 m1 + E) - E = 1) by lia.
      rewrite E1' in Hm2, He2. rewrite Z.max_r in Hm2, He2 by lia. subst e2.
      assert (Hd54 : 1 < Zdigits2 m1).
      { rewrite fexp_eq in E1'. lia. }
      destruct (Zdigits2_shiftr m1 1 H1pos ltac:(lia) Hd54) as [Hpos2 Hdig2].
      rewrite <- Hm2 in Hpos2, Hdig2.
      destruct (shr_m mrs2) as [|q|q]; try lia.
      destruct (Z.leb_spec (E + 1) 971) as [Hle|Hgt].
      * right. left. exists q, (E + 1). split; [reflexivity|]. split; [|lia].
        unfold canonical_mantissa. apply Z.eqb_eq.
        change (Z.pos (digits2_pos q)) with (Zdigits2 (Z.pos q)).
        rewrite Hdig2. replace (Zdigits2 m1 - 1 + (E + 1)) with (Zdigits2 m1 + E) by lia.
        lia.
      * right. right. split; [reflexivity|lia].
  - (* everything is shifted out *)
    assert (Hz : shr_m mrs1 = 0).
    { rewrite Hm1. apply shiftr_small; [lia|exact Hge]. }
    assert (HEmin : E = -1074) by lia.
    rewrite Hz in Hm1'. destruct Hm1' as [H0|H1].
    + rewrite H0 in Hm2, He2. cbn [Zdigits2] in Hm2, He2.
      rewrite Z.shiftr_0_l in Hm2. rewrite Hm2.
      left. split; [reflexivity|lia].
    + change (0 + 1) with 1 in H1. rewrite H1 in Hm2, He2.
      change (Zdigits2 1) with 1 in Hm2, He2.
      assert (Hf : fexp (1 + E) - E = 0) by (rewrite fexp_eq; lia).
      rewrite Hf in Hm2, He2. rewrite Z.max_l in Hm2, He2 by lia.
      rewrite Z.shiftr_0_r in Hm2. rewrite Z.add_0_r in He2. subst e2. rewrite Hm2.
      destruct (Z.leb_spec E 971) as [Hle|Hgt]; [|lia].
      right. left. exists 1%positive, E. split; [reflexivity|]. split; [|lia].
      unfold canonical_mantissa. apply Z.eqb_eq. cbn [digits2_pos].
      rewrite fexp_eq. lia.
Qed.

Lemma iter_xO_digits (p k : positive) :
  Z.pos (digits2_pos (Pos.iter xO p k)) = Z.pos (digits2_pos p) + Z.pos k.
Proof.
  induction k as [|k IH] using Pos.peano_ind.
  - cbn [Pos.iter digits2_pos]. lia.
  - rewrite Pos.iter_succ. cbn [digits2_pos]. lia.
Qed.

(** The same for [binary_round], which first lengthens a short mantissa. *)
Lemma binary_round_spec (sx : bool) (p : positive) (ex : Z) :
  (binary_round prec emax sx p ex = S754_zero sx /\
   Z.pos (digits2_pos p) + ex <= -1074) \/
  (exists m e,
     binary_round prec emax sx p ex = S754_finite sx m e /\
     canonical_mantissa prec emax m e = true /\ e <= 971 /\
     fexp (Z.pos (digits2_pos p) + ex) <= e <= fexp (Z.pos (digits2_pos p) + ex) + 1) \/
  (binary_round prec emax sx p ex = S754_infinity sx /\
   971 <= fexp (Z.pos (digits2_pos p) + ex)).
Proof.
  unfold binary_round, shl_align.
  destruct (fexp (Z.pos (digits2_pos p) + ex) - ex) as [|n|n] eqn:En.
  - apply binary_round_aux_spec. lia.
  - apply binary_round_aux_spec. lia.
  - pose proof (binary_round_aux_spec sx (Pos.iter xO p n)
                  (fexp (Z.pos (digits2_pos p) + ex)) loc_Exact) as H.
    rewrite iter_xO_digits in H.
    replace (Z.pos (digits2_pos p) + Z.pos n + fexp (Z.pos (digits2_pos p) + ex))
      with (Z.pos (digits2_pos p) + ex) in H by lia.
    apply H. lia.
Qed.

(** [float(n)] for a positive [n]: a canonical positive number, or an
    infinity when [n] has more than 1023 binary digits. *)
Lemma of_Z_pos_spec (p : positive) :
  (exists m e,
     of_Z (Z.pos p) = S754_finite false m e /\
     canonical_mantissa prec emax m e = true /\ e <= 971 /\
     1 <= Z.pos (digits2_pos m) + e) \/
  (of_Z (Z.pos p) = S754_infinity false /\ 1024 <= Z.pos (digits2_pos p)).
Proof.
  unfold of_Z. cbn [binary_normalize].
  destruct (binary_round_spec false p 0) as [[_ H]|[(m & e & E & Hc & He & Hr)|[E H]]].
  - lia.
  - left. exists m, e. split; [exact E|]. split; [exact Hc|]. split; [exact He|].
    unfold canonical_mantissa in Hc. apply Z.eqb_eq in Hc.
    rewrite fexp_eq in Hc, Hr. lia.
  - right. split; [exact E|]. rewrite fexp_eq in H. lia.
Qed.

Lemma of_Z_neg_spec (p : positive) :
  (exists m e,
     of_Z (Z.neg p) = S754_finite true m e /\
     canonical_mantissa prec emax m e = true /\ e <= 971 /\
     1 <= Z.pos (digits2_pos m) + e) \/
  (of_Z (Z.neg p) = S754_infinity true /\ 1024 <= Z.pos (digits2_pos p)).
Proof.
  unfold of_Z. cbn [binary_normalize].
  destruct (binary_round_spec true p 0) as [[_ H]|[(m & e & E & Hc & He & Hr)|[E H]]].
  - lia.
  - left. exists m, e. split; [exact E|]. split; [exact Hc|]. split; [exact He|].
    unfold canonical_mantissa in Hc. apply Z.eqb_eq in Hc.
    rewrite fexp_eq in Hc, Hr. lia.
  - right. split; [exact E|]. rewrite fexp_eq in H. lia.
Qed.

(** An integer of at most 1023 binary digits converts; one of more than 1024
    does not. *)
Lemma of_int_small (z : Z) :
  Z.abs z < 2 ^ 1023 -> exists f, of_int z = Return f /\ of_Z z = f.
Proof.
  intros Hz. unfold of_int.
  destruct z as [|p|p].
  - eexists. split; reflexivity.
  - destruct (of_Z_pos_spec p) as [(m & e & E & _)|[_ H]].
    + rewrite E. eexists. split; reflexivity.
    + exfalso. pose proof (Zdigits2_bounds (Z.pos p) ltac:(lia)) as [Hb _].
      cbn [Zdigits2] in Hb.
      assert (2 ^ 1023 <= 2 ^ (Z.pos (digits2_pos p) - 1)) by (apply Z.pow_le_mono_r; lia).
      cbn [Z.abs] in Hz. lia.
  - destruct (of_Z_neg_spec p) as [(m & e & E & _)|[_ H]].
    + rewrite E. eexists. split; reflexivity.
    + exfalso. pose proof (Zdigits2_bounds (Z.pos p) ltac:(lia)) as [Hb _].
      cbn [Zdigits2] in Hb.
      assert (2 ^ 1023 <= 2 ^ (Z.pos (digits2_pos p) - 1)) by (apply Z.pow_le_mono_r; lia).
      cbn [Z.abs] in Hz. lia.
Qed.

Lemma of_int_large (z : Z) : 2 ^ 1024 <= Z.abs z -> of_int z = Raise OverflowError.
Proof.
  intros Hz. unfold of_int, of_Z.
  assert (Hbig : forall p, 2 ^ 1024 <= Z.pos p -> 1025 <= Z.pos (digits2_pos p)).
  { intros p Hp. pose proof (Zdigits2_bounds (Z.pos p) ltac:(lia)) as [_ Hb].
    cbn [Zdigits2] in Hb.
    destruct (Z_lt_le_dec (Z.pos (digits2_pos p)) 1025) as [Hlt|Hge]; [|exact Hge].
    assert (2 ^ Z.pos (digits2_pos p) <= 2 ^ 1024) by (apply Z.pow_le_mono_r; lia).
    lia. }
  destruct z as [|p|p]; cbn [Z.abs] in Hz.
  - exfalso. assert (0 < 2 ^ 1024) by (apply Z.pow_pos_nonneg; lia). lia.
  - cbn [binary_normalize]. specialize (Hbig p Hz).
    destruct (binary_round_spec false p 0) as [[_ H]|[(m & e & E & Hc & He & Hr)|[E H]]].
    + lia.
    + rewrite fexp_eq in Hr. lia.
    + now rewrite E.
  - cbn [binary_normalize]. specialize (Hbig p Hz).
    destruct (binary_round_spec true p 0) as [[_ H]|[(m & e & E & Hc & He & Hr)|[E H]]].
    + lia.
    + rewrite fexp_eq in Hr. lia.
    + now rewrite E.
Qed.

(** *** Division *)

Lemma Zdigits2_ge (q x : Z) : 0 <= x -> 2 ^ x <= q -> x + 1 <= Zdigits2 q.
Proof.
  intros Hx Hq.
  assert (Hpos : 0 < q).
  { assert (0 < 2 ^ x) by (apply Z.pow_pos_nonneg; lia). lia. }
  rewrite Zdigits2_log2 by exact Hpos.
  apply (Z.log2_le_pow2 q x Hpos) in Hq. lia.
Qed.

Lemma Zdigits2_le (q y : Z) : 0 < q -> q < 2 ^ y -> Zdigits2 q <= y.
Proof.
  intros Hq Hlt. rewrite Zdigits2_log2 by exact Hq.
  apply (Z.log2_lt_pow2 q y Hq) in Hlt. lia.
Qed.

(** The quotient computed by the division core has enough digits for its
    exponent. *)
Lemma SFdiv_core_spec (m1 m2 : positive) (e1 e2 : Z) :
  -1074 < Z.pos (digits2_pos m1) + e1 - (Z.pos (digits2_pos m2) + e2) ->
  exists q ez lz,
    SFdiv_core_binary prec emax (Z.pos m1) e1 (Z.pos m2) e2 = (Z.pos q, ez, lz) /\
    ez <= fexp (Z.pos (digits2_pos q) + ez) /\
    Z.pos (digits2_pos m1) + e1 - (Z.pos (digits2_pos m2) + e2)
    <= Z.pos (digits2_pos q) + ez
    <= Z.pos (digits2_pos m1) + e1 - (Z.pos (digits2_pos m2) + e2) + 1.
Proof.
  intros HD. unfold SFdiv_core_binary.
  cbn [Zdigits2].
  set (d1 := Z.pos (digits2_pos m1)) in *. set (d2 := Z.pos (digits2_pos m2)) in *.
  set (D := d1 + e1 - (d2 + e2)) in *.
  set (ez := Z.min (fexp D) (e1 - e2)).
  set (s := e1 - e2 - ez).
  assert (Hs : 0 <= s) by (unfold s, ez; lia).
  assert (Hez : ez < D) by (unfold ez; rewrite fexp_eq; lia).
  assert (Hm' : match s with
                | 0 => Z.pos m1
                | Z.pos _ => Z.shiftl (Z.pos m1) s
                | Z.neg _ => 0
                end = Z.pos m1 * 2 ^ s).
  { destruct s as [|n|n] eqn:Es; try lia.
    - rewrite Z.shiftl_mul_pow2 by lia. reflexivity. }
  rewrite Hm'.
  pose proof (Zdigits2_bounds (Z.pos m1) ltac:(lia)) as [Hl1 Hu1].
  pose proof (Zdigits2_bounds (Z.pos m2) ltac:(lia)) as [Hl2 Hu2].
  cbn [Zdigits2] in Hl1, Hu1, Hl2, Hu2. fold d1 in Hl1, Hu1. fold d2 in Hl2, Hu2.
  assert (Hd1 : 0 < d1) by (unfold d1; lia).
  assert (Hd2 : 0 < d2) by (unfold d2; lia).
  assert (Hx : 0 <= d1 - 1 + s - d2) by (unfold s, D in *; lia).
  assert (H2s : 0 < 2 ^ s) by (apply Z.pow_pos_nonneg; lia).
  pose proof (Z.div_eucl_eq (Z.pos m1 * 2 ^ s) (Z.pos m2) ltac:(lia)) as Heq.
  pose proof (Z.mod_pos_bound (Z.pos m1 * 2 ^ s) (Z.pos m2) ltac:(lia)) as Hmod.
  unfold Z.modulo in Hmod.
  assert (Hq : fst (Z.div_eucl (Z.pos m1 * 2 ^ s) (Z.pos m2))
               = Z.pos m1 * 2 ^ s / Z.pos m2) by reflexivity.
  destruct (Z.div_eucl (Z.pos m1 * 2 ^ s) (Z.pos m2)) as [q r].
  cbn [fst] in Hq.
  assert (Hlow : 2 ^ (d1 - 1 + s - d2) <= q).
  { rewrite Hq. apply Z.div_le_lower_bound; [lia|].
    apply Z.le_trans with (2 ^ d2 * 2 ^ (d1 - 1 + s - d2)).
    - apply Z.mul_le_mono_nonneg_r; [apply Z.pow_nonneg; lia|lia].
    - rewrite <- Z.pow_add_r by lia.
      assert (Hsplit : 2 ^ (d2 + (d1 - 1 + s - d2)) = 2 ^ (d1 - 1) * 2 ^ s).
      { rewrite <- Z.pow_add_r by lia. f_equal. lia. }
      rewrite Hsplit.
      apply Z.mul_le_mono_nonneg_r; lia. }
  assert (Hup : q < 2 ^ (d1 + s - d2 + 1)).
  { rewrite Hq. apply Z.div_lt_upper_bound; [lia|].
    apply Z.lt_le_trans with (2 ^ d1 * 2 ^ s).
    - apply Z.mul_lt_mono_pos_r; lia.
    - rewrite <- Z.pow_add_r by lia.
      assert (Hsplit : 2 ^ (d1 + s) = 2 ^ (d2 - 1) * 2 ^ (d1 + s - d2 + 1)).
      { rewrite <- Z.pow_add_r by lia. f_equal. lia. }
      rewrite Hsplit.
      apply Z.mul_le_mono_nonneg_r; [apply Z.pow_nonneg; lia|lia]. }
  assert (Hqpos : 0 < q).
  { assert (0 < 2 ^ (d1 - 1 + s - d2)) by (apply Z.pow_pos_nonneg; lia). lia. }
  pose proof (Zdigits2_ge q _ Hx Hlow) as Hdl.
  pose proof (Zdigits2_le q _ Hqpos Hup) as Hdu.
  destruct q as [|q|q]; try lia.
  cbn [Zdigits2] in Hdl, Hdu.
  exists q, ez, (new_location (Z.pos m2) r). split; [reflexivity|].
  assert (HDq : D <= Z.pos (digits2_pos q) + ez <= D + 1) by (unfold s, D in *; lia).
  split; [|exact HDq].
  apply Z.le_trans with (fexp D); [unfold ez; lia|apply fexp_mono; lia].
Qed.

Lemma one_eq : one = S754_finite false 4503599627370496 (-52).
Proof. reflexivity. Qed.

(** [1.0 / d] for a number [d >= 1]: a canonical positive number. *)
Lemma reciprocal_spec (m2 : positive) (e2 : Z) :
  canonical_mantissa prec emax m2 e2 = true -> e2 <= 971 ->
  1 <= Z.pos (digits2_pos m2) + e2 ->
  exists m e,
    div one (S754_finite false m2 e2) = S754_finite false m e /\
    canonical_mantissa prec emax m e = true /\ e <= -51.
Proof.
  intros Hc He Hge. unfold canonical_mantissa in Hc. apply Z.eqb_eq in Hc.
  rewrite fexp_eq in Hc.
  rewrite one_eq. unfold div. cbn [SFdiv xorb].
  assert (Hd1 : Z.pos (digits2_pos 4503599627370496) = 53) by reflexivity.
  destruct (SFdiv_core_spec 4503599627370496 m2 (-52) e2) as (q & ez & lz & E & Hez & HD).
  { rewrite Hd1. lia. }
  rewrite E. rewrite Hd1 in HD.
  destruct (binary_round_aux_spec false q ez lz Hez)
    as [[_ H]|[(m & e & Er & Hcm & Hem & Hr)|[Er H]]].
  - lia.
  - exists m, e. split; [exact Er|]. split; [exact Hcm|].
    rewrite fexp_eq in Hr. lia.
  - exfalso. rewrite fexp_eq in H. lia.
Qed.

(** *** Adding a number to itself *)

Lemma add_diag (m : positive) (e : Z) :
  canonical_mantissa prec emax m e = true -> e <= 970 ->
  exists m' e',
    add (S754_finite false m e) (S754_finite false m e) = S754_finite false m' e' /\
    ((m' = (m~0)%positive /\ e' = e) \/ (m' = m /\ e' = e + 1)).
Proof.
  intros Hc He. unfold canonical_mantissa in Hc. apply Z.eqb_eq in Hc.
  unfold add, SFadd. rewrite Z.min_id. unfold shl_align at 1 2. rewrite Z.sub_diag.
  cbn [fst cond_Zopp]. cbn [Z.add]. rewrite Pos.add_diag.
  cbn [binary_normalize]. unfold binary_round, shl_align.
  set (n := SpecFloat.fexp prec emax (Z.pos (digits2_pos m~0) + e) - e).
  assert (Hn : n = 0 \/ n = 1).
  { unfold n. cbn [digits2_pos]. rewrite fexp_eq in *. lia. }
  destruct Hn as [Hn|Hn].
  - rewrite Hn. unfold binary_round_aux, shr_fexp. cbn [Zdigits2]. fold n. rewrite Hn.
    cbn [shr shr_record_of_loc shr_m loc_of_shr_record round_nearest_even Zdigits2].
    fold n. rewrite Hn. cbn [shr shr_record_of_loc shr_m].
    change (emax - prec) with 971.
    destruct (Z.leb_spec e 971); [|lia].
    exists (m~0)%positive, e. split; [reflexivity|]. now left.
  - rewrite Hn. unfold binary_round_aux, shr_fexp. cbn [Zdigits2]. fold n. rewrite Hn.
    cbn [shr iter_pos shr_record_of_loc shr_1 orb shr_m loc_of_shr_record
         round_nearest_even Zdigits2].
    assert (Hn2 : SpecFloat.fexp prec emax (Z.pos (digits2_pos m) + (e + 1)) - (e + 1) = 0).
    { unfold n in Hn. cbn [digits2_pos] in Hn. rewrite fexp_eq in *. lia. }
    rewrite Hn2. cbn [shr shr_record_of_loc shr_m].
    change (emax - prec) with 971.
    destruct (Z.leb_spec (e + 1) 971); [|lia].
    exists m, (e + 1). split; [reflexivity|]. now right.
Qed.

Lemma add_diag_gt (m : positive) (e : Z) :
  canonical_mantissa prec emax m e = true -> e <= 970 ->
  ltb (S754_finite false m e) (add (S754_finite false m e) (S754_finite false m e)) = true.
Proof.
  intros Hc He. destruct (add_diag m e Hc He) as (m' & e' & E & [[-> ->]|[-> ->]]);
    rewrite E; unfold ltb, SFltb; cbn [SFcompare].
  - rewrite Z.compare_refl.
    replace (Pos.compare_cont Eq m m~0) with Lt; [reflexivity|].
    symmetry. change (Pos.compare_cont Eq m m~0) with (Pos.compare m m~0).
    apply Pos.compare_lt_iff. lia.
  - replace (e ?= e + 1) with Lt; [reflexivity|].
    symmetry. apply Z.compare_lt_iff. lia.
Qed.

Lemma to_Q_add_diag (m : positive) (e : Z) :
  canonical_mantissa prec emax m e = true -> e <= 970 ->
  (to_Q (add (S754_finite false m e) (S754_finite false m e))
   == 2 * to_Q (S754_finite false m e))%Q.
Proof.
  intros Hc He. destruct (add_diag m e Hc He) as (m' & e' & E & [[-> ->]|[-> ->]]);
    rewrite E; cbn [to_Q].
  - rewrite Pos2Z.inj_xO. rewrite inject_Z_mult. change (inject_Z 2) with 2%Q. ring.
  - rewrite Qpower_plus by discriminate. change (Qpower (2 # 1) 1) with 2%Q. ring.
Qed.

(** *** Order *)

Ltac float_order :=
  repeat match goal with
         | |- context [Pos.compare_cont Eq ?a ?b] =>
             change (Pos.compare_cont Eq a b) with (Pos.compare a b)
         | H : context [Pos.compare_cont Eq ?a ?b] |- _ =>
             change (Pos.compare_cont Eq a b) with (Pos.compare a b) in H
         end;
  repeat match goal with
         | H : context [Z.compare ?a ?b] |- _ =>
             destruct (Z.compare_spec a b); try subst; cbn [CompOpp] in *;
             try discriminate; try lia
         | |- context [Z.compare ?a ?b] =>
             destruct (Z.compare_spec a b); try subst; cbn [CompOpp] in *;
             try discriminate; try lia
         | H : context [Pos.compare ?a ?b] |- _ =>
             destruct (Pos.compare_spec a b); try subst; cbn [CompOpp] in *;
             try discriminate; try lia
         | |- context [Pos.compare ?a ?b] =>
             destruct (Pos.compare_spec a b); try subst; cbn [CompOpp] in *;
             try discriminate; try lia
         end;
  try reflexivity; try discriminate; try lia.

Lemma ltb_trans (x y z : t) : ltb x y = true -> ltb y z = true -> ltb x z = true.
Proof.
  unfold ltb, SFltb.
  destruct x as [[]|[]| |[] mx ex], y as [[]|[]| |[] my ey], z as [[]|[]| |[] mz ez];
    cbn [SFcompare]; try reflexivity; try discriminate; intros Hxy Hyz; float_order.
Qed.

Lemma leb_trans (x y z : t) : leb x y = true -> leb y z = true -> leb x z = true.
Proof.
  unfold leb, SFleb.
  destruct x as [[]|[]| |[] mx ex], y as [[]|[]| |[] my ey], z as [[]|[]| |[] mz ez];
    cbn [SFcompare]; try reflexivity; try discriminate; intros Hxy Hyz; float_order.
Qed.

Lemma ltb_irrefl (x : t) : ltb x x = false.
Proof.
  unfold ltb, SFltb. destruct x as [[]|[]| |[] m e]; cbn [SFcompare]; try reflexivity;
    rewrite Z.compare_refl; change (Pos.compare_cont Eq m m) with (Pos.compare m m);
    now rewrite Pos.compare_refl.
Qed.

Lemma ltb_leb (x y : t) : ltb x y = true -> leb x y = true.
Proof.
  unfold ltb, leb, SFltb, SFleb. now destruct (SFcompare x y) as [[]|].
Qed.

(** Two numbers are comparable. *)
Lemma not_ltb_leb (x y : t) :
  x <> S754_nan -> y <> S754_nan -> ltb x y = false -> leb y x = true.
Proof.
  unfold ltb, leb, SFltb, SFleb. intros Hx Hy.
  destruct x as [[]|[]| |[] mx ex], y as [[]|[]| |[] my ey];
    cbn [SFcompare]; try reflexivity; try discriminate; try congruence;
    intros H; float_order.
Qed.

Lemma leb_not_ltb (x y : t) : leb y x = true -> ltb x y = false.
Proof.
  unfold ltb, leb, SFltb, SFleb.
  destruct x as [[]|[]| |[] mx ex], y as [[]|[]| |[] my ey];
    cbn [SFcompare]; try reflexivity; try discriminate; intros H; float_order.
Qed.

(** *** Sums of numbers that are not negative *)

Lemma nonneg_not_nan (x : t) : leb zero x = true -> x <> S754_nan.
Proof. intros H ->. discriminate. Qed.

Lemma nonneg_cases (x : t) :
  leb zero x = true ->
  (exists s, x = S754_zero s) \/ (exists m e, x = S754_finite false m e)
  \/ x = S754_infinity false.
Proof.
  destruct x as [s|[]| |[] m e]; cbn; try discriminate; intros _; eauto.
Qed.

Lemma add_nonneg (x y : t) :
  leb zero x = true -> leb zero y = true -> leb zero (add x y) = true.
Proof.
  intros Hx Hy.
  destruct (nonneg_cases x Hx) as [[sx ->]|[(mx & ex & ->)| ->]];
    destruct (nonneg_cases y Hy) as [[sy ->]|[(my & ey & ->)| ->]];
    try reflexivity; try (now destruct sx); try (now destruct sy).
  - now destruct sx, sy.
  - unfold add, SFadd. cbn [cond_Zopp Z.add binary_normalize].
    match goal with
    | |- context [binary_round prec emax false ?p ?e] =>
        destruct (binary_round_spec false p e) as [[E _]|[(m & e' & E & _)|[E _]]];
        rewrite E; reflexivity
    end.
Qed.

End FloatFacts.

(* ================================================================== *)
(** ** Reciprocal rank fusion *)

Module RrfFacts.
Import Rrf.

(** *** Dictionaries *)

Section Dict.
Context {V : Type}.
Implicit Types (d : dict V) (v : V) (key : Z).

Lemma dict_get_set_same key v d : dict_get key (dict_set key v d) = Some v.
Proof.
  induction d as [|[k x] r IH]; simpl.
  - now rewrite Z.eqb_refl.
  - destruct (k =? key)%Z eqn:E; simpl; rewrite E; auto.
Qed.

Lemma dict_get_set_other key key' v d :
  key <> key' -> dict_get key' (dict_set key v d) = dict_get key' d.
Proof.
  intros Hne. induction d as [|[k x] r IH]; simpl.
  - destruct (key =? key')%Z eqn:E; [apply Z.eqb_eq in E; contradiction|reflexivity].
  - destruct (k =? key)%Z eqn:E; simpl.
    + apply Z.eqb_eq in E. subst k.
      destruct (key =? key')%Z eqn:E'; [apply Z.eqb_eq in E'; contradiction|reflexivity].
    + destruct (k =? key')%Z; auto.
Qed.

Lemma dict_get_none key d : dict_get key d = None <-> ~ In key (map fst d).
Proof.
  induction d as [|[k x] r IH]; simpl; [tauto|].
  destruct (k =? key)%Z eqn:E.
  - apply Z.eqb_eq in E. split; [discriminate|]. intros H. exfalso. apply H. now left.
  - apply Z.eqb_neq in E. rewrite IH. tauto.
Qed.

Lemma dict_get_none_not key d : dict_get key d <> None -> In key (map fst d).
Proof.
  intros H. destruct (in_dec Z.eq_dec key (map fst d)) as [Hin|Hnin]; [exact Hin|].
  apply dict_get_none in Hnin. contradiction.
Qed.

Lemma dict_get_in key v d : dict_get key d = Some v -> In (key, v) d.
Proof.
  induction d as [|[k x] r IH]; simpl; [discriminate|].
  destruct (k =? key)%Z eqn:E.
  - apply Z.eqb_eq in E. intros [= ->]. left. now subst.
  - intros H. right. auto.
Qed.

Lemma in_dict_get key v d : NoDup (map fst d) -> In (key, v) d -> dict_get key d = Some v.
Proof.
  induction d as [|[k x] r IH]; simpl; [tauto|].
  intros Hnd [H|H].
  - injection H as -> ->. now rewrite Z.eqb_refl.
  - inversion Hnd as [|? ? Hnotin Hnd']; subst.
    destruct (k =? key)%Z eqn:E.
    + apply Z.eqb_eq in E. subst k. exfalso. apply Hnotin.
      change key with (fst (key, v)). now apply in_map.
    + auto.
Qed.

(** Assignment keeps the keys, or appends the new one. *)
Lemma keys_dict_set key v d :
  map fst (dict_set key v d) =
  match dict_get key d with
  | Some _ => map fst d
  | None => map fst d ++ [key]
  end.
Proof.
  induction d as [|[k x] r IH]; simpl; [reflexivity|].
  destruct (k =? key)%Z eqn:E; simpl; [reflexivity|].
  rewrite IH. now destruct (dict_get key r).
Qed.

Lemma nodup_dict_set key v d :
  NoDup (map fst d) -> NoDup (map fst (dict_set key v d)).
Proof.
  intros H. rewrite keys_dict_set. destruct (dict_get key d) eqn:E; [exact H|].
  apply dict_get_none in E.
  apply NoDup_rev in H. rewrite <- (rev_involutive (map fst d ++ [key])).
  apply NoDup_rev. rewrite rev_app_distr. simpl. constructor; [|exact H].
  now rewrite <- in_rev.
Qed.

End Dict.

(** Two dictionaries with the same keys have entries at the same ids. *)
Lemma dict_get_same_keys {V W} (key : Z) (d : dict V) (d' : dict W) :
  map fst d = map fst d' -> dict_get key d = None <-> dict_get key d' = None.
Proof. intros H. rewrite !dict_get_none. now rewrite H. Qed.

(** *** Ranks and contributions *)

Lemma ranks_in_app cid seen seen' :
  ranks_in cid (seen ++ seen') = ranks_in cid seen ++ ranks_in cid seen'.
Proof. unfold ranks_in. now rewrite filter_app, map_app. Qed.

Lemma float_total_snoc k ranks rank :
  float_total k (ranks ++ [rank]) = Float.add (float_total k ranks) (contribution k rank).
Proof. unfold float_total. now rewrite fold_left_app. Qed.

Lemma map_snd_ranked idx lst : map snd (ranked idx lst) = lst.
Proof.
  revert idx. induction lst as [|r rest IH]; intros idx; simpl; [reflexivity|].
  now rewrite IH.
Qed.

Lemma map_snd_occurrences lists : map snd (occurrences lists) = concat lists.
Proof.
  unfold occurrences. induction lists as [|l rest IH]; simpl; [reflexivity|].
  now rewrite map_app, map_snd_ranked, IH.
Qed.

Lemma ranked_bounds idx lst rank r :
  In (rank, r) (ranked idx lst) ->
  idx + 1 <= rank <= idx + Z.of_nat (length lst) /\ In r lst.
Proof.
  revert idx. induction lst as [|x rest IH]; intros idx; simpl; [tauto|].
  intros [[= <- <-]|H].
  - split; [lia|now left].
  - destruct (IH _ H) as [Hb Hin]. split; [lia|now right].
Qed.

Lemma occurrences_bounds lists rank r :
  In (rank, r) (occurrences lists) ->
  exists lst, In lst lists /\ 1 <= rank <= Z.of_nat (length lst) /\ In r lst.
Proof.
  unfold occurrences. rewrite in_flat_map. intros (lst & Hl & Hin).
  apply ranked_bounds in Hin. exists lst. split; [exact Hl|]. split; [lia|tauto].
Qed.

(** The division [1.0 / n] of the loop, for [n] from 1 to below [2^1023]:
    it returns a canonical positive float of exponent at most [-51]. *)
Lemma reciprocal_returns (n : Z) :
  0 < n < 2 ^ 1023 ->
  reciprocal n = Return (Float.div Float.one (Float.of_Z n)) /\
  exists m e,
    Float.div Float.one (Float.of_Z n) = S754_finite false m e /\
    canonical_mantissa Float.prec Float.emax m e = true /\ e <= -51.
Proof.
  intros [Hpos Hlt]. destruct n as [|p|p]; try lia.
  destruct (FloatFacts.of_Z_pos_spec p) as [(m & e & E & Hc & He & Hd)|[_ Hbig]].
  - unfold reciprocal, Float.of_int. rewrite E. cbn [bind Float.truthy].
    split; [reflexivity|]. now apply FloatFacts.reciprocal_spec.
  - exfalso.
    pose proof (FloatFacts.Zdigits2_le (Z.pos p) 1023 ltac:(lia) Hlt) as H.
    cbn [Zdigits2] in H. lia.
Qed.

Lemma contribution_nonneg (k rank : Z) :
  0 < k + rank < 2 ^ 1023 -> Float.leb Float.zero (contribution k rank) = true.
Proof.
  intros H. destruct (reciprocal_returns (k + rank) H) as [_ (m & e & E & _)].
  unfold contribution. now rewrite E.
Qed.

(** *** The loop *)

Lemma loop_inv_empty k : loop_inv k [] empty_state.
Proof.
  unfold loop_inv, empty_state. cbn. repeat split; try constructor; discriminate.
Qed.

(** An item seen has an entry in both dictionaries. *)
Lemma loop_inv_seen k seen st r :
  loop_inv k seen st -> In r (map snd seen) ->
  dict_get (cid_of r) (best_result_for_chunk st) <> None.
Proof.
  intros (Hkeys & _ & Hscores & _) Hin.
  rewrite <- (dict_get_same_keys (cid_of r) _ _ Hkeys).
  rewrite Hscores.
  apply in_map_iff in Hin. destruct Hin as ([rank r'] & Hr & Hin). cbn in Hr. subst r'.
  assert (Hrank : In rank (ranks_in (cid_of r) seen)).
  { unfold ranks_in. apply in_map_iff. exists (rank, r). split; [reflexivity|].
    apply filter_In. split; [exact Hin|]. cbn. apply Z.eqb_refl. }
  destruct (ranks_in (cid_of r) seen); [destruct Hrank|discriminate].
Qed.

Lemma fuse_item_inv k idx res st seen :
  loop_inv k seen st ->
  0 < k + (idx + 1) < 2 ^ 1023 ->
  exists st', fuse_item k idx res st = Return st' /\
              loop_inv k (seen ++ [(idx + 1, res)]) st'.
Proof.
  intros Hinv Hrange.
  pose proof (loop_inv_seen k seen st) as Hseen. specialize (Hseen).
  pose proof Hinv as (Hkeys & Hnd & Hscores & Hbest & Hnonneg).
  destruct (reciprocal_returns _ Hrange) as [Hrec _].
  pose proof (contribution_nonneg k (idx + 1) Hrange) as Hc.
  unfold fuse_item. rewrite Hrec. cbn [bind].
  fold (contribution k (idx + 1)).
  eexists. split; [reflexivity|].
  set (cid := cid_of res).
  assert (Hold : match dict_get cid (fused_scores st) with
                 | Some s => s
                 | None => Float.zero
                 end = float_total k (ranks_in cid seen)).
  { rewrite Hscores. now destruct (ranks_in cid seen). }
  assert (Holdnn : Float.leb Float.zero (float_total k (ranks_in cid seen)) = true).
  { rewrite <- Hold. destruct (dict_get cid (fused_scores st)) eqn:E; [|reflexivity].
    now apply (Hnonneg cid). }
  rewrite Hold.
  assert (Hranks : forall cid',
            ranks_in cid' (seen ++ [(idx + 1, res)])
            = ranks_in cid' seen ++ (if cid =? cid' then [idx + 1] else [])).
  { intros cid'. rewrite ranks_in_app. f_equal. unfold ranks_in. cbn. fold cid.
    now destruct (cid =? cid'). }
  unfold loop_inv. cbn [fused_scores best_result_for_chunk].
  split; [|split; [|split; [|split]]].
  - (* same keys *)
    rewrite keys_dict_set.
    pose proof (dict_get_same_keys cid _ _ Hkeys) as Hsame.
    destruct (dict_get cid (best_result_for_chunk st)) as [b|] eqn:Eb.
    + destruct (dict_get cid (fused_scores st)) eqn:Es.
      * destruct (Float.ltb (score b) (score res)); [|exact Hkeys].
        rewrite keys_dict_set, Eb. exact Hkeys.
      * exfalso. assert (Some b = None) by (now apply Hsame). discriminate.
    + destruct (dict_get cid (fused_scores st)) eqn:Es.
      * exfalso. assert (Some t = None) by (now apply Hsame). discriminate.
      * rewrite keys_dict_set, Eb. now rewrite Hkeys.
  - now apply nodup_dict_set.
  - (* totals *)
    intros cid'. rewrite Hranks.
    destruct (Z.eqb_spec cid cid') as [<-|Hne].
    + rewrite dict_get_set_same, float_total_snoc.
      now destruct (ranks_in cid seen).
    + rewrite dict_get_set_other by exact Hne. rewrite app_nil_r. apply Hscores.
  - (* representatives *)
    intros cid' r Hget.
    assert (Hin_old : forall x, In x (map snd seen) ->
                                In x (map snd (seen ++ [(idx + 1, res)]))).
    { intros x Hx. rewrite map_app. apply in_or_app. now left. }
    assert (Hin_new : In res (map snd (seen ++ [(idx + 1, res)]))).
    { rewrite map_app. apply in_or_app. right. now left. }
    assert (Hsplit : forall x, In x (map snd (seen ++ [(idx + 1, res)])) ->
                               In x (map snd seen) \/ x = res).
    { intros x Hx. rewrite map_app in Hx. apply in_app_or in Hx.
      destruct Hx as [Hx|[Hx|[]]]; [now left|right; now symmetry]. }
    assert (Hkeepold : dict_get cid' (best_result_for_chunk st) = Some r ->
                       cid <> cid' ->
                       cid_of r = cid' /\
                       In r (map snd (seen ++ [(idx + 1, res)])) /\
                       forall r', In r' (map snd (seen ++ [(idx + 1, res)])) ->
                                  cid_of r' = cid' ->
                                  Float.ltb (score r) (score r') = false).
    { intros Hg Hne. destruct (Hbest _ _ Hg) as (H1 & H2 & H3).
      split; [exact H1|]. split; [now apply Hin_old|].
      intros r' Hr' Hcid. destruct (Hsplit _ Hr') as [Ho| ->]; [now apply H3|].
      exfalso. apply Hne. exact Hcid. }
    destruct (dict_get cid (best_result_for_chunk st)) as [b|] eqn:Eb.
    + destruct (Hbest _ _ Eb) as (Hb1 & Hb2 & Hb3).
      destruct (Float.ltb (score b) (score res)) eqn:Elt.
      * destruct (Z.eq_dec cid cid') as [<-|Hne].
        -- rewrite dict_get_set_same in Hget. injection Hget as <-.
           split; [reflexivity|]. split; [exact Hin_new|].
           intros r' Hr' Hcid. destruct (Hsplit _ Hr') as [Ho| ->].
           ++ destruct (Float.ltb (score res) (score r')) eqn:E2; [|reflexivity].
              rewrite <- (Hb3 r' Ho Hcid). symmetry.
              now apply FloatFacts.ltb_trans with (score res).
           ++ apply FloatFacts.ltb_irrefl.
        -- rewrite dict_get_set_other in Hget by exact Hne. now apply Hkeepold.
      * destruct (Z.eq_dec cid cid') as [<-|Hne].
        -- rewrite Eb in Hget. injection Hget as <-.
           split; [exact Hb1|]. split; [now apply Hin_old|].
           intros r' Hr' Hcid. destruct (Hsplit _ Hr') as [Ho| ->]; [now apply Hb3|].
           exact Elt.
        -- now apply Hkeepold.
    + destruct (Z.eq_dec cid cid') as [<-|Hne].
      * rewrite dict_get_set_same in Hget. injection Hget as <-.
        split; [reflexivity|]. split; [exact Hin_new|].
        intros r' Hr' Hcid. destruct (Hsplit _ Hr') as [Ho| ->].
        -- exfalso. apply (Hseen r' Hinv Ho). rewrite Hcid. exact Eb.
        -- apply FloatFacts.ltb_irrefl.
      * rewrite dict_get_set_other in Hget by exact Hne. now apply Hkeepold.
  - (* totals are not negative *)
    intros cid' s. destruct (Z.eq_dec cid cid') as [<-|Hne].
    + rewrite dict_get_set_same. intros [= <-]. now apply FloatFacts.add_nonneg.
    + rewrite dict_get_set_other by exact Hne. apply Hnonneg.
Qed.

Lemma fuse_list_inv k lst : forall idx st seen,
  loop_inv k seen st ->
  0 <= k -> 0 <= idx -> k + idx + Z.of_nat (length lst) < 2 ^ 1023 ->
  exists st', fuse_list k idx lst st = Return st' /\
              loop_inv k (seen ++ ranked idx lst) st'.
Proof.
  induction lst as [|res rest IH]; intros idx st seen Hinv Hk Hidx Hlen.
  - exists st. split; [reflexivity|]. cbn [ranked]. now rewrite app_nil_r.
  - cbn [length] in Hlen. cbn [fuse_list ranked].
    destruct (fuse_item_inv k idx res st seen Hinv ltac:(lia)) as (st1 & E1 & H1).
    rewrite E1. cbn [bind].
    destruct (IH (idx + 1) st1 _ H1 Hk ltac:(lia) ltac:(lia)) as (st2 & E2 & H2).
    exists st2. split; [exact E2|]. now rewrite <- app_assoc in H2.
Qed.

Lemma fuse_lists_inv k lists : forall st seen,
  loop_inv k seen st ->
  0 <= k -> in_float_range k lists ->
  exists st', fuse_lists k lists st = Return st' /\
              loop_inv k (seen ++ occurrences lists) st'.
Proof.
  induction lists as [|lst rest IH]; intros st seen Hinv Hk Hrange.
  - exists st. split; [reflexivity|]. unfold occurrences. cbn. now rewrite app_nil_r.
  - inversion Hrange as [|? ? Hl Hrest]; subst.
    cbn [fuse_lists].
    destruct (fuse_list_inv k lst 0 st seen Hinv Hk ltac:(lia) ltac:(lia)) as (st1 & E1 & H1).
    rewrite E1. cbn [bind].
    destruct (IH st1 _ H1 Hk Hrest) as (st2 & E2 & H2).
    exists st2. split; [exact E2|].
    unfold occurrences in *. cbn [flat_map]. now rewrite app_assoc.
Qed.

(** The state at the end of the loops. *)
Lemma fuse_lists_spec k lists :
  0 <= k -> in_float_range k lists ->
  exists st, fuse_lists k lists empty_state = Return st /\
             loop_inv k (occurrences lists) st.
Proof.
  intros Hk Hrange.
  destruct (fuse_lists_inv k lists empty_state [] (loop_inv_empty k) Hk Hrange)
    as (st & E & H).
  exists st. now split.
Qed.

(** *** The list of triples and its sort *)

Lemma fused_triples_spec (best : dict VectorSearchResult) (scores : dict Float.t) :
  (forall cid, In cid (map fst scores) -> dict_get cid best <> None) ->
  exists fused,
    fused_triples best scores = Return fused /\
    map fst fused = scores /\
    Forall (fun t => dict_get (fst (fst t)) best = Some (snd t)) fused.
Proof.
  induction scores as [|[cid s] rest IH]; intros Hkeys.
  - exists []. repeat split; constructor.
  - cbn [fused_triples].
    destruct (dict_get cid best) as [r|] eqn:Er.
    2: { exfalso. apply (Hkeys cid); [now left|exact Er]. }
    cbn [of_option bind].
    destruct IH as (fused & E & Hmap & Hall).
    { intros c Hc. apply Hkeys. now right. }
    rewrite E. cbn [bind]. exists ((cid, s, r) :: fused).
    split; [reflexivity|]. split; [cbn; now rewrite Hmap|].
    constructor; [exact Er|exact Hall].
Qed.

Lemma insert_desc_perm x l : Permutation (insert_desc x l) (x :: l).
Proof.
  induction l as [|y r IH]; cbn [insert_desc]; [reflexivity|].
  destruct (Float.ltb (snd (fst x)) (snd (fst y))); [|reflexivity].
  rewrite IH. apply perm_swap.
Qed.

Lemma sort_desc_perm l : Permutation (sort_desc l) l.
Proof.
  induction l as [|x r IH]; cbn; [constructor|].
  rewrite insert_desc_perm. now constructor.
Qed.

Lemma insert_desc_sorted x l :
  Float.leb Float.zero (snd (fst x)) = true ->
  Forall (fun t => Float.leb Float.zero (snd (fst t)) = true) l ->
  StronglySorted desc l -> StronglySorted desc (insert_desc x l).
Proof.
  intros Hx Hl Hs. induction Hs as [|y r Hs IH Hall]; cbn [insert_desc].
  - repeat constructor.
  - inversion Hl as [|? ? Hy Hr]; subst.
    destruct (Float.ltb (snd (fst x)) (snd (fst y))) eqn:E.
    + constructor; [now apply IH|].
      apply (Permutation_Forall (x := x :: r)); [symmetry; apply insert_desc_perm|].
      constructor; [|exact Hall]. unfold desc. now apply FloatFacts.ltb_leb.
    + assert (Hyx : desc x y).
      { unfold desc. apply FloatFacts.not_ltb_leb;
          [now apply FloatFacts.nonneg_not_nan|now apply FloatFacts.nonneg_not_nan|exact E]. }
      constructor; [now constructor|]. constructor; [exact Hyx|].
      eapply Forall_impl; [|exact Hall]. intros z Hz. unfold desc in *.
      now apply FloatFacts.leb_trans with (snd (fst y)).
Qed.

Lemma sort_desc_sorted l :
  Forall (fun t => Float.leb Float.zero (snd (fst t)) = true) l ->
  StronglySorted desc (sort_desc l).
Proof.
  induction l as [|x r IH]; intros H; cbn; [constructor|].
  inversion H as [|? ? Hx Hr]; subst.
  apply insert_desc_sorted; [exact Hx| |now apply IH].
  apply (Permutation_Forall (x := r)); [symmetry; apply sort_desc_perm|exact Hr].
Qed.

Lemma in_firstn {A} n (l : list A) x : In x (firstn n l) -> In x l.
Proof.
  intros H. rewrite <- (firstn_skipn n l). apply in_or_app. now left.
Qed.

Lemma Forall_firstn' {A} (P : A -> Prop) (n : nat) (l : list A) :
  Forall P l -> Forall P (firstn n l).
Proof.
  revert n. induction l as [|x r IH]; intros n H; destruct n; simpl; try constructor.
  - now inversion H.
  - inversion H; subst. now apply IH.
Qed.

Lemma StronglySorted_firstn {A} (R : A -> A -> Prop) (n : nat) (l : list A) :
  StronglySorted R l -> StronglySorted R (firstn n l).
Proof.
  revert n. induction l as [|x r IH]; intros n H; destruct n; simpl; try constructor.
  - inversion H; subst. now apply IH.
  - inversion H as [|? ? ? Hall]; subst. now apply Forall_firstn'.
Qed.

Lemma slice_to_firstn {A} (limit : Z) (l : list A) :
  exists n, Py.slice_to limit l = firstn n l.
Proof. unfold Py.slice_to. destruct (0 <=? limit); eexists; reflexivity. Qed.

Lemma slice_to_length {A} (limit : Z) (l : list A) :
  0 <= limit -> Z.of_nat (length (Py.slice_to limit l)) <= limit.
Proof.
  intros H. unfold Py.slice_to.
  destruct (0 <=? limit) eqn:E; [|apply Z.leb_gt in E; lia].
  rewrite length_firstn. lia.
Qed.

(** What the merge returns, in one statement: the loops end in a state that
    satisfies the invariant, the triples are those of that state, and the
    result is the slice of their sort. *)
Lemma rrf_merge_spec k lists :
  0 <= k -> in_float_range k lists ->
  exists st fused,
    fuse_lists k lists empty_state = Return st /\
    loop_inv k (occurrences lists) st /\
    fused_triples (best_result_for_chunk st) (fused_scores st) = Return fused /\
    map fst fused = fused_scores st /\
    Forall (fun t => dict_get (fst (fst t)) (best_result_for_chunk st) = Some (snd t)) fused /\
    forall limit,
      _rrf_merge lists k limit = Return (map snd (Py.slice_to limit (sort_desc fused))).
Proof.
  intros Hk Hrange.
  destruct (fuse_lists_spec k lists Hk Hrange) as (st & Est & Hinv).
  pose proof Hinv as (Hkeys & Hnd & Hscores & Hbest & Hnonneg).
  destruct (fused_triples_spec (best_result_for_chunk st) (fused_scores st))
    as (fused & Ef & Hmap & Hall).
  { intros cid Hc. rewrite <- (dict_get_same_keys cid _ _ Hkeys).
    intros Hnone. apply dict_get_none in Hnone. contradiction. }
  exists st, fused.
  split; [exact Est|]. split; [exact Hinv|]. split; [exact Ef|].
  split; [exact Hmap|]. split; [exact Hall|].
  intros limit. unfold _rrf_merge. rewrite Est. cbn [bind]. rewrite Ef. reflexivity.
Qed.

(** Every triple carries the total of its chunk id, which is not negative,
    and the representative of that id. *)
Lemma triples_good k lists st fused :
  loop_inv k (occurrences lists) st ->
  map fst fused = fused_scores st ->
  Forall (fun t => dict_get (fst (fst t)) (best_result_for_chunk st) = Some (snd t)) fused ->
  Forall (fun t =>
            snd (fst t) = fused_total k (fst (fst t)) lists /\
            Float.leb Float.zero (snd (fst t)) = true /\
            cid_of (snd t) = fst (fst t) /\
            representative lists (snd t)) fused.
Proof.
  intros (Hkeys & Hnd & Hscores & Hbest & Hnonneg) Hmap Hall.
  rewrite Forall_forall in *. intros [[cid s] r] Hin. cbn [fst snd].
  specialize (Hall _ Hin). cbn [fst snd] in Hall.
  assert (Hs : dict_get cid (fused_scores st) = Some s).
  { apply in_dict_get; [exact Hnd|]. rewrite <- Hmap.
    change (cid, s) with (fst (cid, s, r)). now apply in_map. }
  destruct (Hbest _ _ Hall) as (Hc & Hseen & Hmax).
  split; [|split; [|split]].
  - rewrite Hscores in Hs. unfold fused_total, ranks_of.
    destruct (ranks_in cid (occurrences lists)); [discriminate|]. now injection Hs.
  - now apply (Hnonneg cid).
  - exact Hc.
  - rewrite map_snd_occurrences in Hseen, Hmax. split; [exact Hseen|].
    intros r' Hr' Hcid. apply Hmax; [exact Hr'|congruence].
Qed.

(** *** The accumulated totals *)

(** Three single-item lists, [x1] and [x2] with the same chunk id and [y] with
    another: the state at the end of the loops and the merged list. *)
Lemma fuse_three_singletons (k : Z) (x1 x2 y : VectorSearchResult) :
  0 <= k -> k + 1 < 2 ^ 1023 ->
  cid_of x1 = cid_of x2 -> cid_of y <> cid_of x1 ->
  fuse_lists k [[y]; [x1]; [x2]] empty_state
  = Return {| fused_scores :=
                [(cid_of y, contribution k 1);
                 (cid_of x1, Float.add (contribution k 1) (contribution k 1))];
              best_result_for_chunk :=
                [(cid_of y, y);
                 (cid_of x1, if Float.ltb (score x1) (score x2) then x2 else x1)] |}.
Proof.
  intros Hk Hlt Hx Hy.
  destruct (reciprocal_returns (k + 1) ltac:(lia)) as [Hrec (m & e & E & _)].
  cbn [fuse_lists fuse_list]. unfold fuse_item.
  change (0 + 1) with 1. rewrite Hrec. cbn [bind].
  rewrite <- Hx. fold (contribution k 1).
  cbn [empty_state fused_scores best_result_for_chunk dict_get dict_set].
  apply Z.eqb_neq in Hy.
  repeat (rewrite ?Hy, ?Z.eqb_refl; cbn [dict_get dict_set]).
  unfold contribution. rewrite E.
  change (Float.add Float.zero (S754_finite false m e)) with (S754_finite false m e).
  now destruct (Float.ltb (score x1) (score x2)).
Qed.

Lemma contribution_doubles (k : Z) :
  0 <= k -> k + 1 < 2 ^ 1023 ->
  Float.ltb (contribution k 1) (Float.add (contribution k 1) (contribution k 1)) = true /\
  (Float.to_Q (Float.add (contribution k 1) (contribution k 1))
   == 2 * Float.to_Q (contribution k 1))%Q.
Proof.
  intros Hk Hlt.
  destruct (reciprocal_returns (k + 1) ltac:(lia)) as [_ (m & e & E & Hc & He)].
  unfold contribution. rewrite E. split.
  - apply FloatFacts.add_diag_gt; [exact Hc|lia].
  - apply FloatFacts.to_Q_add_diag; [exact Hc|lia].
Qed.



(** C2 as stated fails in two ways.  The totals are binary64 numbers: for two
    single-item lists with the same chunk and [k = 60] the total kept is the
    float [0x1.0c9714fbcda3bp-5], whose value is not the rational [2/61].
    And [k] is not checked: with [k = -1] the first item divides by zero and
    no total is accumulated at all. *)
Lemma rrf_scores_counterexample :
  fuse_lists 60 [[sample_result 7 (9 # 10)]; [sample_result 7 (4 # 5)]] empty_state
  = Return {| fused_scores := [(7, S754_finite false 4725088133634619 (-57))];
              best_result_for_chunk := [(7, sample_result 7 (9 # 10))] |} /\
  Qeq_bool (Float.to_Q (S754_finite false 4725088133634619 (-57))) (2 # 61) = false /\
  _rrf_merge [[sample_result 7 (9 # 10)]] (-1) 10 = Raise ZeroDivisionError.
Proof.
  repeat split; vm_compute; reflexivity.
Qed.

(** Sorted triples that carry the total of the chunk id of their result give
    results sorted by that total. *)
Lemma sorted_results k lists ts :
  StronglySorted desc ts ->
  Forall (fun t => snd (fst t) = fused_total k (cid_of (snd t)) lists) ts ->
  StronglySorted (by_fused_score k lists) (map snd ts).
Proof.
  induction 1 as [|t r Hs IH Hall]; intros HF; cbn [map]; [constructor|].
  inversion HF as [|? ? Ht HF']; subst. constructor; [now apply IH|].
  rewrite Forall_forall in *. intros y Hy. apply in_map_iff in Hy.
  destruct Hy as (u & <- & Hu). unfold by_fused_score.
  rewrite <- Ht, <- (HF' u Hu). now apply Hall.
Qed.

(** *** The merged list *)




End RrfFacts.

(* ================================================================== *)
(** ** Fusion planner *)

Module FusionFacts.
Import Py PyFacts Scenario Fusion.

Lemma add_expansion_head x u item : exists rest, add_expansion (x :: u) item = x :: rest.
Proof.
  unfold add_expansion. destruct (_ && _ && _); simpl; eauto.
Qed.

Lemma fold_add_expansion_head items : forall x u,
  exists rest, fold_left add_expansion items (x :: u) = x :: rest.
Proof.
  induction items as [|item r IH]; intros x u; simpl; [eauto|].
  destruct (add_expansion_head x u item) as [rest ->]. apply IH.
Qed.

Lemma add_expansion_first item :
  add_expansion [] item = if blank item then [] else [strip item].
Proof.
  unfold add_expansion. rewrite truthy_strip. simpl. rewrite andb_true_r.
  destruct (blank item) eqn:B; simpl; [now rewrite andb_false_r|].
  destruct item; [discriminate|reflexivity].
Qed.

Lemma fold_add_expansion_nil items :
  Forall (fun item => blank item = true) items -> fold_left add_expansion items [] = [].
Proof.
  induction 1 as [|item r Hb _ IH]; simpl; [reflexivity|].
  now rewrite add_expansion_first, Hb.
Qed.

Section Planner.

Variable repr : json -> str.
Variable json_loads : str -> option json.
Variable json_dumps : json -> str.
Variables system_prompt fusion_prompt : str.
Variable history_tail : Z.
Variable chat : list message -> outcome json.

Local Abbreviation planner :=
  (plan repr json_loads json_dumps system_prompt fusion_prompt history_tail chat).
Local Abbreviation generate :=
  (_generate_fusion_plan repr json_loads json_dumps system_prompt fusion_prompt
     history_tail chat).

Lemma plan_base_query query history selected_ids p :
  planner query history selected_ids = Return p -> base_query p = query.
Proof.
  unfold plan. intros H.
  repeat (apply ScenarioFacts.bind_return in H; destruct H as [? [_ H]]).
  now injection H as <-.
Qed.

Lemma generate_base_query query history selected_ids :
  base_query (generate query history selected_ids) = query.
Proof.
  unfold _generate_fusion_plan.
  destruct (planner query (Some history) selected_ids) eqn:E; [|reflexivity].
  eapply plan_base_query; eauto.
Qed.

(** A reply whose content is empty or is not valid JSON is read as [{}]: the
    plan has no refinements and no subqueries. *)
Lemma plan_malformed query history selected_ids resp s :
  (forall msgs, chat msgs = Return resp) ->
  message_content resp = Return (JStr s) -> json_loads s = None ->
  exists p, planner query history selected_ids = Return p /\
    base_query p = query /\ refinements p = [] /\ subqueries p = [].
Proof.
  intros Hchat Hc Hl. unfold plan. rewrite Hchat. simpl. rewrite Hc. simpl.
  rewrite Hl. simpl. eexists. split; [reflexivity|]. simpl. auto.
Qed.

(** C4, as the code has it.  A plan whose base query has a character that is
    not whitespace has a non-empty list of expansions, headed by the stripped
    base query; with no refinements and no subqueries the list is the stripped
    base query alone.  The planner keeps the query as the base query whatever
    the completion call does, so its plan for such a query has expansions; an
    empty or malformed reply gives the stripped query as the only one. *)
Theorem expansions_headed_by_stripped_base_query
    (query : str) (history : list message) (selected_ids : option (list Z)) :
  blank query = false ->
  (forall p, base_query p = query ->
     exists rest, expansions p = strip query :: rest) /\
  (forall p, base_query p = query -> refinements p = [] -> subqueries p = [] ->
     expansions p = [strip query]) /\
  (exists rest, expansions (generate query history selected_ids) = strip query :: rest) /\
  (forall resp s,
     (forall msgs, chat msgs = Return resp) ->
     message_content resp = Return (JStr s) -> json_loads s = None ->
     expansions (generate query history selected_ids) = [strip query]).
Proof.
  intros Hq.
  assert (H1 : forall p, base_query p = query ->
             exists rest, expansions p = strip query :: rest).
  { intros p Hp. unfold expansions. simpl. rewrite add_expansion_first, Hp, Hq.
    apply fold_add_expansion_head. }
  assert (H2 : forall p, base_query p = query -> refinements p = [] -> subqueries p = [] ->
             expansions p = [strip query]).
  { intros p Hp Hr Hs. unfold expansions. rewrite Hr, Hs. simpl.
    now rewrite add_expansion_first, Hp, Hq. }
  split; [exact H1|]. split; [exact H2|]. split.
  - apply H1, generate_base_query.
  - intros resp s Hchat Hc Hl. unfold _generate_fusion_plan.
    destruct (plan_malformed query (Some history) selected_ids resp s Hchat Hc Hl)
      as [p [-> [Hb [Hr Hs]]]].
    now apply H2.
Qed.

End Planner.

(** The theorem at the query " договор " answered by a reply that is not
    JSON: the only expansion is "договор". *)
Lemma expansions_headed_by_stripped_base_query_witness :
  expansions (sample_plan (fun _ => Return (reply_with (lit "not json"))) (lit " договор "))
    = [lit "договор"].
Proof.
  destruct (@expansions_headed_by_stripped_base_query sample_repr sample_loads sample_dumps
              (lit "system") (lit "fusion") 5
              (fun _ => Return (reply_with (lit "not json")))
              (lit " договор ") [] None eq_refl) as [_ [_ [_ H]]].
  exact (H (reply_with (lit "not json")) (lit "not json") (fun _ => eq_refl) eq_refl eq_refl).
Defined.

(** C4 as stated fails for a blank query: with a base query of three spaces
    and a reply that is not JSON (or a failed completion call) the plan has no
    expansions at all; and where there is one, it is the stripped query, not
    the base query itself. *)
Lemma expansions_empty_counterexample :
  expansions (sample_plan (fun _ => Return (reply_with (lit "not json"))) (lit "   ")) = [] /\
  expansions (sample_plan (fun _ => Raise (TransportError 503)) []) = [] /\
  expansions (sample_plan (fun _ => Return (reply_with (lit "not json"))) (lit " договор "))
    <> [lit " договор "].
Proof.
  split; [vm_compute; reflexivity|]. split; [vm_compute; reflexivity|].
  vm_compute. discriminate.
Qed.

End FusionFacts.

(* ================================================================== *)
(** ** Parallel tool executor *)

Module ExecutorFacts.
Import Py PyFacts Executor.

(** *** String-keyed dictionaries *)

Section SDict.
Context {V : Type}.
Implicit Types (d : sdict V) (v : V) (key : str).

Lemma assoc_none key d : J.assoc key d = None <-> ~ In key (keys d).
Proof.
  induction d as [|[k x] r IH]; simpl; [tauto|].
  destruct (str_eqb key k) eqn:E.
  - apply str_eqb_eq in E. split; [discriminate|]. intros H. exfalso. apply H. now left.
  - apply str_eqb_neq in E. rewrite IH. split.
    + intros H [Hk|Hr]; [congruence|contradiction].
    + intros H Hr. apply H. now right.
Qed.

Lemma assoc_in key v d : J.assoc key d = Some v -> In (key, v) d.
Proof.
  induction d as [|[k x] r IH]; simpl; [discriminate|].
  destruct (str_eqb key k) eqn:E.
  - apply str_eqb_eq in E. intros [= ->]. left. now subst.
  - intros H. right. auto.
Qed.

Lemma in_assoc {key v d} : NoDup (keys d) -> In (key, v) d -> J.assoc key d = Some v.
Proof.
  induction d as [|[k x] r IH]; simpl; [tauto|].
  intros Hnd [H|H].
  - injection H as -> ->. now rewrite str_eqb_refl.
  - inversion Hnd as [|? ? Hnotin Hnd']; subst.
    destruct (str_eqb key k) eqn:E.
    + apply str_eqb_eq in E. subst k. exfalso. apply Hnotin.
      change key with (fst (key, v)). now apply in_map.
    + auto.
Qed.

Lemma in_keys key d : In key (keys d) <-> exists v, In (key, v) d.
Proof.
  unfold keys. rewrite in_map_iff. split.
  - intros [[k v] [<- H]]. eauto.
  - intros [v H]. exists (key, v). auto.
Qed.

Lemma assoc_sset_same key v d : J.assoc key (sset key v d) = Some v.
Proof.
  induction d as [|[k x] r IH]; simpl.
  - now rewrite str_eqb_refl.
  - destruct (str_eqb key k) eqn:E; simpl; rewrite E; auto.
Qed.

Lemma assoc_sset_other key key' v d :
  key <> key' -> J.assoc key' (sset key v d) = J.assoc key' d.
Proof.
  intros Hne. induction d as [|[k x] r IH]; simpl.
  - destruct (str_eqb key' key) eqn:E; [apply str_eqb_eq in E; congruence|reflexivity].
  - destruct (str_eqb key k) eqn:E; simpl.
    + apply str_eqb_eq in E. subst k.
      destruct (str_eqb key' key) eqn:E'; [apply str_eqb_eq in E'; congruence|reflexivity].
    + destruct (str_eqb key' k); auto.
Qed.

Lemma keys_sset key v d :
  keys (sset key v d) =
  match J.assoc key d with Some _ => keys d | None => keys d ++ [key] end.
Proof.
  induction d as [|[k x] r IH]; simpl; [reflexivity|].
  destruct (str_eqb key k) eqn:E; simpl; [reflexivity|].
  unfold keys in *. rewrite IH. now destruct (J.assoc key r).
Qed.

Lemma nodup_app_one (l : list str) key : NoDup l -> ~ In key l -> NoDup (l ++ [key]).
Proof.
  intros H Hn. apply NoDup_rev in H. rewrite <- (rev_involutive (l ++ [key])).
  apply NoDup_rev. rewrite rev_app_distr. simpl. constructor; [|exact H].
  now rewrite <- in_rev.
Qed.

Lemma nodup_sset key v d : NoDup (keys d) -> NoDup (keys (sset key v d)).
Proof.
  intros H. rewrite keys_sset. destruct (J.assoc key d) eqn:E; [exact H|].
  apply nodup_app_one; [exact H|]. now apply assoc_none.
Qed.

(** On a dictionary, deleting a key filters its entry out. *)
Lemma sdel_filter key d :
  NoDup (keys d) -> sdel key d = filter (fun p => negb (str_eqb key (fst p))) d.
Proof.
  induction d as [|[k x] r IH]; simpl; [reflexivity|].
  intros Hnd. inversion Hnd as [|? ? Hnotin Hnd']; subst.
  destruct (str_eqb key k) eqn:E; simpl.
  - apply str_eqb_eq in E. subst k. symmetry. apply forallb_filter_id.
    apply forallb_forall. intros [k v] Hin. simpl.
    apply negb_true_iff, str_eqb_neq. intros ->.
    apply Hnotin. change k with (fst (k, v)). now apply in_map.
  - now rewrite IH.
Qed.

Lemma keys_filter (f : str -> bool) d :
  keys (filter (fun p => f (fst p)) d) = filter f (keys d).
Proof.
  induction d as [|[k x] r IH]; simpl; [reflexivity|].
  destruct (f k); simpl; unfold keys in *; now rewrite IH.
Qed.

Lemma nodup_filter_keys (f : str * V -> bool) d : NoDup (keys d) -> NoDup (keys (filter f d)).
Proof.
  induction d as [|[k x] r IH]; simpl; [auto|].
  intros Hnd. inversion Hnd as [|? ? Hnotin Hnd']; subst.
  destruct (f (k, x)); simpl; [|auto].
  constructor; [|auto]. intros Hin. apply Hnotin.
  apply in_keys in Hin. destruct Hin as [v Hin]. apply filter_In in Hin.
  apply in_keys. exists v. tauto.
Qed.

(** The dictionary built from a list of items. *)
Lemma fold_sset_nodup (items : list (str * V)) : forall d,
  NoDup (keys d) ->
  NoDup (keys (fold_left (fun d kv => sset (fst kv) (snd kv) d) items d)).
Proof.
  induction items as [|[k v] r IH]; intros d Hnd; simpl; [exact Hnd|].
  apply IH. now apply nodup_sset.
Qed.

Lemma dict_of_nodup (items : list (str * V)) : NoDup (keys (dict_of items)).
Proof. apply fold_sset_nodup. constructor. Qed.

Lemma sset_fresh key v d : ~ In key (keys d) -> sset key v d = d ++ [(key, v)].
Proof.
  induction d as [|[k x] r IH]; simpl; [reflexivity|].
  intros Hn. destruct (str_eqb key k) eqn:E.
  - apply str_eqb_eq in E. subst. exfalso. apply Hn. now left.
  - rewrite IH; [reflexivity|]. intros H. apply Hn. now right.
Qed.

Lemma fold_sset_distinct (items : list (str * V)) : forall d,
  NoDup (keys d ++ map fst items) ->
  fold_left (fun d kv => sset (fst kv) (snd kv) d) items d = d ++ items.
Proof.
  induction items as [|[k v] r IH]; intros d Hnd; simpl.
  - now rewrite app_nil_r.
  - rewrite sset_fresh.
    + rewrite IH.
      * now rewrite <- app_assoc.
      * unfold keys in *. rewrite map_app. simpl. rewrite <- app_assoc. exact Hnd.
    + simpl in Hnd. apply NoDup_remove_2 in Hnd. intros H. apply Hnd.
      apply in_or_app. now left.
Qed.

(** Items with pairwise distinct keys are their own dictionary. *)
Lemma dict_of_distinct (items : list (str * V)) :
  NoDup (map fst items) -> dict_of items = items.
Proof.
  intros H. unfold dict_of. now rewrite fold_sset_distinct.
Qed.

Lemma fold_sset_keys (items : list (str * V)) : forall d key,
  In key (keys (fold_left (fun d kv => sset (fst kv) (snd kv) d) items d))
  <-> In key (keys d) \/ In key (map fst items).
Proof.
  induction items as [|[k v] r IH]; intros d key; simpl; [tauto|].
  rewrite IH, keys_sset. destruct (J.assoc k d) eqn:E.
  - apply assoc_in, (in_map fst) in E. simpl in E. split; [tauto|].
    intros [H|[<-|H]]; auto.
  - rewrite in_app_iff. simpl. tauto.
Qed.

(** The value kept for a key is that of its last item. *)
Lemma fold_sset_last (items : list (str * V)) : forall d key v,
  J.assoc key (fold_left (fun d kv => sset (fst kv) (snd kv) d) items d) = Some v ->
  In (key, v) items \/ (J.assoc key d = Some v /\ ~ In key (map fst items)).
Proof.
  induction items as [|[k x] r IH]; intros d key v; simpl; [auto|].
  intros H. apply IH in H. destruct H as [H|[H Hn]]; [auto|].
  destruct (list_eq_dec N.eq_dec k key) as [->|Hne].
  - rewrite assoc_sset_same in H. injection H as ->. auto.
  - rewrite assoc_sset_other in H by exact Hne. right. split; [exact H|].
    intros [Hk|Hr]; auto.
Qed.

End SDict.

(** *** Retry with backoff *)

Lemma attempts_trace_step name args first k :
  attempts_trace name args first (S (S k)) =
  Attempt name args first :: Sleep (2 ^ first) :: attempts_trace name args (first + 1) (S k).
Proof. reflexivity. Qed.

Lemma attempts_of_attempts_trace name args k : forall first,
  attempts_of name (attempts_trace name args first k) = k.
Proof.
  unfold attempts_of. induction k as [|[|k] IH]; intros first.
  - reflexivity.
  - simpl. now rewrite str_eqb_refl.
  - rewrite attempts_trace_step. cbn [filter]. rewrite str_eqb_refl.
    cbn [length]. now rewrite IH.
Qed.

Lemma sleeps_attempts_trace name args k : forall first,
  sleeps (attempts_trace name args first k)
  = map (fun i => 2 ^ (first + Z.of_nat i)) (seq 0 (k - 1)).
Proof.
  induction k as [|[|k] IH]; intros first.
  - reflexivity.
  - reflexivity.
  - rewrite attempts_trace_step. cbn [sleeps flat_map app]. fold (sleeps).
    change (flat_map _ (attempts_trace name args (first + 1) (S k)))
      with (sleeps (attempts_trace name args (first + 1) (S k))).
    rewrite IH. replace (S (S k) - 1)%nat with (S (S k - 1)) by lia.
    cbn [seq map]. rewrite Z.add_0_r. f_equal.
    rewrite <- seq_shift, map_map. apply map_ext. intros i. f_equal. lia.
Qed.

Section Retry.

Context {World : Type}.
Variable registry : sdict (@handler World).
Variable max_retries : Z.

Lemma retry_from_shape n : forall attempt last ex (st : @state World),
  Z.of_nat n + attempt = max_retries + 1 ->
  exists k, (k <= n)%nat /\ (n <> O -> k <> O) /\
    trace (snd (retry_from registry max_retries n attempt last ex st))
      = trace st ++ attempts_trace (tool_name ex) (arguments ex) attempt k /\
    (forall e, fst (retry_from registry max_retries n attempt last ex st) = Raise e -> k = n).
Proof.
  induction n as [|n IH]; intros attempt last ex st Hn.
  - exists O. simpl. rewrite app_nil_r. repeat split; auto; lia.
  - cbn [retry_from].
    destruct (registry_execute registry (tool_name ex) (arguments ex)
                (world (log (Attempt (tool_name ex) (arguments ex) attempt) st)))
      as [[res|exc] w] eqn:E.
    + exists 1%nat. simpl. repeat split; try lia. discriminate.
    + destruct n as [|n].
      * exists 1%nat. simpl.
        assert (Hlt : (attempt <? max_retries) = false) by (apply Z.ltb_ge; lia).
        rewrite Hlt. simpl. repeat split; auto; lia.
      * assert (Hlt : (attempt <? max_retries) = true) by (apply Z.ltb_lt; lia).
        rewrite Hlt.
        match goal with |- context [retry_from _ _ _ _ _ _ ?s] => set (st2 := s) end.
        destruct (IH (attempt + 1) (Some exc) ex st2 ltac:(lia))
          as [k [Hk [Hnz [Htr Hraise]]]].
        destruct k as [|k]; [exfalso; apply Hnz; auto|].
        exists (S (S k)). repeat split; try lia.
        -- rewrite Htr, attempts_trace_step. subst st2. simpl.
           rewrite <- !app_assoc. reflexivity.
        -- intros e He. now rewrite (Hraise e He).
Qed.

(** C6.  A run of [_execute_with_retry] makes [k] attempts, [k] at most
    [max_retries + 1], and all of them when it ends in an exception.  Its
    events are attempt 0, then for each further attempt a sleep of
    [2^attempt] seconds (attempt being the one that has just failed) followed
    by that attempt: no sleep comes before the first attempt or after the
    last.  With [max_retries = 2], a tool that fails twice and then succeeds
    returns its result after the sleeps 1 and 2. *)
Theorem retry_attempts_and_backoff (ex : ToolExecution) (st : @state World) :
  (exists k tr,
     trace (snd (_execute_with_retry registry max_retries ex st)) = trace st ++ tr /\
     tr = attempts_trace (tool_name ex) (arguments ex) 0 k /\
     attempts_of (tool_name ex) tr = k /\
     (k <= Z.to_nat (max_retries + 1))%nat /\
     sleeps tr = map (fun i => 2 ^ Z.of_nat i) (seq 0 (k - 1)) /\
     (forall e, fst (_execute_with_retry registry max_retries ex st) = Raise e ->
        k = Z.to_nat (max_retries + 1))) /\
  _execute_with_retry sample_registry 2 (sample_execution "flaky" []) start
    = (Return (ok_result 1),
       {| world := 3%nat;
          trace := [ Attempt (lit "flaky") (JObj []) 0; Sleep 1;
                     Attempt (lit "flaky") (JObj []) 1; Sleep 2;
                     Attempt (lit "flaky") (JObj []) 2 ] |}).
Proof.
  split; [|vm_compute; reflexivity].
  unfold _execute_with_retry.
  destruct (Z.le_gt_cases 0 (max_retries + 1)) as [Hpos|Hneg].
  - destruct (retry_from_shape (Z.to_nat (max_retries + 1)) 0 None ex st ltac:(lia))
      as [k [Hk [_ [Htr Hraise]]]].
    exists k, (attempts_trace (tool_name ex) (arguments ex) 0 k).
    repeat split; auto.
    + apply attempts_of_attempts_trace.
    + rewrite sleeps_attempts_trace. apply map_ext. intros i. reflexivity.
  - replace (Z.to_nat (max_retries + 1)) with O by lia.
    exists O, []. simpl. rewrite app_nil_r. repeat split; auto.
Qed.

End Retry.

(** *** The store of executions *)

Lemma length_update_at i f store : length (update_at i f store) = length store.
Proof.
  revert i. induction store as [|ex r IH]; intros [|i]; simpl; auto.
Qed.

Lemma exec_at_update_same i f store :
  (i < length store)%nat -> exec_at (update_at i f store) i = f (exec_at store i).
Proof.
  unfold exec_at. revert i. induction store as [|ex r IH]; intros [|i] H; simpl in *;
    try lia; auto.
  apply IH. lia.
Qed.

Lemma exec_at_update_other i j f store :
  i <> j -> exec_at (update_at i f store) j = exec_at store j.
Proof.
  unfold exec_at. revert i j. induction store as [|ex r IH]; intros [|i] [|j] H; simpl;
    try congruence; auto.
Qed.

Lemma same_fields_refl a : same_fields a a.
Proof. repeat split. Qed.

Lemma same_fields_trans a b c : same_fields a b -> same_fields b c -> same_fields a c.
Proof. unfold same_fields. intuition congruence. Qed.

Lemma same_fields_update i j f store :
  (forall ex, same_fields (f ex) ex) ->
  same_fields (exec_at (update_at i f store) j) (exec_at store j).
Proof.
  intros Hf. destruct (Nat.eq_dec i j) as [<-|Hne].
  - destruct (Nat.lt_ge_cases i (length store)) as [Hlt|Hge].
    + rewrite exec_at_update_same by exact Hlt. apply Hf.
    + unfold exec_at. rewrite !nth_overflow; [apply same_fields_refl| |]; try lia.
      rewrite length_update_at. lia.
  - rewrite exec_at_update_other by exact Hne. apply same_fields_refl.
Qed.

Lemma set_error_fields e ex : same_fields (set_error e ex) ex.
Proof. repeat split. Qed.

Lemma set_result_fields r ex : same_fields (set_result r ex) ex.
Proof. repeat split. Qed.

(** *** One wave *)

Lemma str_eqb_sym (a b : str) : str_eqb a b = str_eqb b a.
Proof.
  destruct (str_eqb a b) eqn:E; symmetry.
  - apply str_eqb_eq in E. subst. apply str_eqb_refl.
  - apply str_eqb_neq. apply str_eqb_neq in E. congruence.
Qed.

Lemma mem_in (x : str) (xs : list str) : mem x xs = true <-> In x xs.
Proof.
  unfold mem. rewrite existsb_exists. split.
  - intros [y [Hy E]]. apply str_eqb_eq in E. now subst.
  - intros H. exists x. split; [exact H|apply str_eqb_refl].
Qed.

Lemma without_cons n names pending :
  without (n :: names) pending = without names (without [n] pending).
Proof.
  unfold without. induction pending as [|[k i] r IH]; [reflexivity|].
  cbn [filter fst].
  change (mem k (n :: names)) with (str_eqb k n || mem k names).
  change (mem k [n]) with (str_eqb k n || false). rewrite orb_false_r.
  destruct (str_eqb k n); cbn [negb orb filter fst]; [exact IH|].
  destruct (mem k names); cbn [negb]; now rewrite IH.
Qed.

Lemma without_nil pending : without [] pending = pending.
Proof. unfold without. simpl. apply filter_true. Qed.

Lemma in_without n i names pending :
  In (n, i) (without names pending) <-> In (n, i) pending /\ ~ In n names.
Proof.
  unfold without. rewrite filter_In. simpl. rewrite negb_true_iff.
  split; intros [H1 H2]; split; auto.
  - intros H. apply mem_in in H. congruence.
  - destruct (mem n names) eqn:E; [apply mem_in in E; contradiction|reflexivity].
Qed.

Lemma in_keys_without n names pending :
  In n (keys (without names pending)) <-> In n (keys pending) /\ ~ In n names.
Proof.
  rewrite !in_keys. split.
  - intros [i H]. apply in_without in H. destruct H. eauto.
  - intros [[i H] Hn]. exists i. apply in_without. auto.
Qed.

Section Waves.

Variable store0 : list ToolExecution.
Variable pending0 : sdict nat.

Local Abbreviation WF := (well_formed store0 pending0).

(** Two pending names are held at different positions. *)
Lemma positions_differ {ps n i n' i'} :
  WF ps -> In (n, i) pending0 -> In (n', i') pending0 -> n' <> n -> i' <> i.
Proof.
  intros Hwf H1 H2 Hne ->.
  destruct (wf_named0 Hwf _ _ H1) as [_ E1]. destruct (wf_named0 Hwf _ _ H2) as [_ E2].
  congruence.
Qed.

Lemma process_result_spec {ps n i} r :
  WF ps -> In (n, i) (pending ps) ->
  exists ps', process_result ps (n, r) = Return ps' /\ WF ps' /\
    pending ps' = without [n] (pending ps) /\
    completed ps' = completed ps ++ [n] /\
    recorded_as ps' n i r /\
    (forall n' i' r', n' <> n -> In (n', i') pending0 ->
       recorded_as ps n' i' r' -> recorded_as ps' n' i' r').
Proof.
  intros Hwf Hin.
  assert (Hassoc : J.assoc n (pending ps) = Some i) by (apply in_assoc; [apply Hwf|exact Hin]).
  assert (Hin0 : In (n, i) pending0) by (now apply (wf_sub Hwf)).
  destruct (wf_named0 Hwf _ _ Hin0) as [Hrange Hname].
  assert (Hkey : In n (keys (pending ps))) by (apply in_keys; eauto).
  destruct (wf_fresh Hwf _ Hkey) as [Hnc Hnr].
  assert (Hmem : mem n (completed ps) = false).
  { destruct (mem n (completed ps)) eqn:E; [apply mem_in in E; contradiction|reflexivity]. }
  assert (Hdel : sdel n (pending ps) = without [n] (pending ps)).
  { rewrite sdel_filter by apply Hwf. unfold without. apply filter_ext.
    intros [k j]. simpl. now rewrite orb_false_r, str_eqb_sym. }
  unfold process_result. rewrite Hassoc. simpl.
  eexists. split; [reflexivity|].
  destruct r as [res|e]; simpl; rewrite Hmem, Hdel.
  - (* a result *)
    split; [|split; [reflexivity|split; [reflexivity|split]]].
    + constructor; simpl; try apply Hwf.
      * intros n' i' H. apply in_without in H. apply (wf_sub Hwf). tauto.
      * unfold without. apply nodup_filter_keys. apply Hwf.
      * intros n' H. apply in_keys_without in H. destruct H as [H Hne].
        destruct (wf_fresh Hwf _ H) as [Hc Hr]. split.
        -- rewrite in_app_iff. simpl in Hne |- *. tauto.
        -- rewrite assoc_sset_other; [exact Hr|]. intros ->. apply Hne. now left.
      * rewrite length_update_at. apply Hwf.
      * intros j. eapply same_fields_trans; [|apply (wf_same Hwf)].
        apply same_fields_update, set_result_fields.
      * apply nodup_sset. apply Hwf.
      * intros n' H. rewrite keys_sset, Hnr, in_app_iff in H. destruct H as [H|[<-|[]]].
        -- now apply (wf_known Hwf).
        -- apply in_keys. eauto.
    + simpl. rewrite assoc_sset_same, exec_at_update_same; [auto|].
      rewrite (wf_length Hwf). exact Hrange.
    + intros n' i' r' Hne Hin' Hrec.
      assert (Hi : i <> i').
      { intros ->. now apply (positions_differ Hwf Hin0 Hin' Hne). }
      destruct r'; simpl in *; rewrite assoc_sset_other, exec_at_update_other; auto.
  - (* an exception *)
    split; [|split; [reflexivity|split; [reflexivity|split]]].
    + constructor; simpl; try apply Hwf.
      * intros n' i' H. apply in_without in H. apply (wf_sub Hwf). tauto.
      * unfold without. apply nodup_filter_keys. apply Hwf.
      * intros n' H. apply in_keys_without in H. destruct H as [H Hne].
        destruct (wf_fresh Hwf _ H) as [Hc Hr]. split; [|exact Hr].
        rewrite in_app_iff. simpl in Hne |- *. tauto.
      * rewrite length_update_at. apply Hwf.
      * intros j. eapply same_fields_trans; [|apply (wf_same Hwf)].
        apply same_fields_update, set_error_fields.
    + simpl. rewrite exec_at_update_same; [auto|].
      rewrite (wf_length Hwf). exact Hrange.
    + intros n' i' r' Hne Hin' Hrec.
      assert (Hi : i <> i').
      { intros ->. now apply (positions_differ Hwf Hin0 Hin' Hne). }
      destruct r'; simpl in *; rewrite exec_at_update_other; auto.
Qed.

Lemma process_results_spec outs : forall ps,
  WF ps -> NoDup (map fst outs) ->
  (forall n, In n (map fst outs) -> In n (keys (pending ps))) ->
  exists ps', process_results ps outs = Return ps' /\ WF ps' /\
    pending ps' = without (map fst outs) (pending ps) /\
    completed ps' = completed ps ++ map fst outs /\
    (forall n r i, In (n, r) outs -> In (n, i) (pending ps) -> recorded_as ps' n i r) /\
    (forall n' i' r', ~ In n' (map fst outs) -> In (n', i') pending0 ->
       recorded_as ps n' i' r' -> recorded_as ps' n' i' r').
Proof.
  induction outs as [|[n r] rest IH]; intros ps Hwf Hnd Hsub.
  - exists ps. simpl. rewrite without_nil, app_nil_r.
    split; [reflexivity|]. split; [exact Hwf|]. split; [reflexivity|].
    split; [reflexivity|]. split; [intros ? ? ? []|auto].
  - cbn [map fst] in Hnd, Hsub |- *. cbn [process_results].
    inversion Hnd as [|? ? Hnotin Hnd']; subst.
    destruct (proj1 (in_keys n (pending ps)) (Hsub n (or_introl eq_refl))) as [i Hi].
    destruct (process_result_spec r Hwf Hi) as (ps1 & E1 & Hwf1 & Hp1 & Hc1 & Hrec1 & Hframe1).
    rewrite E1. cbn [bind].
    destruct (IH ps1 Hwf1 Hnd') as (ps2 & E2 & Hwf2 & Hp2 & Hc2 & Hrec2 & Hframe2).
    { intros n' Hn'. rewrite Hp1. apply in_keys_without. split.
      - apply Hsub. now right.
      - intros [<-|[]]. contradiction. }
    exists ps2. split; [exact E2|]. split; [exact Hwf2|].
    split; [now rewrite Hp2, Hp1, <- without_cons|].
    split; [now rewrite Hc2, Hc1, <- app_assoc|]. split.
    + intros n' r' i' [H|H] Hin'.
      * injection H as <- <-.
        assert (i' = i).
        { assert (A1 := in_assoc (wf_nodup Hwf) Hi).
          assert (A2 := in_assoc (wf_nodup Hwf) Hin'). congruence. }
        subst i'. apply Hframe2; auto. apply (wf_sub Hwf). exact Hi.
      * apply Hrec2; [exact H|]. rewrite Hp1. apply in_without. split; [exact Hin'|].
        intros [<-|[]]. apply Hnotin. change n with (fst (n, r')). now apply in_map.
    + intros n' i' r' Hn' Hin' Hrec. simpl in Hn'.
      apply Hframe2; [tauto|exact Hin'|].
      apply Hframe1; auto.
Qed.

Lemma length_without_le names (pending : sdict nat) :
  (length (without names pending) <= length pending)%nat.
Proof.
  unfold without. induction pending as [|p r IH]; simpl; [lia|].
  destruct (negb _); simpl; lia.
Qed.

Lemma length_without_lt names (pending : sdict nat) n :
  In n names -> In n (keys pending) ->
  (length (without names pending) < length pending)%nat.
Proof.
  intros Hn. unfold without. induction pending as [|[k i] r IH]; simpl; [tauto|].
  intros [<-|H].
  - apply mem_in in Hn. rewrite Hn. simpl.
    pose proof (length_without_le names r) as Hle. unfold without in Hle. lia.
  - specialize (IH H). destruct (negb _); simpl; lia.
Qed.

(** Under the invariant the ready executions are those of the ready entries,
    under their own names. *)
Lemma ready_tasks_of (ps : plan_state) (l : sdict nat) :
  WF ps -> (forall n i, In (n, i) l -> In (n, i) pending0) ->
  map (fun ex => (tool_name ex, ex))
      (filter (deps_met (completed ps)) (map (fun p => exec_at (store ps) (snd p)) l))
  = map (fun p => (fst p, exec_at (store ps) (snd p)))
        (ready_entries store0 (completed ps) l).
Proof.
  intros Hwf. unfold ready_entries. induction l as [|[n i] r IH]; intros Hsub;
    [reflexivity|].
  cbn [map filter snd fst].
  destruct (wf_same Hwf i) as (Hname & _ & Hdeps).
  destruct (wf_named0 Hwf n i (Hsub n i (or_introl eq_refl))) as [_ Hn0].
  assert (Hmet : deps_met (completed ps) (exec_at (store ps) i)
                 = deps_met (completed ps) (exec_at store0 i)).
  { unfold deps_met. now rewrite Hdeps. }
  rewrite Hmet. destruct (deps_met (completed ps) (exec_at store0 i)); cbn [map fst snd].
  - rewrite IH by (intros; apply Hsub; now right). now rewrite Hname, Hn0.
  - apply IH. intros; apply Hsub; now right.
Qed.

Lemma ready_tasks (ps : plan_state) :
  WF ps ->
  dict_of (map (fun ex => (tool_name ex, ex)) (ready_executions ps))
  = map (fun p => (fst p, exec_at (store ps) (snd p)))
        (ready_entries store0 (completed ps) (pending ps)).
Proof.
  intros Hwf. unfold ready_executions.
  rewrite (ready_tasks_of ps (pending ps) Hwf (wf_sub Hwf)). apply dict_of_distinct.
  rewrite map_map. cbn [fst]. unfold ready_entries.
  apply (nodup_filter_keys _ _ (wf_nodup Hwf)).
Qed.

Lemma ready_none (ps : plan_state) :
  WF ps ->
  (ready_executions ps = [] <-> ready_entries store0 (completed ps) (pending ps) = []).
Proof.
  intros Hwf. unfold ready_executions.
  pose proof (ready_tasks_of ps (pending ps) Hwf (wf_sub Hwf)) as H. split; intros E.
  - rewrite E in H. simpl in H. symmetry in H. now apply map_eq_nil in H.
  - rewrite E in H. simpl in H. now apply map_eq_nil in H.
Qed.

End Waves.

Section Plan.

Context {World : Type}.
Variable registry : sdict (@handler World).
Variable max_retries : Z.
Variable store0 : list ToolExecution.
Variable pending0 : sdict nat.

Local Abbreviation WF := (well_formed store0 pending0).
Local Abbreviation bound := (Z.to_nat (max_retries + 1)).

Lemma retry_run_spec (ex : ToolExecution) (st : @state World) :
  exists k,
    trace (snd (_execute_with_retry registry max_retries ex st))
      = trace st ++ attempts_trace (tool_name ex) (arguments ex) 0 k /\
    run_bounds bound (ex, k, fst (_execute_with_retry registry max_retries ex st)).
Proof.
  unfold _execute_with_retry, run_bounds. cbn [fst snd].
  destruct (Z.le_gt_cases 0 (max_retries + 1)) as [Hpos|Hneg].
  - destruct (retry_from_shape registry max_retries bound 0 None ex st ltac:(lia))
      as [k [Hk [Hnz [Htr Hraise]]]].
    exists k. auto.
  - replace bound with O by lia. exists O. simpl. rewrite app_nil_r.
    repeat split; auto.
Qed.

Lemma gather_spec (tasks : sdict ToolExecution) : forall (st : @state World),
  exists runs,
    map (fun r => fst (fst r)) runs = map snd tasks /\
    map fst (fst (gather registry max_retries tasks st)) = keys tasks /\
    (forall ex k r, In (ex, k, r) runs ->
       exists n, In (n, ex) tasks /\ In (n, r) (fst (gather registry max_retries tasks st))) /\
    trace (snd (gather registry max_retries tasks st)) = trace st ++ runs_trace runs /\
    Forall (run_bounds bound) runs.
Proof.
  induction tasks as [|[n ex] rest IH]; intros st.
  - exists []. simpl. rewrite app_nil_r.
    split; [reflexivity|]. split; [reflexivity|]. split; [intros ? ? ? []|].
    split; [reflexivity|constructor].
  - cbn [gather].
    destruct (retry_run_spec ex st) as [k [Htr Hb]].
    destruct (_execute_with_retry registry max_retries ex st) as [r st1] eqn:E1.
    destruct (IH st1) as (runs & Hex & Hkeys & Hin & Htr' & Hbs).
    destruct (gather registry max_retries rest st1) as [outs st2] eqn:E2.
    cbn [fst snd] in *.
    exists ((ex, k, r) :: runs). cbn [map fst snd keys]. split; [now rewrite Hex|].
    split; [unfold keys in Hkeys; now rewrite Hkeys|]. split; [|split].
    + intros ex' k' r' [H|H].
      * injection H as <- <- <-. exists n. split; now left.
      * destruct (Hin _ _ _ H) as [n' [H1 H2]]. exists n'. split; now right.
    + rewrite Htr', Htr. unfold runs_trace. cbn [flat_map fst snd].
      now rewrite <- app_assoc.
    + constructor; auto.
Qed.

(** The three ways a turn of the loop can go. *)
Lemma run_waves_done fuel (ps : plan_state) (st : @state World) :
  pending ps = [] ->
  run_waves registry max_retries fuel ps st
  = Some {| returned := Return (results ps); final := ps; state_after := st |}.
Proof. intros E. destruct fuel; simpl; now rewrite E. Qed.

Lemma run_waves_stuck fuel (ps : plan_state) (st : @state World) :
  pending ps <> [] -> ready_executions ps = [] ->
  run_waves registry max_retries (S fuel) ps st
  = Some {| returned := Raise CircularDependency; final := ps; state_after := st |}.
Proof.
  intros Hp Hr. simpl. destruct (pending ps); [contradiction|]. now rewrite Hr.
Qed.

Lemma run_waves_step fuel (ps : plan_state) (st : @state World) :
  pending ps <> [] -> ready_executions ps <> [] ->
  run_waves registry max_retries (S fuel) ps st
  = let tasks := dict_of (map (fun ex => (tool_name ex, ex)) (ready_executions ps)) in
    match process_results ps (fst (gather registry max_retries tasks st)) with
    | Raise e => Some {| returned := Raise e; final := ps;
                         state_after := snd (gather registry max_retries tasks st) |}
    | Return ps' =>
        run_waves registry max_retries fuel ps' (snd (gather registry max_retries tasks st))
    end.
Proof.
  intros Hp Hr. cbn [run_waves]. destruct (pending ps); [contradiction|].
  destruct (ready_executions ps) eqn:E; [contradiction|]. cbv zeta.
  now destruct (gather registry max_retries _ st).
Qed.

Lemma schedule_done fuel store pending completed :
  pending = [] -> schedule fuel store pending completed = Some ([], true).
Proof. intros ->. now destruct fuel. Qed.

Lemma schedule_stuck fuel store pending completed :
  pending <> [] -> ready_entries store completed pending = [] ->
  schedule (S fuel) store pending completed = Some ([], false).
Proof.
  intros Hp Hr. simpl. destruct pending; [contradiction|]. now rewrite Hr.
Qed.

Lemma schedule_step fuel store pending completed :
  pending <> [] -> ready_entries store completed pending <> [] ->
  schedule (S fuel) store pending completed
  = let names := keys (ready_entries store completed pending) in
    match schedule fuel store (without names pending) (completed ++ names) with
    | Some (waves, ok) => Some (names :: waves, ok)
    | None => None
    end.
Proof.
  intros Hp Hr. cbn [schedule]. destruct pending as [|p rest]; [contradiction|].
  now destruct (ready_entries store completed (p :: rest)) eqn:E; [contradiction|].
Qed.

Lemma names_of_entries (ps : plan_state) (l : sdict nat) :
  WF ps -> (forall n i, In (n, i) l -> In (n, i) pending0) ->
  map (fun p => tool_name (exec_at (store ps) (snd p))) l = keys l.
Proof.
  intros Hwf. induction l as [|[n i] r IH]; intros Hsub; [reflexivity|].
  cbn [map keys fst snd]. unfold keys in IH. rewrite IH by (intros; apply Hsub; now right).
  destruct (wf_same Hwf i) as (Hname & _).
  destruct (wf_named0 Hwf n i (Hsub n i (or_introl eq_refl))) as [_ Hn0].
  now rewrite Hname, Hn0.
Qed.

Lemma runs_trace_app (a b : list retry_run) :
  runs_trace (a ++ b) = runs_trace a ++ runs_trace b.
Proof. unfold runs_trace. apply flat_map_app. Qed.

Ltac trivial_run Hwf :=
  split; [reflexivity|]; split; [reflexivity|]; split; [reflexivity|];
  split; [exact Hwf|]; split; [intros; (assumption || discriminate)|];
  split; [simpl; now rewrite app_nil_r|]; split; [reflexivity|];
  split; [constructor|]; split; [intros ? ? ? []|];
  split; [intros; assumption|]; split; [constructor|];
  split; [intros ? []|intros; now right].

(** The loop of [execute_plan] against the schedule: with one unit of fuel
    per pending execution the loop ends; it returns the result map when the
    schedule runs to its end and raises the circular-dependency error when
    the schedule stops; its events are those of one retry run per scheduled
    tool, in the order of the schedule; and the outcome of every run is
    recorded. *)
Lemma run_waves_spec fuel : forall (ps : plan_state) (st : @state World),
  WF ps -> (length (pending ps) <= fuel)%nat ->
  exists run waves ok runs,
    run_waves registry max_retries fuel ps st = Some run /\
    schedule fuel store0 (pending ps) (completed ps) = Some (waves, ok) /\
    returned run = (if ok then Return (results (final run)) else Raise CircularDependency) /\
    WF (final run) /\
    (ok = true -> pending (final run) = []) /\
    trace (state_after run) = trace st ++ runs_trace runs /\
    map run_name runs = concat waves /\
    Forall (run_bounds bound) runs /\
    (forall ex k r, In (ex, k, r) runs ->
       exists i, In (tool_name ex, i) (pending ps) /\
                 same_fields ex (exec_at store0 i) /\
                 recorded_as (final run) (tool_name ex) i r) /\
    (forall n i r, ~ In n (keys (pending ps)) -> In (n, i) pending0 ->
       recorded_as ps n i r -> recorded_as (final run) n i r) /\
    NoDup (concat waves) /\
    (forall n, In n (concat waves) -> In n (keys (pending ps))) /\
    (forall n, In n (keys (pending ps)) ->
       In n (concat waves) \/ In n (keys (pending (final run)))).
Proof.
  induction fuel as [|fuel IH]; intros ps st Hwf Hlen.
  - assert (Ep : pending ps = []) by (destruct (pending ps); [reflexivity|simpl in Hlen; lia]).
    exists {| returned := Return (results ps); final := ps; state_after := st |}, [], true, [].
    rewrite run_waves_done, schedule_done by exact Ep. cbn [returned final state_after].
    trivial_run Hwf.
  - assert (Hcase : pending ps = [] \/ pending ps <> [])
      by (destruct (pending ps); [left|right]; congruence).
    destruct Hcase as [Ep|Ep].
    { exists {| returned := Return (results ps); final := ps; state_after := st |}, [], true, [].
      rewrite run_waves_done, schedule_done by exact Ep.
      cbn [returned final state_after]. trivial_run Hwf. }
    set (ready := ready_entries store0 (completed ps) (pending ps)).
    assert (Hcase : ready = [] \/ ready <> [])
      by (destruct ready; [left|right]; congruence).
    destruct Hcase as [Er|Er].
    { exists {| returned := Raise CircularDependency; final := ps; state_after := st |},
        [], false, [].
      rewrite run_waves_stuck, schedule_stuck; auto;
        [|apply (proj2 (ready_none store0 pending0 ps Hwf)); exact Er].
      cbn [returned final state_after]. trivial_run Hwf. }
    (* a wave with something ready *)
    set (names := keys ready).
    assert (Hsubr : forall n i, In (n, i) ready -> In (n, i) (pending ps)).
    { intros n i H. unfold ready, ready_entries in H. apply filter_In in H. tauto. }
    assert (Hnames : forall n, In n names -> In n (keys (pending ps))).
    { intros n H. apply in_keys in H. destruct H as [i H]. apply in_keys. eauto. }
    assert (Hndn : NoDup names).
    { unfold names, ready, ready_entries. apply nodup_filter_keys. apply Hwf. }
    rewrite run_waves_step, schedule_step; auto;
      [|intros H; apply (ready_none store0 pending0 ps Hwf) in H; contradiction].
    cbv zeta. rewrite (ready_tasks store0 pending0 ps Hwf). fold ready. fold names.
    set (tasks := map (fun p => (fst p, exec_at (store ps) (snd p))) ready).
    assert (Hkt : keys tasks = names).
    { unfold tasks, keys. rewrite map_map. reflexivity. }
    destruct (gather_spec tasks st) as (runs1 & Hex1 & Hkeys1 & Hin1 & Htr1 & Hb1).
    set (outs := fst (gather registry max_retries tasks st)) in *.
    set (st1 := snd (gather registry max_retries tasks st)) in *.
    rewrite Hkt in Hkeys1.
    destruct (process_results_spec store0 pending0 outs ps Hwf) as (ps1 & E1 & Hwf1 & Hp1 & Hc1 & Hrec1 & Hfr1).
    { now rewrite Hkeys1. }
    { intros n H. apply Hnames. now rewrite <- Hkeys1. }
    rewrite E1. rewrite Hkeys1 in Hp1, Hc1.
    assert (Hlt : (length (pending ps1) <= fuel)%nat).
    { destruct names as [|n0 ns] eqn:En.
      - unfold names, keys in En. apply map_eq_nil in En. contradiction.
      - rewrite Hp1.
        pose proof (@length_without_lt (n0 :: ns) (pending ps) n0 (or_introl eq_refl)
                      (Hnames n0 (or_introl eq_refl))). lia. }
    destruct (IH ps1 st1 Hwf1 Hlt)
      as (run & waves & ok & runs2 & Erun & Esch & Hret & Hwff & Hok & Htr2 & Hnm2 & Hb2
          & Hrec2 & Hfr2 & Hnd2 & Hsub2 & Hall2).
    exists run, (names :: waves), ok, (runs1 ++ runs2).
    rewrite <- Hp1, <- Hc1, Esch.
    assert (Hnm1 : map run_name runs1 = names).
    { unfold run_name.
      transitivity (map tool_name (map snd tasks));
        [rewrite <- Hex1; now rewrite map_map|].
      unfold tasks. rewrite !map_map. cbn [snd].
      apply (names_of_entries ps ready Hwf). intros n i H. apply (wf_sub Hwf). auto. }
    assert (Hwaves2 : forall n, In n (concat waves) -> In n (keys (pending ps)) /\ ~ In n names).
    { intros n H. apply Hsub2 in H. rewrite Hp1 in H. now apply in_keys_without in H. }
    split; [exact Erun|]. split; [reflexivity|]. split; [exact Hret|].
    split; [exact Hwff|]. split; [exact Hok|].
    split; [now rewrite Htr2, Htr1, runs_trace_app, app_assoc|].
    split; [rewrite map_app; cbn [concat]; f_equal; assumption|].
    split; [apply Forall_app; auto|]. split; [|split; [|split; [|split]]].
    + intros ex k r H. apply in_app_or in H. destruct H as [H|H].
      * destruct (Hin1 _ _ _ H) as [n [Ht Ho]].
        unfold tasks in Ht. apply in_map_iff in Ht. destruct Ht as [[n' i] [Ht Hr]].
        cbn [fst snd] in Ht. injection Ht as -> <-.
        assert (Hpi : In (n, i) (pending ps)) by auto.
        assert (Hp0 : In (n, i) pending0) by (now apply (wf_sub Hwf)).
        assert (Hname : tool_name (exec_at (store ps) i) = n).
        { destruct (wf_same Hwf i) as (Hn & _).
          destruct (wf_named0 Hwf n i Hp0) as [_ Hn0]. congruence. }
        exists i. rewrite Hname. split; [exact Hpi|]. split; [apply (wf_same Hwf)|].
        apply Hfr2; auto.
        rewrite Hp1. intros Hk. apply in_keys_without in Hk. destruct Hk as [_ Hk].
        apply Hk. apply in_keys. eauto.
      * destruct (Hrec2 _ _ _ H) as [i [Hi [Hs Hr]]]. exists i.
        rewrite Hp1 in Hi. apply in_without in Hi. tauto.
    + intros n i r Hn Hi Hr. apply Hfr2; auto.
      * rewrite Hp1. intros Hk. apply in_keys_without in Hk. tauto.
      * apply Hfr1; auto. rewrite Hkeys1. intros Hk. apply Hn. auto.
    + cbn [concat]. apply NoDup_app; auto. intros n H1 H2.
      apply Hwaves2 in H2. tauto.
    + cbn [concat]. intros n H. apply in_app_or in H. destruct H as [H|H]; auto.
      now apply Hwaves2.
    + cbn [concat]. intros n H.
      destruct (in_dec (list_eq_dec N.eq_dec) n names) as [Hn|Hn].
      * left. apply in_or_app. now left.
      * destruct (Hall2 n) as [H2|H2].
        -- rewrite Hp1. apply in_keys_without. auto.
        -- left. apply in_or_app. now right.
        -- now right.
Qed.

End Plan.

(** *** Schedules that cannot end *)

Lemma deps_met_in completed ex d :
  deps_met completed ex = true -> In d (depends_on ex) -> In d completed.
Proof.
  unfold deps_met. rewrite forallb_forall. intros H Hd. apply mem_in. auto.
Qed.

(** If every name of a non-empty set [names] is pending, not completed, and
    waits for a name of the set, the schedule stops before its end, and no
    name of the set is ever scheduled. *)
Lemma schedule_stuck_set store (names : list str) :
  names <> [] ->
  forall fuel pending completed,
    NoDup (keys pending) -> (length pending <= fuel)%nat ->
    (forall n, In n names ->
       exists i d, In (n, i) pending /\ In d (depends_on (exec_at store i)) /\ In d names) ->
    (forall n, In n names -> ~ In n completed) ->
    exists waves, schedule fuel store pending completed = Some (waves, false) /\
      forall n, In n names -> ~ In n (concat waves).
Proof.
  intros Hne. induction fuel as [|fuel IH]; intros pending completed Hnd Hlen Hdep Hfresh.
  - destruct names as [|n0 ns]; [contradiction|].
    destruct (Hdep n0 (or_introl eq_refl)) as (i & _ & Hi & _).
    destruct pending; [contradiction|simpl in Hlen; lia].
  - assert (Hp : pending <> []).
    { destruct names as [|n0 ns]; [contradiction|].
      destruct (Hdep n0 (or_introl eq_refl)) as (i & _ & Hi & _).
      intros ->. contradiction. }
    set (ready := ready_entries store completed pending).
    assert (Hcase : ready = [] \/ ready <> [])
      by (destruct ready; [left|right]; congruence).
    destruct Hcase as [Er|Er].
    { exists []. rewrite schedule_stuck; auto. }
    assert (Hout : forall n, In n names -> ~ In n (keys ready)).
    { intros n Hn Hk. apply in_keys in Hk. destruct Hk as [i' Hr].
      unfold ready, ready_entries in Hr. apply filter_In in Hr. destruct Hr as [Hi' Hmet].
      cbn [snd] in Hmet. destruct (Hdep n Hn) as (i & d & Hi & Hd & Hdn).
      assert (i' = i).
      { assert (A1 := in_assoc Hnd Hi). assert (A2 := in_assoc Hnd Hi'). congruence. }
      subst i'. apply (Hfresh d Hdn). eapply deps_met_in; eauto. }
    rewrite schedule_step by auto. cbv zeta. fold ready.
    destruct (IH (without (keys ready) pending) (completed ++ keys ready))
      as [waves [Es Hw]].
    + unfold without. now apply nodup_filter_keys.
    + destruct (keys ready) as [|n0 ns] eqn:En.
      * unfold keys in En. apply map_eq_nil in En. contradiction.
      * assert (Hin0 : In n0 (keys pending)).
        { assert (H0 : In n0 (keys ready)) by (rewrite En; now left).
          apply in_keys in H0. destruct H0 as [i H0]. apply in_keys. exists i.
          unfold ready, ready_entries in H0. apply filter_In in H0. tauto. }
        pose proof (@length_without_lt (n0 :: ns) pending n0 (or_introl eq_refl) Hin0). lia.
    + intros n Hn. destruct (Hdep n Hn) as (i & d & Hi & Hd & Hdn).
      exists i, d. split; [|auto]. apply in_without. split; [exact Hi|now apply Hout].
    + intros n Hn Hc. apply in_app_or in Hc. destruct Hc as [Hc|Hc].
      * now apply (Hfresh n).
      * now apply (Hout n).
    + rewrite Es. exists (keys ready :: waves). split; [reflexivity|].
      intros n Hn Hc. cbn [concat] in Hc. apply in_app_or in Hc. destruct Hc as [Hc|Hc].
      * now apply (Hout n).
      * now apply (Hw n).
Qed.

Lemma attempts_of_app n a b : attempts_of n (a ++ b) = (attempts_of n a + attempts_of n b)%nat.
Proof. unfold attempts_of. now rewrite filter_app, length_app. Qed.

Lemma attempts_of_other n n' args k : forall first,
  n' <> n -> attempts_of n (attempts_trace n' args first k) = O.
Proof.
  intros first Hne. assert (E : str_eqb n' n = false) by now apply str_eqb_neq.
  revert first. unfold attempts_of. induction k as [|[|k] IH]; intros first.
  - reflexivity.
  - simpl. now rewrite E.
  - rewrite attempts_trace_step. cbn [filter]. rewrite E. apply IH.
Qed.

Lemma attempts_of_unscheduled n (runs : list retry_run) :
  ~ In n (map run_name runs) -> attempts_of n (runs_trace runs) = O.
Proof.
  induction runs as [|[[ex k] r] rest IH]; intros Hn; [reflexivity|].
  unfold runs_trace in *. cbn [flat_map fst snd]. rewrite attempts_of_app.
  rewrite attempts_of_other.
  - apply IH. intros H. apply Hn. now right.
  - intros E. apply Hn. left. exact E.
Qed.

(** *** The whole plan *)

Lemma in_combine_names (exs : list ToolExecution) : forall s n i,
  In (n, i) (combine (map tool_name exs) (seq s (length exs))) ->
  (s <= i < s + length exs)%nat /\ tool_name (nth (i - s) exs blank_execution) = n.
Proof.
  induction exs as [|ex r IH]; intros s n i; simpl; [tauto|].
  intros [H|H].
  - injection H as <- <-. rewrite Nat.sub_diag. split; [lia|reflexivity].
  - apply IH in H. destruct H as [Hr Hn]. split; [lia|].
    replace (i - s)%nat with (S (i - S s)) by lia. exact Hn.
Qed.

Lemma in_dict_of {V} (items : list (str * V)) n v :
  In (n, v) (dict_of items) -> In (n, v) items.
Proof.
  intros H. apply (in_assoc (dict_of_nodup items)) in H.
  apply fold_sset_last in H. destruct H as [H|[H _]]; [exact H|discriminate].
Qed.

Lemma initial_well_formed (executions : list ToolExecution) :
  well_formed executions (index_by_name executions) (initial_plan executions).
Proof.
  assert (Hnamed : forall n i, In (n, i) (index_by_name executions) ->
            (i < length executions)%nat /\ tool_name (exec_at executions i) = n).
  { intros n i H. apply in_dict_of, in_combine_names in H. destruct H as [Hr Hn].
    rewrite Nat.sub_0_r in Hn. split; [lia|exact Hn]. }
  constructor; simpl; auto.
  - apply dict_of_nodup.
  - apply dict_of_nodup.
  - intros i. apply same_fields_refl.
  - constructor.
  - intros n [].
Qed.

Section WholePlan.

Context {World : Type}.
Variable registry : sdict (@handler World).
Variable max_retries : Z.

Local Abbreviation bound := (Z.to_nat (max_retries + 1)).

Lemma execute_plan_unfold (executions : list ToolExecution) (st : @state World) :
  execute_plan registry max_retries executions st
  = run_waves registry max_retries (length (index_by_name executions))
      (initial_plan executions) st.
Proof.
  destruct executions; [|reflexivity]. reflexivity.
Qed.

(** [execute_plan] always ends.  Whether it returns or raises, and which
    tools it runs in which order, is fixed by [plan_schedule], that is by the
    dependencies alone; each scheduled tool gets one retry run, and the
    outcome of each run is recorded. *)
Lemma execute_plan_spec (executions : list ToolExecution) (st : @state World) :
  exists run waves ok runs,
    execute_plan registry max_retries executions st = Some run /\
    plan_schedule executions = Some (waves, ok) /\
    returned run = (if ok then Return (results (final run)) else Raise CircularDependency) /\
    well_formed executions (index_by_name executions) (final run) /\
    (ok = true -> pending (final run) = []) /\
    trace (state_after run) = trace st ++ runs_trace runs /\
    map run_name runs = concat waves /\
    Forall (run_bounds bound) runs /\
    (forall ex k r, In (ex, k, r) runs ->
       exists i, In (tool_name ex, i) (index_by_name executions) /\
                 same_fields ex (exec_at executions i) /\
                 recorded_as (final run) (tool_name ex) i r) /\
    NoDup (concat waves) /\
    (forall n, In n (concat waves) -> In n (keys (index_by_name executions))) /\
    (forall n, In n (keys (index_by_name executions)) ->
       In n (concat waves) \/ In n (keys (pending (final run)))).
Proof.
  rewrite execute_plan_unfold. unfold plan_schedule.
  destruct (run_waves_spec registry max_retries executions (index_by_name executions)
              (length (index_by_name executions)) (initial_plan executions) st
              (initial_well_formed executions) (le_n _))
    as (run & waves & ok & runs & H1 & H2 & H3 & H4 & H5 & H6 & H7 & H8 & H9 & _ & H11
        & H12 & H13).
  exists run, waves, ok, runs. repeat (split; [assumption|]). auto.
Qed.

Lemma kept_of_entry (executions : list ToolExecution) n i :
  In (n, i) (index_by_name executions) -> kept executions n = Some (exec_at executions i).
Proof.
  intros H. unfold kept.
  pose proof (in_assoc (d := index_by_name executions) (dict_of_nodup _) H) as E.
  now rewrite E.
Qed.

Lemma entry_of_kept (executions : list ToolExecution) n ex :
  kept executions n = Some ex ->
  exists i, In (n, i) (index_by_name executions) /\ ex = exec_at executions i.
Proof.
  unfold kept. destruct (J.assoc n (index_by_name executions)) as [i|] eqn:E; [|discriminate].
  intros [= <-]. exists i. split; [now apply assoc_in|reflexivity].
Qed.

Lemma map_fst_combine {A B} (l : list A) : forall (l' : list B),
  length l = length l' -> map fst (combine l l') = l.
Proof.
  induction l as [|a r IH]; intros [|b r'] H; simpl in *; try discriminate; auto.
  f_equal. apply IH. lia.
Qed.

Lemma index_names (executions : list ToolExecution) n :
  In n (keys (index_by_name executions)) <-> In n (map tool_name executions).
Proof.
  unfold index_by_name, dict_of. rewrite fold_sset_keys. simpl.
  rewrite map_fst_combine; [tauto|]. now rewrite length_map, length_seq.
Qed.


End WholePlan.

(** A batch in which a tool fails: [broken] fails on both of its attempts
    ([max_retries = 1]); [A], which waits for it, and the sibling [steady]
    still run; the result map has the two that succeeded and the exception is
    written to the first execution. *)
Lemma failed_tool_example :
  exists run,
    execute_plan sample_registry 1
      [ sample_execution "broken" []; sample_execution "A" ["broken"%string];
        sample_execution "steady" [] ] start = Some run /\
    keys (match returned run with Return results => results | Raise _ => [] end)
      = [lit "steady"; lit "A"] /\
    map error (executions_after run) = [Some (ToolError 3); None; None] /\
    trace (state_after run)
      = [ Attempt (lit "broken") (JObj []) 0; Sleep 1; Attempt (lit "broken") (JObj []) 1;
          Attempt (lit "steady") (JObj []) 0; Attempt (lit "A") (JObj []) 0 ].
Proof.
  eexists. split; [vm_compute; reflexivity|]. repeat split.
Qed.

Section Dispatch.

Context {World : Type}.
Variable registry : sdict (@handler World).
Variable max_retries : Z.
Variable json_loads : str -> option json.
Variable json_dumps : json -> str.
Variable exn_str : exn -> str.

(** [analyze_dependencies] makes one execution per named call, in order. *)
Lemma analyze_from_names (tool_calls : list tool_call) : forall names exs out,
  analyze_from json_loads tool_calls names exs = Return out ->
  map tool_name out = map tool_name exs ++ call_names tool_calls.
Proof.
  induction tool_calls as [|call rest IH]; intros names exs out; simpl.
  - intros [= <-]. now rewrite app_nil_r.
  - destruct (fn_name call) as [[|c s]|] eqn:En; try apply IH.
    intros H. apply ScenarioFacts.bind_return in H. destruct H as [deps [_ H]].
    apply IH in H. rewrite H, map_app. simpl. now rewrite <- app_assoc.
Qed.

(** The executions built from a batch of calls depend, at most, on a
    document search of the batch. *)
Lemma analyze_from_deps (tool_calls : list tool_call) : forall names exs out,
  names = map tool_name exs ->
  (forall ex, In ex exs -> agent_deps exs ex) ->
  analyze_from json_loads tool_calls names exs = Return out ->
  forall ex, In ex out -> agent_deps out ex.
Proof.
  induction tool_calls as [|call rest IH]; intros names exs out Hnames Hexs; simpl.
  - intros [= <-]. exact Hexs.
  - destruct (fn_name call) as [[|c s]|] eqn:En; try (apply IH; assumption).
    intros H. apply ScenarioFacts.bind_return in H. destruct H as [deps [Hd H]].
    eapply IH; [| |exact H].
    + rewrite map_app. simpl. now rewrite Hnames.
    + intros ex Hin. apply in_app_or in Hin. destruct Hin as [Hin|[<-|[]]].
      * destruct (Hexs ex Hin) as [[H0|[H1 H2]] H3]; split; auto.
        right. split; [exact H1|]. rewrite map_app. apply in_or_app. now left.
      * unfold agent_deps. cbn [depends_on tool_name].
        destruct (str_eqb (c :: s) load_tool) eqn:El.
        -- apply ScenarioFacts.bind_return in Hd. destruct Hd as [ids [_ Hd]].
           apply str_eqb_eq in El.
           destruct (negb (J.truthy ids) && mem search_tool names) eqn:Ec;
             injection Hd as <-.
           ++ split.
              ** right. split; [reflexivity|]. apply andb_true_iff in Ec.
                 destruct Ec as [_ Ec]. apply mem_in in Ec.
                 rewrite map_app. apply in_or_app. left. now rewrite <- Hnames.
              ** intros Hs. rewrite El in Hs. vm_compute in Hs. discriminate.
           ++ split; auto.
        -- injection Hd as <-. split; auto.
Qed.

(** A batch whose executions wait for nothing, or only for an execution of
    the batch that waits for nothing, is run to its end, in at most two
    waves. *)
Lemma schedule_two_waves store (s : str) (pending : sdict nat) fuel :
  NoDup (keys pending) -> (length pending <= fuel)%nat ->
  (forall n i, In (n, i) pending ->
     depends_on (exec_at store i) = [] \/
     (depends_on (exec_at store i) = [s] /\
      exists j, In (s, j) pending /\ depends_on (exec_at store j) = [])) ->
  exists waves, schedule fuel store pending [] = Some (waves, true).
Proof.
  intros Hnd Hlen Hdeps.
  assert (Hcase : pending = [] \/ pending <> [])
    by (destruct pending; [left|right]; congruence).
  destruct Hcase as [Ep|Ep]; [exists []; now apply schedule_done|].
  destruct fuel as [|fuel]; [destruct pending; [contradiction|simpl in Hlen; lia]|].
  set (ready := ready_entries store [] pending).
  assert (Hready : forall n i, In (n, i) ready <->
            In (n, i) pending /\ depends_on (exec_at store i) = []).
  { intros n i. unfold ready, ready_entries. rewrite filter_In. cbn [snd].
    unfold deps_met. split; intros [H1 H2]; split; auto.
    - destruct (depends_on (exec_at store i)); [reflexivity|]. simpl in H2. discriminate.
    - now rewrite H2. }
  assert (Hne : ready <> []).
  { destruct pending as [|[n i] rest]; [contradiction|].
    destruct (Hdeps n i (or_introl eq_refl)) as [H|[_ [j [Hj H]]]].
    - intros E. assert (Hin : In (n, i) ready) by (apply Hready; split; [now left|exact H]).
      rewrite E in Hin. contradiction.
    - intros E. assert (Hin : In (s, j) ready) by (apply Hready; auto).
      rewrite E in Hin. contradiction. }
  rewrite schedule_step by assumption. cbv zeta. fold ready. simpl app.
  set (names := keys ready). set (pending2 := without names pending).
  assert (Hp2 : forall n i, In (n, i) pending2 ->
            In (n, i) pending /\ depends_on (exec_at store i) = [s] /\ In s names).
  { intros n i H. apply in_without in H. destruct H as [Hin Hn]. split; [exact Hin|].
    destruct (Hdeps n i Hin) as [H|[H [j [Hj Hj0]]]].
    - exfalso. apply Hn. apply in_keys. exists i. apply Hready. auto.
    - split; [exact H|]. apply in_keys. exists j. apply Hready. auto. }
  assert (Hcase : pending2 = [] \/ pending2 <> [])
    by (destruct pending2; [left|right]; congruence).
  destruct Hcase as [E2|E2]; [rewrite schedule_done by exact E2; eauto|].
  assert (Hlen2 : (length pending2 < length pending)%nat).
  { destruct ready as [|[n0 i0] r] eqn:Er; [contradiction|].
    apply (@length_without_lt names pending n0).
    - unfold names. now left.
    - apply in_keys. exists i0. apply (Hready n0 i0). now left. }
  destruct fuel as [|fuel]; [destruct pending2; [contradiction|simpl in Hlen2; lia]|].
  assert (Hall : ready_entries store names pending2 = pending2).
  { unfold ready_entries. apply forallb_filter_id. apply forallb_forall.
    intros [n i] Hin. cbn [snd]. destruct (Hp2 n i Hin) as (_ & Hd & Hs).
    unfold deps_met. rewrite Hd. simpl. rewrite andb_true_r. now apply mem_in. }
  rewrite schedule_step; [|exact E2|rewrite Hall; exact E2].
  cbv zeta. rewrite Hall.
  assert (E3 : without (keys pending2) pending2 = []).
  { unfold without. destruct (filter _ pending2) as [|[n i] r] eqn:Ef; [reflexivity|].
    assert (Hin : In (n, i) (filter (fun p => negb (mem (fst p) (keys pending2))) pending2))
      by (rewrite Ef; now left).
    apply filter_In in Hin. destruct Hin as [Hin Hm]. cbn [fst] in Hm.
    apply negb_true_iff in Hm.
    assert (Hk : mem n (keys pending2) = true) by (apply mem_in, in_keys; eauto).
    congruence. }
  rewrite schedule_done by exact E3. eauto.
Qed.

(** The batches the agent builds are always run to their end. *)
Lemma agent_plan_completes (tool_calls : list tool_call) (executions : list ToolExecution) :
  analyze_dependencies json_loads tool_calls = Return executions ->
  exists waves, plan_schedule executions = Some (waves, true).
Proof.
  intros Han. unfold plan_schedule.
  assert (Hdeps : forall ex, In ex executions -> agent_deps executions ex).
  { unfold analyze_dependencies in Han.
    apply (analyze_from_deps tool_calls [] [] executions eq_refl); [intros ex []|exact Han]. }
  assert (Hentry : forall n i, In (n, i) (index_by_name executions) ->
            In (exec_at executions i) executions /\ tool_name (exec_at executions i) = n).
  { intros n i H. destruct (wf_named0 (initial_well_formed executions) n i H) as [Hr Hn].
    split; [apply nth_In; exact Hr|exact Hn]. }
  apply (schedule_two_waves executions search_tool).
  - apply dict_of_nodup.
  - apply le_n.
  - intros n i Hin. destruct (Hentry n i Hin) as [Hex _].
    destruct (Hdeps _ Hex) as [[H0|[H1 H2]] _]; [now left|]. right. split; [exact H1|].
    apply index_names, in_keys in H2. destruct H2 as [j Hj]. exists j. split; [exact Hj|].
    destruct (Hentry _ j Hj) as [Hexj Hnj]. now apply (Hdeps _ Hexj).
Qed.

(** Hence the parallel branch always answers the calls of the batch. *)
Lemma agent_batch_is_answered
    (tool_calls : list tool_call) (executions : list ToolExecution) (st : @state World) :
  analyze_dependencies json_loads tool_calls = Return executions ->
  exists run results,
    execute_plan registry max_retries executions st = Some run /\
    returned run = Return results /\
    parallel_dispatch registry max_retries json_loads json_dumps exn_str tool_calls st
    = Some (Answered
              (map (fun call =>
                      fst (fst (answer_call json_dumps exn_str results
                                  (executions_after run) call))) tool_calls)
              (flat_map (fun call =>
                      snd (fst (answer_call json_dumps exn_str results
                                  (executions_after run) call))) tool_calls)
              (map (fun call =>
                      snd (answer_call json_dumps exn_str results
                             (executions_after run) call)) tool_calls)
              (state_after run)).
Proof.
  intros Han. destruct (agent_plan_completes _ _ Han) as [waves Hs].
  destruct (execute_plan_spec registry max_retries executions st)
    as (run & waves' & ok & runs & Erun & Esch & Hret & _).
  rewrite Hs in Esch. injection Esch as <- <-.
  exists run, (results (final run)). split; [exact Erun|]. split; [exact Hret|].
  unfold parallel_dispatch. rewrite Han, Erun, Hret.
  f_equal. f_equal.
  - now rewrite map_map.
  - rewrite flat_map_concat_map, map_map, <- flat_map_concat_map. reflexivity.
  - now rewrite map_map.
Qed.

Lemma unscheduled_no_result store0 pending0 ps n :
  well_formed store0 pending0 ps -> ~ In n (keys pending0) -> J.assoc n (results ps) = None.
Proof.
  intros Hwf Hn. apply assoc_none. intros H. apply Hn. now apply (wf_known Hwf).
Qed.



End Dispatch.


(** Two calls of [steady] in one batch: the handler is called once, with the
    arguments of the second call, and both calls get the same content. *)
Lemma duplicate_calls_example :
  parallel_dispatch sample_registry 2 Scenario.sample_loads Scenario.sample_dumps
    sample_exn_str duplicate_calls start
  = Some (Answered
            [ {| tool_call_id := JStr (lit "call_1"); name := Some (lit "steady");
                 message_text := Scenario.sample_dumps (JInt 2) |};
              {| tool_call_id := JStr (lit "call_2"); name := Some (lit "steady");
                 message_text := Scenario.sample_dumps (JInt 2) |} ]
            []
            [ {| debug_name := Some (lit "steady");
                 debug_arguments := Some Scenario.reply7_text;
                 returned_chunks := Some O; debug_error := None |};
              {| debug_name := Some (lit "steady"); debug_arguments := None;
                 returned_chunks := Some O; debug_error := None |} ]
            {| world := 1%nat; trace := [Attempt (lit "steady") (JObj []) 0] |}).
Proof. vm_compute. reflexivity. Qed.



End ExecutorFacts.

(* ================================================================== *)
(** ** Token-aware context manager *)

Module ContextFacts.
Import Py Scenario Context.

Lemma split_budget_inv remaining w cb hb :
  split_budget remaining w = Return (cb, hb) ->
  exists r, Float.of_int remaining = Return r /\
    Float.to_int (Float.mul r w) = Return cb /\
    Float.to_int (Float.mul r (Float.sub Float.one w)) = Return hb.
Proof.
  unfold split_budget. intros H.
  apply ScenarioFacts.bind_return in H. destruct H as [r [Er H]].
  apply ScenarioFacts.bind_return in H. destruct H as [c [Ec H]].
  apply ScenarioFacts.bind_return in H. destruct H as [r' [Er' H]].
  apply ScenarioFacts.bind_return in H. destruct H as [h [Eh H]].
  injection H as <- <-. rewrite Er in Er'. injection Er' as <-. eauto.
Qed.

(** The integer quotient of [estimate_tokens] against the float computation
    of the source, [int(len(text) / 4.0)], at a few lengths. *)
Lemma estimate_tokens_float_samples :
  Forall (fun n => Float.to_int (Float.div (Float.of_Z (Z.of_nat n)) chars_per_token)
                   = Return (estimate_tokens (filler n)))
         [1; 3; 4; 7; 784; 1603; 4999]%nat.
Proof. repeat constructor. Qed.

(** C8.  Whenever [build_optimal_context] returns, its statistics hold the
    fixed cost (system, guidance and query tokens, the query with its 4 tokens
    of overhead), the budget remaining once that cost is taken from the
    available budget, never below 0, and the two shares of it:
    [int(remaining * chunk_weight)] for the evidence and
    [int(remaining * (1.0 - chunk_weight))] for the history, the products
    being those of binary64 floats and [int] truncating.  With 5000 tokens
    available, a fixed cost of 1000 and the weight 0.4, the shares are
    exactly 1600 and 2400. *)
Theorem context_budgets_split
    (repr : json -> str) (m : manager) (system_prompt guidance : str)
    (history : list message) (user_query : str)
    (chunks : option (list Rrf.VectorSearchResult)) (chunk_weight : Float.t) :
  (forall messages st,
     build_optimal_context repr m system_prompt guidance history user_query chunks
       chunk_weight = Return (messages, st) ->
     let fixed := estimate_tokens system_prompt + estimate_tokens guidance
                  + (estimate_tokens user_query + 4) in
     let left := Z.max 0 (available m - fixed) in
     base_tokens st = fixed /\
     remaining st = left /\
     exists r, Float.of_int left = Return r /\
       Float.to_int (Float.mul r chunk_weight) = Return (chunk_budget st) /\
       Float.to_int (Float.mul r (Float.sub Float.one chunk_weight))
         = Return (history_budget st)) /\
  (exists messages st,
     build_optimal_context sample_repr sample_manager (filler 1600) (filler 1600) []
       (filler 784) None (Float.ratio 2 5) = Return (messages, st) /\
     total_budget st = 5000 /\ base_tokens st = 1000 /\ remaining st = 4000 /\
     chunk_budget st = 1600 /\ history_budget st = 2400).
Proof.
  split.
  - intros messages st H. cbv zeta. unfold build_optimal_context in H.
    destruct (split_budget _ chunk_weight) as [[cb hb]|e] eqn:Eb; [|discriminate].
    cbn [bind fst snd] in H.
    repeat (apply ScenarioFacts.bind_return in H; destruct H as [? [_ H]]).
    injection H as _ <-. cbn [base_tokens remaining chunk_budget history_budget].
    split; [reflexivity|]. split; [reflexivity|]. now apply split_budget_inv.
  - eexists. eexists. split; [vm_compute; reflexivity|]. repeat split.
Qed.

(** The theorem at the sample: the statistics computed for the sample are
    those the general statement describes. *)
Lemma context_budgets_split_witness :
  exists messages st,
    sample_context = Return (messages, st) /\
    base_tokens st = 1000 /\ remaining st = 4000 /\
    Float.to_int (Float.mul (Float.of_Z 4000) (Float.ratio 2 5)) = Return (chunk_budget st) /\
    chunk_budget st = 1600 /\ history_budget st = 2400.
Proof.
  destruct (proj2 (@context_budgets_split sample_repr sample_manager (filler 1600)
                     (filler 1600) [] (filler 784) None (Float.ratio 2 5)))
    as (messages & st & E & _ & _ & _ & Hc & Hh).
  destruct (proj1 (@context_budgets_split sample_repr sample_manager (filler 1600)
                     (filler 1600) [] (filler 784) None (Float.ratio 2 5)) messages st E)
    as (Hb & Hr & r & Er & Ec & _).
  exists messages, st. split; [exact E|].
  split; [rewrite Hb; vm_compute; reflexivity|].
  split; [rewrite Hr; vm_compute; reflexivity|].
  split; [|split; assumption].
  rewrite Hc. vm_compute. reflexivity.
Defined.

End ContextFacts.

(* ================================================================== *)
(** * The context manager: what fits and what is kept *)

Module ContextBounds.
Import Py Scenario Rrf Context.

Lemma estimate_tokens_nonneg (text : str) : 0 <= estimate_tokens text.
Proof. unfold estimate_tokens. destruct text; [lia|]. apply Z.div_pos; lia. Qed.

Lemma fold_estimate (msgs : list message) : forall acc,
  fold_left (fun total msg => total + 4 + estimate_tokens (content msg)) msgs acc
  = acc + estimate_messages_tokens msgs.
Proof.
  unfold estimate_messages_tokens.
  induction msgs as [|m l IH]; intros acc; cbn [fold_left]; [lia|].
  rewrite (IH (acc + 4 + _)), (IH (0 + 4 + _)). lia.
Qed.

Lemma estimate_messages_cons (m : message) (l : list message) :
  estimate_messages_tokens (m :: l)
  = estimate_tokens (content m) + 4 + estimate_messages_tokens l.
Proof. unfold estimate_messages_tokens at 1. cbn [fold_left]. rewrite fold_estimate. lia. Qed.

Lemma estimate_messages_app (a b : list message) :
  estimate_messages_tokens (a ++ b) = estimate_messages_tokens a + estimate_messages_tokens b.
Proof.
  induction a as [|m a IH]; simpl; [reflexivity|].
  rewrite !estimate_messages_cons, IH. lia.
Qed.

Lemma estimate_messages_nonneg (l : list message) : 0 <= estimate_messages_tokens l.
Proof.
  induction l as [|m l IH]; [reflexivity|]. rewrite estimate_messages_cons.
  pose proof (estimate_tokens_nonneg (content m)). lia.
Qed.

(** The loop of [truncate_to_budget]: it takes messages from the newest on
    and stops at the first that does not fit. *)
Lemma keep_recent_spec (room : Z) : forall reversed result,
  estimate_messages_tokens result <= room ->
  exists taken rest,
    reversed = taken ++ rest /\
    keep_recent room reversed result (estimate_messages_tokens result) = rev taken ++ result /\
    estimate_messages_tokens (rev taken ++ result) <= room /\
    (forall m rest', rest = m :: rest' ->
       room < estimate_messages_tokens (m :: rev taken ++ result)).
Proof.
  induction reversed as [|msg r IH]; intros result Hfit.
  - exists [], []. repeat split; auto. intros ? ? [=].
  - simpl. destruct (_ >? room) eqn:E.
    + exists [], (msg :: r). repeat split; auto. intros m rest' [= <- <-]. simpl.
      rewrite estimate_messages_cons. lia.
    + replace (estimate_messages_tokens result + (estimate_tokens (content msg) + 4))
        with (estimate_messages_tokens (msg :: result))
        by (rewrite estimate_messages_cons; lia).
      destruct (IH (msg :: result)) as (taken & rest & -> & Ek & Hle & Hmax).
      { rewrite estimate_messages_cons. lia. }
      exists (msg :: taken), rest. simpl. rewrite <- !app_assoc. simpl.
      repeat split; auto.
Qed.

Lemma truncate_to_budget_fits (messages : list message) (budget : Z) :
  exists dropped kept,
    truncate_to_budget messages budget = filter is_system messages ++ kept /\
    filter (fun m => negb (is_system m)) messages = dropped ++ kept /\
    estimate_messages_tokens kept
    <= Z.max 0 (budget - estimate_messages_tokens (filter is_system messages)) /\
    (forall older m, dropped = older ++ [m] ->
       Z.max 0 (budget - estimate_messages_tokens (filter is_system messages))
       < estimate_messages_tokens (m :: kept)).
Proof.
  remember (filter is_system messages) as system_msgs eqn:Es.
  remember (filter (fun m => negb (is_system m)) messages) as other_msgs eqn:Eo.
  remember (Z.max 0 (budget - estimate_messages_tokens system_msgs)) as room eqn:Er.
  assert (Eq : truncate_to_budget messages budget
               = if room <=? 0 then system_msgs
                 else system_msgs ++ keep_recent room (rev other_msgs) [] 0).
  { subst system_msgs other_msgs room. destruct messages; [|reflexivity].
    cbn. now destruct (Z.max 0 (budget - 0) <=? 0). }
  rewrite Eq. destruct (room <=? 0) eqn:E.
  - apply Z.leb_le in E.
    exists other_msgs, []. rewrite !app_nil_r. repeat split; auto.
    + change (estimate_messages_tokens []) with 0. lia.
    + intros older m _. rewrite estimate_messages_cons.
      pose proof (estimate_tokens_nonneg (content m)).
      change (estimate_messages_tokens []) with 0. lia.
  - apply Z.leb_gt in E.
    destruct (keep_recent_spec room (rev other_msgs) [])
      as (taken & rest & Hrev & Ek & Hle & Hmax);
      [change (estimate_messages_tokens []) with 0; lia|].
    change (estimate_messages_tokens []) with 0 in Ek. rewrite Ek.
    rewrite app_nil_r in *.
    exists (rev rest), (rev taken). repeat split; auto.
    + rewrite <- rev_app_distr, <- Hrev. now rewrite rev_involutive.
    + intros older m Hd. apply (Hmax m (rev older)).
      rewrite <- (rev_involutive rest), Hd, rev_app_distr. reflexivity.
Qed.

(** [truncate_to_budget] keeps every system message, and of the other
    messages the latest ones: those kept are a final segment of the others,
    their estimated tokens fit in what the budget leaves after the system
    messages (at least 0), and the message before them, if any, would not
    have fitted.  So the result fits the budget whenever the system messages
    alone do. *)
Theorem truncate_to_budget_keeps_latest_that_fit (messages : list message) (budget : Z) :
  let system_msgs := filter is_system messages in
  let other_msgs := filter (fun m => negb (is_system m)) messages in
  let room := Z.max 0 (budget - estimate_messages_tokens system_msgs) in
  exists dropped kept,
    truncate_to_budget messages budget = system_msgs ++ kept /\
    other_msgs = dropped ++ kept /\
    estimate_messages_tokens kept <= room /\
    (estimate_messages_tokens system_msgs <= budget ->
       estimate_messages_tokens (truncate_to_budget messages budget) <= budget) /\
    (forall older m, dropped = older ++ [m] ->
       room < estimate_messages_tokens (m :: kept)).
Proof.
  intros system_msgs other_msgs room.
  destruct (truncate_to_budget_fits messages budget) as (dropped & kept & E1 & E2 & H3 & H4).
  exists dropped, kept. subst system_msgs other_msgs room. repeat split; auto.
  intros Hsys. rewrite E1, estimate_messages_app. lia.
Qed.

(** *** Chunks *)

Lemma estimate_tokens_quotient (text : str) :
  estimate_tokens text = Z.of_nat (length text) / 4.
Proof. destruct text; reflexivity. Qed.

(** One turn of the loop of [optimize_chunks] for the bound 500 that
    [build_optimal_context] passes: [int(500 * 4.0 * 0.9)] is 1800. *)
Lemma optimize_chunks_cons (c : VectorSearchResult) (rest : list VectorSearchResult) :
  optimize_chunks (c :: rest) 500
  = bind (optimize_chunks rest 500)
      (fun rest' =>
         Return ((if estimate_tokens (chunk_content (chunk c)) <=? 500 then c
                  else with_content c
                         (firstn (Z.to_nat 1800) (chunk_content (chunk c)) ++ lit "..."))
                 :: rest')).
Proof.
  cbn [optimize_chunks]. destruct (_ <=? 500); [reflexivity|].
  set (f := Float.of_int 500). vm_compute in f. subst f. cbn [bind].
  set (t := Float.to_int _). vm_compute in t. subst t. cbn [bind].
  reflexivity.
Qed.

Lemma optimize_chunks_bounds_lengths (chunks : list VectorSearchResult) :
  exists out, optimize_chunks chunks 500 = Return out /\ length out = length chunks.
Proof.
  induction chunks as [|c rest [out [E IH]]].
  - exists []. split; reflexivity.
  - rewrite optimize_chunks_cons, E. cbn [bind]. eexists. split; [reflexivity|].
    simpl. now rewrite IH.
Qed.

(** [optimize_chunks] with the bound of 500 tokens never fails and returns
    one chunk per chunk given, in the same order and with the same id, serial
    number, score and payload.  A chunk estimated at 500 tokens or fewer is
    returned as it is; a longer one has its content cut to the first 1800
    characters followed by three dots.  Every chunk returned is estimated at
    500 tokens or fewer. *)
Theorem optimize_chunks_bounds_every_chunk (chunks : list VectorSearchResult) :
  exists out,
    optimize_chunks chunks 500 = Return out /\
    Forall2 (fun c c' =>
               chunk_id (chunk c') = chunk_id (chunk c) /\
               chunk_serial (chunk c') = chunk_serial (chunk c) /\
               score c' = score c /\ payload c' = payload c /\
               (estimate_tokens (chunk_content (chunk c)) <= 500 -> c' = c) /\
               (500 < estimate_tokens (chunk_content (chunk c)) ->
                  chunk_content (chunk c')
                  = firstn (Z.to_nat 1800) (chunk_content (chunk c)) ++ lit "...") /\
               estimate_tokens (chunk_content (chunk c')) <= 500) chunks out.
Proof.
  induction chunks as [|c rest [out [E IH]]].
  - exists []. split; [reflexivity|constructor].
  - rewrite optimize_chunks_cons, E. cbn [bind]. eexists. split; [reflexivity|].
    constructor; [|exact IH].
    destruct (_ <=? 500) eqn:Et.
    + apply Z.leb_le in Et. repeat split; auto. lia.
    + apply Z.leb_gt in Et. cbn [with_content chunk chunk_id chunk_serial score payload
                                 chunk_content].
      repeat split; auto; [lia|].
      rewrite estimate_tokens_quotient in *.
      rewrite length_app, firstn_length_le.
      * change (length (lit "...")) with 3%nat.
        replace (Z.of_nat (Z.to_nat 1800 + 3)) with 1803 by lia.
        change (1803 / 4) with 450. lia.
      * assert (2000 <= Z.of_nat (length (chunk_content (chunk c)))); [|lia].
        pose proof (Z.mul_div_le (Z.of_nat (length (chunk_content (chunk c)))) 4). lia.
Qed.

Lemma chunks_cost_app (a b : list VectorSearchResult) :
  chunks_cost (a ++ b) = chunks_cost a + chunks_cost b.
Proof.
  unfold chunks_cost. rewrite fold_left_app.
  generalize (fold_left (fun total c => total + (estimate_tokens (chunk_content (chunk c)) + 20))
                a 0).
  induction b as [|c b IH]; intros acc; cbn [fold_left]; [lia|].
  rewrite (IH (acc + _)), (IH (0 + _)). lia.
Qed.

(** The loop that drops chunks from the end while they cost more than the
    budget and more than three are left. *)
Lemma drop_over_budget_spec (budget : Z) : forall n chunks,
  (length chunks <= n + 3)%nat ->
  exists kept dropped,
    chunks = kept ++ dropped /\ drop_over_budget n budget chunks = kept /\
    (Nat.min 3 (length chunks) <= length kept)%nat /\
    ((3 < length kept)%nat -> chunks_cost kept <= budget) /\
    (forall d rest, dropped = d :: rest -> budget < chunks_cost (kept ++ [d])).
Proof.
  induction n as [|n IH]; intros chunks Hlen.
  - exists chunks, []. rewrite app_nil_r. cbn [drop_over_budget].
    repeat split; auto; [lia|lia|intros ? ? [=]].
  - cbn [drop_over_budget].
    destruct (chunks_cost chunks >? budget) eqn:Ec;
      [destruct (3 <? length chunks)%nat eqn:El|]; cbn [andb].
    + apply Nat.ltb_lt in El.
      assert (Hne : chunks <> []) by (intros ->; simpl in El; lia).
      destruct (exists_last Hne) as [front [lst ->]].
      rewrite removelast_last. rewrite length_app in *. simpl in El, Hlen.
      destruct (IH front) as (kept & dropped & -> & Ek & Hmin & Hfit & Hmax); [lia|].
      exists kept, (dropped ++ [lst]). rewrite <- app_assoc.
      split; [reflexivity|]. split; [exact Ek|]. rewrite length_app in *.
      split; [cbn [length]; lia|]. split; [exact Hfit|].
      intros d rest Hd. destruct dropped as [|d' dropped'].
      * injection Hd as <- <-. rewrite app_nil_r in Ec. simpl in Ec. lia.
      * injection Hd as <- _. now apply (Hmax d' dropped').
    + apply Nat.ltb_ge in El. exists chunks, []. rewrite app_nil_r.
      repeat split; auto; [lia|lia|intros ? ? [=]].
    + exists chunks, []. rewrite app_nil_r.
      repeat split; auto; [lia|lia|intros ? ? [=]].
Qed.

(** *** The context built *)

Lemma build_optimal_context_inv (repr : json -> str) (m : manager)
    (system_prompt guidance : str) (history : list message) (user_query : str)
    (chunks : option (list VectorSearchResult)) (chunk_weight : Float.t)
    (messages : list message) (st : stats) :
  build_optimal_context repr m system_prompt guidance history user_query chunks chunk_weight
    = Return (messages, st) ->
  exists optimized user_content,
    match chunks with
    | Some (c :: cs) =>
        bind (optimize_chunks (c :: cs) 500)
             (fun opt => Return (drop_over_budget (length opt) (chunk_budget st) opt))
    | _ => Return []
    end = Return optimized /\
    match optimized with
    | [] => Return user_query
    | _ => bind (_format_chunks_context repr optimized)
                (fun text => Return (text ++ newline ++ newline ++ user_query))
    end = Return user_content /\
    available m <> 0 /\
    messages = [ Message (lit "system") system_prompt; Message (lit "system") guidance ]
                 ++ truncate_to_budget history (history_budget st)
                 ++ [ Message (lit "user") user_content ] /\
    base_tokens st = estimate_tokens system_prompt + estimate_tokens guidance
                     + (estimate_tokens user_query + 4) /\
    chunks_tokens st = match chunks with
                       | Some (_ :: _) => Some (chunks_cost optimized)
                       | _ => None
                       end /\
    chunks_count st = match chunks with
                      | Some (_ :: _) => Some (length optimized)
                      | _ => None
                      end /\
    history_tokens st
    = estimate_messages_tokens (truncate_to_budget history (history_budget st)) /\
    total_tokens st = estimate_messages_tokens messages.
Proof.
  unfold build_optimal_context. intros H.
  destruct (split_budget _ chunk_weight) as [[cb hb]|e]; [|discriminate].
  cbn [bind fst snd] in H.
  apply ScenarioFacts.bind_return in H. destruct H as [optimized [Eopt H]].
  apply ScenarioFacts.bind_return in H. destruct H as [user_content [Euc H]].
  destruct (available m =? 0) eqn:Ea; [discriminate|]. cbn [bind] in H.
  injection H as <- <-.
  cbn [chunk_budget history_budget base_tokens chunks_tokens chunks_count history_tokens
       total_tokens].
  exists optimized, user_content. apply Z.eqb_neq in Ea.
  split; [exact Eopt|]. split; [exact Euc|].
  repeat split; auto; now destruct chunks as [[|? ?]|].
Qed.

(** Whenever [build_optimal_context] is given chunks and returns, the chunks
    in the context are the first ones of the optimised chunks: never fewer
    than three (all of them when there are at most three), whatever the
    budget; more than three only when they cost no more than the chunk
    budget; and the first chunk left out, if any, would have taken the cost
    over the budget.  The user message is the formatted chunks, an empty
    line, and the query. *)
Theorem context_keeps_leading_chunks (repr : json -> str) (m : manager)
    (system_prompt guidance : str) (history : list message) (user_query : str)
    (c : VectorSearchResult) (cs : list VectorSearchResult) (chunk_weight : Float.t)
    (messages : list message) (st : stats) :
  build_optimal_context repr m system_prompt guidance history user_query (Some (c :: cs))
    chunk_weight = Return (messages, st) ->
  exists optimized kept dropped text,
    optimize_chunks (c :: cs) 500 = Return optimized /\
    optimized = kept ++ dropped /\
    chunks_count st = Some (length kept) /\
    chunks_tokens st = Some (chunks_cost kept) /\
    (Nat.min 3 (length (c :: cs)) <= length kept)%nat /\
    ((3 < length kept)%nat -> chunks_cost kept <= chunk_budget st) /\
    (forall d rest, dropped = d :: rest -> chunk_budget st < chunks_cost (kept ++ [d])) /\
    _format_chunks_context repr kept = Return text /\
    last messages (Message [] []) 
    = Message (lit "user") (text ++ newline ++ newline ++ user_query).
Proof.
  intros H. apply build_optimal_context_inv in H.
  destruct H as (kept & user_content & Eopt & Euc & _ & -> & _ & Ht & Hc & _).
  apply ScenarioFacts.bind_return in Eopt. destruct Eopt as [optimized [Eo Ek]].
  injection Ek as Ek.
  destruct (optimize_chunks_bounds_lengths (c :: cs)) as [out [Eo' Hlen]].
  rewrite Eo in Eo'. injection Eo' as <-.
  destruct (drop_over_budget_spec (chunk_budget st) (length optimized) optimized)
    as (kept' & dropped & Happ & Ek' & Hmin & Hfit & Hmax); [lia|].
  rewrite Ek in Ek'. subst kept'.
  assert (Hne : kept <> []).
  { intros ->. rewrite Hlen in Hmin. simpl in Hmin. lia. }
  destruct kept as [|k0 kept0]; [congruence|].
  apply ScenarioFacts.bind_return in Euc. destruct Euc as [text [Ef Eu]].
  injection Eu as <-.
  exists optimized, (k0 :: kept0), dropped, text.
  split; [exact Eo|]. split; [exact Happ|]. split; [exact Hc|]. split; [exact Ht|].
  split; [now rewrite <- Hlen|]. split; [exact Hfit|]. split; [exact Hmax|].
  split; [exact Ef|].
  rewrite app_assoc. apply last_last.
Qed.

(** The theorem at five chunks of 2000 characters with 1600 tokens of chunk
    budget: chunks are dropped, and three or more stay. *)
Lemma context_keeps_leading_chunks_witness :
  exists messages st (kept : list VectorSearchResult),
    build_optimal_context sample_repr sample_manager (filler 1600) (filler 1600) []
      (filler 784)
      (Some (repeat (with_content (sample_result 1 (9 # 10)) (filler 2000)) 5))
      (Float.ratio 2 5) = Return (messages, st) /\
    chunks_count st = Some (length kept) /\ (3 <= length kept)%nat.
Proof.
  destruct (build_optimal_context sample_repr sample_manager (filler 1600) (filler 1600) []
              (filler 784)
              (Some (repeat (with_content (sample_result 1 (9 # 10)) (filler 2000)) 5))
              (Float.ratio 2 5)) as [[messages st]|e] eqn:E;
    [|vm_compute in E; discriminate].
  destruct (@context_keeps_leading_chunks sample_repr sample_manager (filler 1600)
              (filler 1600) [] (filler 784)
              (with_content (sample_result 1 (9 # 10)) (filler 2000))
              (repeat (with_content (sample_result 1 (9 # 10)) (filler 2000)) 4)
              (Float.ratio 2 5) messages st E)
    as (opt & kept & dropped & text & _ & _ & Hc & _ & Hmin & _).
  exists messages, st, kept. split; [reflexivity|]. split; [exact Hc|exact Hmin].
Defined.

(** A context built without chunks, as the tool conversation builds it: the
    messages are the system prompt, the guidance, the history as
    [truncate_to_budget] cuts it to the history budget, and the query, in
    that order and the three of them in full.  The total estimate is the
    fixed cost, the history kept, and 8 tokens more (the overhead of the two
    system messages, which the fixed cost leaves out).  A history without
    system messages is kept within the history budget. *)
Theorem tool_context_accounting (repr : json -> str) (m : manager)
    (system_prompt guidance : str) (history : list message) (user_query : str)
    (chunk_weight : Float.t) (messages : list message) (st : stats) :
  build_optimal_context repr m system_prompt guidance history user_query None chunk_weight
    = Return (messages, st) ->
  messages = [ Message (lit "system") system_prompt; Message (lit "system") guidance ]
               ++ truncate_to_budget history (history_budget st)
               ++ [ Message (lit "user") user_query ] /\
  history_tokens st
  = estimate_messages_tokens (truncate_to_budget history (history_budget st)) /\
  total_tokens st = base_tokens st + 8 + history_tokens st /\
  (Forall (fun msg => is_system msg = false) history ->
     history_tokens st <= Z.max 0 (history_budget st)).
Proof.
  intros H. apply build_optimal_context_inv in H.
  destruct H as (optimized & user_content & Eopt & Euc & _ & Hm & Hb & _ & _ & Hh & Ht).
  injection Eopt as <-. injection Euc as <-.
  split; [exact Hm|]. split; [exact Hh|]. split.
  - rewrite Ht, Hm, Hb, Hh. cbn [app].
    rewrite !estimate_messages_cons, estimate_messages_app, estimate_messages_cons.
    cbn [content]. change (estimate_messages_tokens []) with 0. lia.
  - intros Hns. rewrite Hh.
    destruct (truncate_to_budget_fits history (history_budget st))
      as (dropped & kept & E1 & _ & Hfit).
    rewrite E1.
    assert (Hsys : filter is_system history = []).
    { clear -Hns. induction Hns as [|msg l Hm _ IH]; [reflexivity|].
      simpl. now rewrite Hm. }
    rewrite Hsys in *. change (estimate_messages_tokens []) with 0 in Hfit.
    cbn [app]. now rewrite Z.sub_0_r in Hfit.
Qed.

(** The theorem at the sample context (no history). *)
Lemma tool_context_accounting_witness :
  exists messages st,
    sample_context = Return (messages, st) /\
    total_tokens st = base_tokens st + 8 + history_tokens st.
Proof.
  destruct sample_context as [[messages st]|e] eqn:E; [|vm_compute in E; discriminate].
  exists messages, st. split; [reflexivity|].
  now destruct (@tool_context_accounting sample_repr sample_manager (filler 1600)
                  (filler 1600) [] (filler 784) (Float.ratio 2 5) messages st E)
    as (_ & _ & H & _).
Defined.

(** A manager whose reserves take the whole context window (nothing is
    available) never returns a context: if nothing fails before, the
    utilisation [total_tokens / available] divides by zero. *)
Theorem no_context_without_available_tokens (repr : json -> str) (m : manager)
    (system_prompt guidance : str) (history : list message) (user_query : str)
    (chunks : option (list VectorSearchResult)) (chunk_weight : Float.t) :
  available m = 0 ->
  (exists e,
     build_optimal_context repr m system_prompt guidance history user_query chunks
       chunk_weight = Raise e) /\
  (forall budgets, split_budget 0 chunk_weight = Return budgets ->
     build_optimal_context repr m system_prompt guidance history user_query None
       chunk_weight = Raise ZeroDivisionError).
Proof.
  intros Ha. split.
  - destruct (build_optimal_context repr m system_prompt guidance history user_query chunks
                chunk_weight) as [[messages st]|e] eqn:E; [|now exists e].
    apply build_optimal_context_inv in E.
    destruct E as (? & ? & _ & _ & Hne & _). contradiction.
  - intros budgets Hb. unfold build_optimal_context. rewrite Ha.
    pose proof (estimate_tokens_nonneg system_prompt).
    pose proof (estimate_tokens_nonneg guidance).
    pose proof (estimate_tokens_nonneg user_query).
    rewrite Z.max_l by lia. rewrite Hb. reflexivity.
Qed.

(** The theorem at a window of 6000 tokens with 4000 and 2000 reserved. *)
Lemma no_context_without_available_tokens_witness :
  build_optimal_context sample_repr
    {| max_tokens := 6000; reserved_output := 4000; reserved_system := 2000 |}
    (filler 1600) (filler 1600) [] (filler 784) None (Float.ratio 2 5)
  = Raise ZeroDivisionError.
Proof.
  apply (proj2 (@no_context_without_available_tokens sample_repr
                  {| max_tokens := 6000; reserved_output := 4000; reserved_system := 2000 |}
                  (filler 1600) (filler 1600) [] (filler 784) None (Float.ratio 2 5)
                  eq_refl) (0, 0)).
  vm_compute. reflexivity.
Defined.

End ContextBounds.

(* ================================================================== *)
(** * Rank fusion: which results come out *)

Module RrfOutput.
Import Py Rrf RrfFacts.

Lemma NoDup_firstn {A} (n : nat) (l : list A) : NoDup l -> NoDup (firstn n l).
Proof.
  revert n. induction l as [|x r IH]; intros n H; destruct n; simpl; try constructor.
  - inversion H; subst. intros Hin. apply in_firstn in Hin. contradiction.
  - inversion H; subst. now apply IH.
Qed.



(** *** When the merge fails *)

(** [1.0 / n]: division by zero for [n = 0], overflow of the conversion for
    an [n] beyond the binary64 range, a float otherwise. *)
Lemma reciprocal_cases (n : Z) :
  (n = 0 /\ reciprocal n = Raise ZeroDivisionError) \/
  (n <> 0 /\ exists c, reciprocal n = Return c) \/
  (2 ^ 1023 <= Z.abs n /\ reciprocal n = Raise OverflowError).
Proof.
  unfold reciprocal, Float.of_int. destruct n as [|p|p].
  - left. now split.
  - destruct (FloatFacts.of_Z_pos_spec p) as [(m & e & E & _)|[E Hbig]]; rewrite E.
    + right. left. split; [lia|]. eexists. reflexivity.
    + right. right. split; [|reflexivity].
      pose proof (FloatFacts.Zdigits2_bounds (Z.pos p) ltac:(lia)) as [Hb _].
      cbn [Zdigits2] in Hb.
      assert (2 ^ 1023 <= 2 ^ (Z.pos (digits2_pos p) - 1)) by (apply Z.pow_le_mono_r; lia).
      cbn [Z.abs]. lia.
  - destruct (FloatFacts.of_Z_neg_spec p) as [(m & e & E & _)|[E Hbig]]; rewrite E.
    + right. left. split; [lia|]. eexists. reflexivity.
    + right. right. split; [|reflexivity].
      pose proof (FloatFacts.Zdigits2_bounds (Z.pos p) ltac:(lia)) as [Hb _].
      cbn [Zdigits2] in Hb.
      assert (2 ^ 1023 <= 2 ^ (Z.pos (digits2_pos p) - 1)) by (apply Z.pow_le_mono_r; lia).
      cbn [Z.abs]. lia.
Qed.

(** The two dictionaries keep the same keys, whatever [k]. *)
Lemma fuse_item_keys k idx res st st' :
  map fst (fused_scores st) = map fst (best_result_for_chunk st) ->
  fuse_item k idx res st = Return st' ->
  map fst (fused_scores st') = map fst (best_result_for_chunk st').
Proof.
  intros Hkeys. unfold fuse_item.
  destruct (reciprocal (k + (idx + 1))) as [c|e]; cbn [bind]; [|discriminate].
  intros [= <-]. cbn [fused_scores best_result_for_chunk].
  rewrite keys_dict_set.
  pose proof (dict_get_same_keys (cid_of res) _ _ Hkeys) as Hsame.
  destruct (dict_get (cid_of res) (best_result_for_chunk st)) as [b|] eqn:Eb.
  - destruct (dict_get (cid_of res) (fused_scores st)) eqn:Es.
    + destruct (Float.ltb (score b) (score res)); [|exact Hkeys].
      rewrite keys_dict_set, Eb. exact Hkeys.
    + exfalso. assert (Some b = None) by (now apply Hsame). discriminate.
  - destruct (dict_get (cid_of res) (fused_scores st)) eqn:Es.
    + exfalso. assert (Some t = None) by (now apply Hsame). discriminate.
    + rewrite keys_dict_set, Eb. now rewrite Hkeys.
Qed.

Lemma fuse_list_keys k lst : forall idx st st',
  map fst (fused_scores st) = map fst (best_result_for_chunk st) ->
  fuse_list k idx lst st = Return st' ->
  map fst (fused_scores st') = map fst (best_result_for_chunk st').
Proof.
  induction lst as [|res rest IH]; intros idx st st' Hkeys; cbn [fuse_list].
  - now intros [= <-].
  - destruct (fuse_item k idx res st) as [st1|e1] eqn:E1; cbn [bind]; [|discriminate].
    apply IH. now apply (fuse_item_keys _ _ _ _ _ Hkeys E1).
Qed.

Lemma fuse_lists_keys k lists : forall st st',
  map fst (fused_scores st) = map fst (best_result_for_chunk st) ->
  fuse_lists k lists st = Return st' ->
  map fst (fused_scores st') = map fst (best_result_for_chunk st').
Proof.
  induction lists as [|lst rest IH]; intros st st' Hkeys; cbn [fuse_lists].
  - now intros [= <-].
  - destruct (fuse_list k 0 lst st) as [st1|e1] eqn:E1; cbn [bind]; [|discriminate].
    apply IH. now apply (fuse_list_keys _ _ _ _ _ Hkeys E1).
Qed.

(** A list is processed to its end exactly when every division succeeds; a
    failure is the failure of the division at some rank of the list. *)
Lemma fuse_list_outcome k lst : forall idx st,
  ((forall rank, idx + 1 <= rank <= idx + Z.of_nat (length lst) ->
      exists c, reciprocal (k + rank) = Return c) ->
   exists st', fuse_list k idx lst st = Return st') /\
  (forall e, fuse_list k idx lst st = Raise e ->
     exists rank, idx + 1 <= rank <= idx + Z.of_nat (length lst) /\
                  reciprocal (k + rank) = Raise e) /\
  ((exists rank, idx + 1 <= rank <= idx + Z.of_nat (length lst) /\
                 forall c, reciprocal (k + rank) <> Return c) ->
   exists e, fuse_list k idx lst st = Raise e).
Proof.
  induction lst as [|res rest IH]; intros idx st.
  - cbn [fuse_list length]. split; [|split].
    + intros _. now exists st.
    + discriminate.
    + intros (rank & Hr & _). lia.
  - cbn [fuse_list length].
    destruct (fuse_item k idx res st) as [st1|e1] eqn:E1; cbn [bind].
    + destruct (IH (idx + 1) st1) as (IHr & IHe & IHx).
      assert (Hrec : exists c, reciprocal (k + (idx + 1)) = Return c).
      { unfold fuse_item in E1. destruct (reciprocal (k + (idx + 1))) as [c|e];
          [now exists c|discriminate]. }
      split; [|split].
      * intros Hall. apply IHr. intros rank Hrank. apply Hall. lia.
      * intros e He. destruct (IHe e He) as (rank & Hrank & Hr).
        exists rank. split; [lia|exact Hr].
      * intros (rank & Hrank & Hr). apply IHx.
        exists rank. split; [|exact Hr].
        destruct (Z.eq_dec rank (idx + 1)) as [->|Hne]; [|lia].
        destruct Hrec as [c Hc]. exfalso. now apply (Hr c).
    + assert (Hrec : reciprocal (k + (idx + 1)) = Raise e1).
      { unfold fuse_item in E1. destruct (reciprocal (k + (idx + 1))) as [c|e];
          cbn [bind] in E1; [discriminate|congruence]. }
      split; [|split].
      * intros Hall. destruct (Hall (idx + 1) ltac:(lia)) as [c Hc]. congruence.
      * intros e [= <-]. exists (idx + 1). split; [lia|exact Hrec].
      * intros _. now exists e1.
Qed.

Lemma fuse_lists_outcome k lists : forall st,
  ((forall lst, In lst lists -> forall rank, 1 <= rank <= Z.of_nat (length lst) ->
      exists c, reciprocal (k + rank) = Return c) ->
   exists st', fuse_lists k lists st = Return st') /\
  (forall e, fuse_lists k lists st = Raise e ->
     exists lst rank, In lst lists /\ 1 <= rank <= Z.of_nat (length lst) /\
                      reciprocal (k + rank) = Raise e) /\
  ((exists lst rank, In lst lists /\ 1 <= rank <= Z.of_nat (length lst) /\
                     forall c, reciprocal (k + rank) <> Return c) ->
   exists e, fuse_lists k lists st = Raise e).
Proof.
  induction lists as [|lst rest IH]; intros st.
  - cbn [fuse_lists]. split; [|split].
    + intros _. now exists st.
    + discriminate.
    + intros (lst & rank & [] & _).
  - cbn [fuse_lists].
    destruct (fuse_list_outcome k lst 0 st) as (Hr & He & Hx).
    destruct (fuse_list k 0 lst st) as [st1|e1] eqn:E1; cbn [bind].
    + destruct (IH st1) as (IHr & IHe & IHx).
      split; [|split].
      * intros Hall. apply IHr. intros l Hl. apply Hall. now right.
      * intros e He'. destruct (IHe e He') as (l & rank & Hl & Hrank & Hrec).
        exists l, rank. split; [now right|]. now split.
      * intros (l & rank & [<-|Hl] & Hrank & Hrec).
        -- exfalso. destruct Hx as [e Hx']; [exists rank; split; [lia|exact Hrec]|].
           congruence.
        -- apply IHx. exists l, rank. now split.
    + split; [|split].
      * intros Hall. destruct Hr as (st' & E'); [|congruence].
        intros rank Hrank. apply (Hall lst); [now left|lia].
      * intros e [= <-]. destruct (He e1 eq_refl) as (rank & Hrank & Hrec).
        exists lst, rank. split; [now left|]. split; [lia|exact Hrec].
      * intros _. now exists e1.
Qed.

(** The merge fails exactly when the division [1.0 / (k + rank)] fails at
    some rank of some list, with the exception of that division: a
    [ZeroDivisionError] when [k + rank] is zero, an [OverflowError] when it
    is too large to convert to a float (never below [2^1023] in absolute
    value, always from [2^1024] on).  In every other case, negative [k]
    included, it returns. *)
Theorem rrf_merge_fails_only_on_a_division
    (results_by_query : list (list VectorSearchResult)) (k limit : Z) :
  ((forall lst, In lst results_by_query ->
      forall rank, 1 <= rank <= Z.of_nat (length lst) ->
        exists c, reciprocal (k + rank) = Return c) ->
   exists out, _rrf_merge results_by_query k limit = Return out) /\
  ((exists lst rank, In lst results_by_query /\ 1 <= rank <= Z.of_nat (length lst) /\
                     forall c, reciprocal (k + rank) <> Return c) ->
   exists e, _rrf_merge results_by_query k limit = Raise e) /\
  (forall e, _rrf_merge results_by_query k limit = Raise e ->
     (e = ZeroDivisionError \/ e = OverflowError) /\
     exists lst rank, In lst results_by_query /\ 1 <= rank <= Z.of_nat (length lst) /\
                      reciprocal (k + rank) = Raise e) /\
  (forall n, reciprocal n = Raise ZeroDivisionError <-> n = 0) /\
  (forall n, reciprocal n = Raise OverflowError -> 2 ^ 1023 <= Z.abs n) /\
  (forall n, 2 ^ 1024 <= Z.abs n -> reciprocal n = Raise OverflowError).
Proof.
  assert (Hmerge : forall st,
            fuse_lists k results_by_query empty_state = Return st ->
            exists out, _rrf_merge results_by_query k limit = Return out).
  { intros st Est. unfold _rrf_merge. rewrite Est. cbn [bind].
    pose proof (fuse_lists_keys k results_by_query empty_state st eq_refl Est) as Hkeys.
    destruct (fused_triples_spec (best_result_for_chunk st) (fused_scores st))
      as (fused & Ef & _).
    { intros cid Hc. rewrite <- (dict_get_same_keys cid _ _ Hkeys).
      intros Hnone. apply dict_get_none in Hnone. contradiction. }
    rewrite Ef. cbn [bind]. eauto. }
  assert (Hraise : forall e,
            _rrf_merge results_by_query k limit = Raise e ->
            fuse_lists k results_by_query empty_state = Raise e).
  { intros e He. destruct (fuse_lists k results_by_query empty_state) as [st|e'] eqn:Est.
    - destruct (Hmerge st eq_refl) as [out Hout]. congruence.
    - unfold _rrf_merge in He. rewrite Est in He. cbn [bind] in He. congruence. }
  destruct (fuse_lists_outcome k results_by_query empty_state) as (Hr & He & Hx).
  split; [|split; [|split; [|split; [|split]]]].
  - intros Hall. destruct (Hr Hall) as [st Est]. now apply (Hmerge st).
  - intros Hbad. destruct (Hx Hbad) as [e Ee]. exists e.
    unfold _rrf_merge. now rewrite Ee.
  - intros e Hm. destruct (He e (Hraise e Hm)) as (lst & rank & Hl & Hrank & Hrec).
    split; [|now exists lst, rank].
    destruct (reciprocal_cases (k + rank)) as [[_ H]|[[_ [c H]]|[_ H]]];
      rewrite H in Hrec; [left|discriminate|right]; congruence.
  - intros n. destruct (reciprocal_cases n) as [[Hz H]|[[Hz [c H]]|[Hb H]]]; rewrite H.
    + tauto.
    + split; [discriminate|contradiction].
    + split; [discriminate|]. intros ->. cbn [Z.abs] in Hb.
      assert (0 < 2 ^ 1023) by (apply Z.pow_pos_nonneg; lia). lia.
  - intros n. destruct (reciprocal_cases n) as [[Hz H]|[[Hz [c H]]|[Hb H]]]; rewrite H;
      try discriminate. intros _. exact Hb.
  - intros n Hn. unfold reciprocal. now rewrite (FloatFacts.of_int_large n Hn).
Qed.

End RrfOutput.

(* ================================================================== *)
(** * The fusion plan: what its expansions hold *)

Module FusionExpansions.
Import Py PyFacts Scenario Fusion FusionNotions.

(** *** [str.strip] *)

Lemma lstrip_idem (s : str) : lstrip (lstrip s) = lstrip s.
Proof.
  induction s as [|c r IH]; simpl; [reflexivity|].
  destruct (isspace c) eqn:E; [exact IH|]. simpl. now rewrite E.
Qed.

Lemma lstrip_head (s : str) c r : lstrip s = c :: r -> isspace c = false.
Proof.
  induction s as [|a s IH]; simpl; [discriminate|].
  destruct (isspace a) eqn:E; [exact IH|]. now intros [= <- <-].
Qed.

Lemma lstrip_app_last (l : str) c : isspace c = false -> lstrip (l ++ [c]) = lstrip l ++ [c].
Proof.
  intros Hc. induction l as [|a l IH]; simpl; [now rewrite Hc|].
  destruct (isspace a); [exact IH|reflexivity].
Qed.

Lemma rstrip_keeps_head c (r : str) :
  isspace c = false -> rstrip (c :: r) = c :: rstrip r.
Proof.
  intros Hc. unfold rstrip. simpl. rewrite lstrip_app_last by exact Hc.
  now rewrite rev_app_distr.
Qed.

Lemma rstrip_idem (s : str) : rstrip (rstrip s) = rstrip s.
Proof. unfold rstrip. now rewrite rev_involutive, lstrip_idem. Qed.

(** A stripped string is left as it is by [strip]. *)
Lemma strip_idem (s : str) : strip (strip s) = strip s.
Proof.
  unfold strip. destruct (lstrip s) as [|c r] eqn:E; [reflexivity|].
  pose proof (lstrip_head _ _ _ E) as Hc.
  rewrite rstrip_keeps_head by exact Hc. simpl. rewrite Hc.
  rewrite <- (rstrip_keeps_head c r Hc). apply rstrip_idem.
Qed.

Lemma clean_strip (s : str) : blank s = false -> clean (strip s).
Proof. intros H. split; [now rewrite blank_strip|apply strip_idem]. Qed.

(** *** The loop of [expansions] *)

Lemma add_expansion_cases (uniq : list str) (item : str) :
  add_expansion uniq item
  = if blank item || mem item uniq then uniq else uniq ++ [strip item].
Proof.
  unfold add_expansion. rewrite truthy_strip.
  destruct (blank item) eqn:B; simpl; [now rewrite andb_false_r|].
  destruct item; [discriminate|]. simpl. now destruct (mem _ uniq).
Qed.

Lemma fold_add_expansion_clean (items : list str) : forall uniq,
  Forall clean uniq -> Forall clean (fold_left add_expansion items uniq).
Proof.
  induction items as [|item r IH]; intros uniq H; simpl; [exact H|].
  apply IH. rewrite add_expansion_cases.
  destruct (blank item) eqn:B; simpl; [exact H|].
  destruct (mem item uniq); [exact H|].
  apply Forall_app. split; [exact H|]. constructor; [now apply clean_strip|constructor].
Qed.

Lemma fold_add_expansion_from (items : list str) : forall uniq e,
  In e (fold_left add_expansion items uniq) ->
  In e uniq \/ exists item, In item items /\ blank item = false /\ e = strip item.
Proof.
  induction items as [|item r IH]; intros uniq e H; simpl in H; [now left|].
  destruct (IH _ _ H) as [Hin|[x [Hx [Hb ->]]]].
  - rewrite add_expansion_cases in Hin.
    destruct (blank item) eqn:B; simpl in Hin; [now left|].
    destruct (mem item uniq); [now left|].
    apply in_app_or in Hin. destruct Hin as [Hin|[<-|[]]]; [now left|].
    right. exists item. split; [now left|]. split; [exact B|reflexivity].
  - right. exists x. split; [now right|]. split; [exact Hb|reflexivity].
Qed.

Lemma fold_add_expansion_grows (items : list str) : forall uniq e,
  In e uniq -> In e (fold_left add_expansion items uniq).
Proof.
  induction items as [|item r IH]; intros uniq e H; simpl; [exact H|].
  apply IH. rewrite add_expansion_cases.
  destruct (blank item || mem item uniq); [exact H|]. apply in_or_app. now left.
Qed.

Lemma fold_add_expansion_all (items : list str) : forall uniq item,
  Forall clean uniq -> In item items -> blank item = false ->
  In (strip item) (fold_left add_expansion items uniq).
Proof.
  induction items as [|x r IH]; intros uniq item Hc Hin Hb; [destruct Hin|].
  destruct Hin as [<-|Hin]; simpl.
  - apply fold_add_expansion_grows. rewrite add_expansion_cases, Hb. simpl.
    destruct (mem x uniq) eqn:M.
    + apply ExecutorFacts.mem_in in M. rewrite Forall_forall in Hc.
      destruct (Hc x M) as [_ ->]. exact M.
    + apply in_or_app. right. now left.
  - apply IH; auto.
    change (add_expansion uniq x) with (fold_left add_expansion [x] uniq).
    now apply fold_add_expansion_clean.
Qed.

Lemma fold_add_expansion_nodup (items : list str) : forall uniq,
  Forall (fun item => strip item = item) items ->
  NoDup uniq -> NoDup (fold_left add_expansion items uniq).
Proof.
  induction items as [|item r IH]; intros uniq Hs Hnd; simpl; [exact Hnd|].
  inversion Hs as [|? ? Hi Hr]; subst. apply IH; [exact Hr|].
  rewrite add_expansion_cases.
  destruct (blank item) eqn:B; simpl; [exact Hnd|].
  destruct (mem item uniq) eqn:M; [exact Hnd|].
  rewrite Hi. apply ExecutorFacts.nodup_app_one; [exact Hnd|].
  intros Hin. apply ExecutorFacts.mem_in in Hin. congruence.
Qed.

(** Every entry of [expansions] is one of the plan's queries (the base
    query, a refinement or a subquery) stripped of surrounding whitespace; no
    entry is empty or has whitespace at either end; and every query of the
    plan that is not blank has its stripped form among the entries.  When the
    refinements and subqueries are stripped already, no entry occurs twice. *)
Theorem expansions_are_the_stripped_queries (p : FusionPlan) :
  (forall e, In e (expansions p) ->
     blank e = false /\ strip e = e /\
     exists item, In item (base_query p :: refinements p ++ subqueries p) /\ e = strip item) /\
  (forall item, In item (base_query p :: refinements p ++ subqueries p) ->
     blank item = false -> In (strip item) (expansions p)) /\
  (Forall (fun item => strip item = item) (refinements p ++ subqueries p) ->
     NoDup (expansions p)).
Proof.
  unfold expansions. split; [|split].
  - intros e He.
    assert (Hc : Forall clean
                   (fold_left add_expansion (base_query p :: refinements p ++ subqueries p) []))
      by (apply fold_add_expansion_clean; constructor).
    rewrite Forall_forall in Hc. destruct (Hc e He) as [Hb Hs].
    split; [exact Hb|]. split; [exact Hs|].
    destruct (fold_add_expansion_from _ _ _ He) as [[]|[item [Hi [_ ->]]]]. eauto.
  - intros item Hi Hb. apply fold_add_expansion_all; auto.
  - intros Hs. cbn [fold_left]. apply fold_add_expansion_nodup; [exact Hs|].
    rewrite FusionFacts.add_expansion_first. destruct (blank (base_query p)); repeat constructor.
    intros [].
Qed.

(** *** Plans of the planner *)

Section Planner.

Variable repr : json -> str.
Variable json_loads : str -> option json.
Variable json_dumps : json -> str.
Variables system_prompt fusion_prompt : str.
Variable history_tail : Z.
Variable chat : list message -> outcome json.

Local Abbreviation planner :=
  (plan repr json_loads json_dumps system_prompt fusion_prompt history_tail chat).
Local Abbreviation generate :=
  (_generate_fusion_plan repr json_loads json_dumps system_prompt fusion_prompt
     history_tail chat).

Lemma ensure_list_clean (value : json) : Forall clean (_ensure_list repr value).
Proof.
  destruct value as [| | | |s|items|]; simpl; try constructor.
  - rewrite truthy_strip. destruct (blank s) eqn:B; simpl; constructor.
    + now apply clean_strip.
    + constructor.
  - induction items as [|x l IH]; simpl; [constructor|].
    rewrite truthy_strip. destruct (blank (J.str repr x)) eqn:B; simpl; [exact IH|].
    constructor; [now apply clean_strip|exact IH].
Qed.

Lemma plan_lists_clean query history selected_ids p :
  planner query history selected_ids = Return p ->
  Forall clean (refinements p ++ subqueries p).
Proof.
  unfold plan. intros H.
  repeat (apply ScenarioFacts.bind_return in H; destruct H as [? [_ H]]).
  injection H as <-. simpl. apply Forall_app. split; apply ensure_list_clean.
Qed.

(** Whatever the completion model replies, and also when the call fails, the
    plan the agent works with has refinements and subqueries that are
    stripped and not blank, and its expansions hold no query twice. *)
Theorem planned_expansions_are_distinct
    (query : str) (history : list message) (selected_ids : option (list Z)) :
  Forall (fun s => blank s = false /\ strip s = s)
         (refinements (generate query history selected_ids)
            ++ subqueries (generate query history selected_ids)) /\
  NoDup (expansions (generate query history selected_ids)).
Proof.
  assert (Hc : Forall clean (refinements (generate query history selected_ids)
                               ++ subqueries (generate query history selected_ids))).
  { unfold _generate_fusion_plan.
    destruct (planner query (Some history) selected_ids) as [p|e] eqn:E.
    - now apply plan_lists_clean in E.
    - constructor. }
  split; [exact Hc|].
  unfold expansions. cbn [fold_left]. apply fold_add_expansion_nodup.
  - eapply Forall_impl; [|exact Hc]. now intros s [_ Hs].
  - rewrite FusionFacts.add_expansion_first.
    destruct (blank (base_query (generate query history selected_ids))); repeat constructor.
    intros [].
Qed.

End Planner.

End FusionExpansions.

(* ================================================================== *)
(** * The executor: batches that stop, batches of the agent *)

Module ExecutorPlans.
Import Py PyFacts Scenario Executor ExecutorFacts.

(** *** A dependency that is not in the batch *)

(** A set of pending tools each of which waits for a tool of the set, or for
    a tool that is neither pending nor completed, is never scheduled. *)
Lemma schedule_blocked_set store (names : list str) :
  names <> [] ->
  forall fuel pending completed,
    NoDup (keys pending) -> (length pending <= fuel)%nat ->
    (forall n, In n names ->
       exists i d, In (n, i) pending /\ In d (depends_on (exec_at store i)) /\
         (In d names \/ (~ In d (keys pending) /\ ~ In d completed))) ->
    (forall n, In n names -> ~ In n completed) ->
    exists waves, schedule fuel store pending completed = Some (waves, false) /\
      forall n, In n names -> ~ In n (concat waves).
Proof.
  intros Hne. induction fuel as [|fuel IH]; intros pending completed Hnd Hlen Hdep Hfresh.
  - destruct names as [|n0 ns]; [contradiction|].
    destruct (Hdep n0 (or_introl eq_refl)) as (i & _ & Hi & _).
    destruct pending; [contradiction|simpl in Hlen; lia].
  - assert (Hp : pending <> []).
    { destruct names as [|n0 ns]; [contradiction|].
      destruct (Hdep n0 (or_introl eq_refl)) as (i & _ & Hi & _).
      intros ->. contradiction. }
    set (ready := ready_entries store completed pending).
    assert (Hcase : ready = [] \/ ready <> [])
      by (destruct ready; [left|right]; congruence).
    destruct Hcase as [Er|Er].
    { exists []. rewrite schedule_stuck; auto. }
    assert (Hsub : forall n, In n (keys ready) -> In n (keys pending)).
    { intros n Hk. apply in_keys in Hk. destruct Hk as [i Hr]. apply in_keys. exists i.
      unfold ready, ready_entries in Hr. apply filter_In in Hr. tauto. }
    assert (Hout : forall n, In n names -> ~ In n (keys ready)).
    { intros n Hn Hk. apply in_keys in Hk. destruct Hk as [i' Hr].
      unfold ready, ready_entries in Hr. apply filter_In in Hr. destruct Hr as [Hi' Hmet].
      cbn [snd] in Hmet. destruct (Hdep n Hn) as (i & d & Hi & Hd & Hdn).
      assert (i' = i).
      { assert (A1 := in_assoc Hnd Hi). assert (A2 := in_assoc Hnd Hi'). congruence. }
      subst i'. pose proof (deps_met_in _ _ d Hmet Hd) as Hc.
      destruct Hdn as [Hdn|[_ Hdn]]; [now apply (Hfresh d Hdn)|contradiction]. }
    rewrite schedule_step by auto. cbv zeta. fold ready.
    destruct (IH (without (keys ready) pending) (completed ++ keys ready))
      as [waves [Es Hw]].
    + unfold without. now apply nodup_filter_keys.
    + destruct (keys ready) as [|n0 ns] eqn:En.
      * unfold keys in En. apply map_eq_nil in En. contradiction.
      * assert (Hin0 : In n0 (keys pending)) by (apply Hsub; now left).
        pose proof (@length_without_lt (n0 :: ns) pending n0 (or_introl eq_refl) Hin0). lia.
    + intros n Hn. destruct (Hdep n Hn) as (i & d & Hi & Hd & Hdn).
      exists i, d. split; [apply in_without; split; [exact Hi|now apply Hout]|].
      split; [exact Hd|]. destruct Hdn as [Hdn|[Hp1 Hp2]]; [now left|right]. split.
      * intros H. apply in_keys_without in H. tauto.
      * intros H. apply in_app_or in H. destruct H as [H|H]; [contradiction|].
        apply Hp1. now apply Hsub.
    + intros n Hn Hc. apply in_app_or in Hc. destruct Hc as [Hc|Hc].
      * now apply (Hfresh n).
      * now apply (Hout n).
    + rewrite Es. exists (keys ready :: waves). split; [reflexivity|].
      intros n Hn Hc. cbn [concat] in Hc. apply in_app_or in Hc. destruct Hc as [Hc|Hc].
      * now apply (Hout n).
      * now apply (Hw n).
Qed.

Section Missing.

Context {World : Type}.
Variable registry : sdict (@handler World).
Variable max_retries : Z.


End Missing.


(** *** The batches [analyze_dependencies] builds *)

Section Analyze.

Variable json_loads : str -> option json.

Local Abbreviation arguments_of := (call_arguments json_loads).

Lemma call_names_app (a b : list tool_call) :
  call_names (a ++ b) = call_names a ++ call_names b.
Proof. unfold call_names. apply flat_map_app. Qed.

(** The dependencies given to a call named [n], [earlier] being the names of
    the calls before it. *)
Local Abbreviation dependencies_for n args earlier :=
  (if str_eqb n load_tool && mem search_tool earlier
      && match J.get args (lit "document_ids") JNull with
         | Return ids => negb (J.truthy ids)
         | Raise _ => false
         end
   then [search_tool] else []).

Lemma analyze_from_fails (tool_calls : list tool_call) : forall names exs,
  (exists call, In call tool_calls /\ fn_name call = Some load_tool /\
     J.is_dict (arguments_of call) = false) ->
  analyze_from json_loads tool_calls names exs = Raise AttributeError.
Proof.
  induction tool_calls as [|call0 rest IH]; intros names exs [call [Hin [Hn Hd]]];
    [destruct Hin|].
  cbn [analyze_from].
  assert (Hrest : In call rest ->
            exists c, In c rest /\ fn_name c = Some load_tool /\
              J.is_dict (arguments_of c) = false) by eauto.
  destruct (fn_name call0) as [[|c0 s0]|] eqn:En0.
  - destruct Hin as [<-|Hin]; [rewrite Hn in En0; vm_compute in En0; discriminate|].
    apply IH. auto.
  - destruct (str_eqb (c0 :: s0) load_tool) eqn:El.
    + destruct (arguments_of call0) as [| | | | | |kv] eqn:Ea;
        try reflexivity.
      cbn [J.get bind]. apply IH. destruct Hin as [<-|Hin]; [|auto].
      rewrite Ea in Hd. discriminate.
    + cbn [bind]. apply IH. destruct Hin as [<-|Hin]; [|auto].
      assert (Heq : c0 :: s0 = load_tool) by congruence.
      rewrite Heq, str_eqb_refl in El. discriminate.
  - destruct Hin as [<-|Hin]; [congruence|]. apply IH. auto.
Qed.

Lemma analyze_from_builds (tool_calls : list tool_call) : forall names exs,
  (forall call, In call tool_calls -> fn_name call = Some load_tool ->
     J.is_dict (arguments_of call) = true) ->
  exists built,
    analyze_from json_loads tool_calls names exs = Return (exs ++ built) /\
    length built = length (call_names tool_calls) /\
    forall pre call post n,
      tool_calls = pre ++ call :: post -> fn_name call = Some n -> n <> [] ->
      exists ex,
        nth_error built (length (call_names pre)) = Some ex /\
        tool_name ex = n /\ arguments ex = arguments_of call /\
        result ex = None /\ error ex = None /\
        depends_on ex = dependencies_for n (arguments_of call) (names ++ call_names pre).
Proof.
  induction tool_calls as [|call0 rest IH]; intros names exs Hok.
  - exists []. rewrite app_nil_r. split; [reflexivity|]. split; [reflexivity|].
    intros [|? ?] ? ? ? [=].
  - assert (Hok' : forall call, In call rest -> fn_name call = Some load_tool ->
              J.is_dict (arguments_of call) = true) by (intros; apply Hok; [now right|auto]).
    cbn [analyze_from].
    destruct (fn_name call0) as [[|c0 s0]|] eqn:En0.
    + destruct (IH names exs Hok') as (built & E & Hl & Hs).
      exists built. split; [exact E|].
      split; [unfold call_names in *; cbn [flat_map]; now rewrite En0|].
      intros [|c pre] call post n Hsplit Hn Hne; injection Hsplit as <- Hsplit.
      * congruence.
      * destruct (Hs pre call post n Hsplit Hn Hne) as [ex Hex]. exists ex.
        replace (call_names (call0 :: pre)) with (call_names pre); [exact Hex|].
        unfold call_names. cbn [flat_map]. now rewrite En0.
    + set (n0 := (c0 :: s0)) in *.
      assert (Hdeps : (if str_eqb n0 load_tool
                       then (ids <- J.get (arguments_of call0) (lit "document_ids") JNull ;;
                             Return (if negb (J.truthy ids) && mem search_tool names
                                     then [search_tool] else []))%py
                       else Return [])
                      = Return (dependencies_for n0 (arguments_of call0) names)).
      { destruct (str_eqb n0 load_tool) eqn:El; [|reflexivity].
        apply str_eqb_eq in El.
        assert (Hd : J.is_dict (arguments_of call0) = true)
          by (apply Hok; [now left|congruence]).
        destruct (arguments_of call0) as [| | | | | |kv]; try discriminate.
        cbn [J.get bind andb].
        destruct (mem search_tool names); [|now rewrite andb_false_r].
        rewrite andb_true_r. reflexivity. }
      rewrite Hdeps. cbn [bind].
      set (ex0 := {| tool_name := n0; arguments := arguments_of call0;
                     depends_on := dependencies_for n0 (arguments_of call0) names;
                     result := None; error := None |}).
      destruct (IH (names ++ [n0]) (exs ++ [ex0]) Hok') as (built & E & Hl & Hs).
      exists (ex0 :: built).
      split; [refine (eq_trans E _); now rewrite <- app_assoc|].
      split; [unfold call_names in *; cbn [flat_map]; rewrite En0; cbn [app length];
              now rewrite Hl|].
      intros [|c pre] call post n Hsplit Hn Hne; injection Hsplit as <- Hsplit.
      * assert (Hnn : n = n0) by congruence. subst n. exists ex0. split; [reflexivity|].
        unfold ex0. cbn [tool_name arguments result error depends_on call_names flat_map].
        rewrite app_nil_r. repeat split; reflexivity.
      * destruct (Hs pre call post n Hsplit Hn Hne) as (ex & Hnth & Hrest).
        exists ex. split.
        -- unfold call_names. cbn [flat_map]. rewrite En0. exact Hnth.
        -- replace (names ++ call_names (call0 :: pre))
             with ((names ++ [n0]) ++ call_names pre); [exact Hrest|].
           unfold call_names. cbn [flat_map]. rewrite En0, <- app_assoc. reflexivity.
    + destruct (IH names exs Hok') as (built & E & Hl & Hs).
      exists built. split; [exact E|].
      split; [unfold call_names in *; cbn [flat_map]; now rewrite En0|].
      intros [|c pre] call post n Hsplit Hn Hne; injection Hsplit as <- Hsplit.
      * congruence.
      * destruct (Hs pre call post n Hsplit Hn Hne) as [ex Hex]. exists ex.
        replace (call_names (call0 :: pre)) with (call_names pre); [exact Hex|].
        unfold call_names. cbn [flat_map]. now rewrite En0.
Qed.

(** [analyze_dependencies] fails, with [AttributeError], exactly when a call
    of [load_documents_full] has arguments that are not a JSON object.
    Otherwise it builds one execution per named call, in the order of the
    calls, with the name and the parsed arguments of the call and neither
    result nor error; the only dependency it ever records is that of a
    [load_documents_full] call without document ids on
    [search_user_documents], and only when a search call stands earlier in
    the batch: a search placed after the load is not waited for. *)
Theorem analyze_dependencies_reads_earlier_calls (tool_calls : list tool_call) :
  ((exists call, In call tool_calls /\ fn_name call = Some load_tool /\
      J.is_dict (arguments_of call) = false) ->
   analyze_dependencies json_loads tool_calls = Raise AttributeError) /\
  ((forall call, In call tool_calls -> fn_name call = Some load_tool ->
      J.is_dict (arguments_of call) = true) ->
   exists executions,
     analyze_dependencies json_loads tool_calls = Return executions /\
     length executions = length (call_names tool_calls) /\
     forall pre call post n,
       tool_calls = pre ++ call :: post -> fn_name call = Some n -> n <> [] ->
       exists ex,
         nth_error executions (length (call_names pre)) = Some ex /\
         tool_name ex = n /\ arguments ex = arguments_of call /\
         result ex = None /\ error ex = None /\
         depends_on ex
         = if str_eqb n load_tool && mem search_tool (call_names pre)
              && match J.get (arguments_of call) (lit "document_ids") JNull with
                 | Return ids => negb (J.truthy ids)
                 | Raise _ => false
                 end
           then [search_tool] else []).
Proof.
  unfold analyze_dependencies. split.
  - apply analyze_from_fails.
  - intros Hok. destruct (analyze_from_builds tool_calls [] [] Hok) as (built & E & Hl & Hs).
    exists built. split; [exact E|]. split; [exact Hl|exact Hs].
Qed.

End Analyze.

(** *** The waves of the agent's batches *)

(** A batch whose executions wait for nothing, or only for the execution [s]
    of the batch, which waits for nothing: the waves are at most two, and
    the second holds the executions that wait for [s]. *)
Lemma schedule_two_waves_shape store (s : str) (pending : sdict nat) fuel :
  NoDup (keys pending) -> (length pending <= fuel)%nat ->
  (forall n i, In (n, i) pending ->
     depends_on (exec_at store i) = [] \/
     (depends_on (exec_at store i) = [s] /\
      exists j, In (s, j) pending /\ depends_on (exec_at store j) = [])) ->
  exists waves,
    schedule fuel store pending [] = Some (waves, true) /\
    (length waves <= 2)%nat /\
    forall w1 w2, waves = [w1; w2] ->
      In s w1 /\ w2 <> [] /\ NoDup w2 /\
      forall n, In n w2 -> exists i, In (n, i) pending /\ depends_on (exec_at store i) = [s].
Proof.
  intros Hnd Hlen Hdeps.
  assert (Hcase : pending = [] \/ pending <> [])
    by (destruct pending; [left|right]; congruence).
  destruct Hcase as [Ep|Ep].
  { exists []. split; [now apply schedule_done|]. split; [simpl; lia|]. intros ? ? [=]. }
  destruct fuel as [|fuel]; [destruct pending; [contradiction|simpl in Hlen; lia]|].
  set (ready := ready_entries store [] pending).
  assert (Hready : forall n i, In (n, i) ready <->
            In (n, i) pending /\ depends_on (exec_at store i) = []).
  { intros n i. unfold ready, ready_entries. rewrite filter_In. cbn [snd].
    unfold deps_met. split; intros [H1 H2]; split; auto.
    - destruct (depends_on (exec_at store i)); [reflexivity|]. simpl in H2. discriminate.
    - now rewrite H2. }
  assert (Hne : ready <> []).
  { destruct pending as [|[n i] rest]; [contradiction|].
    destruct (Hdeps n i (or_introl eq_refl)) as [H|[_ [j [Hj H]]]].
    - intros E. assert (Hin : In (n, i) ready) by (apply Hready; split; [now left|exact H]).
      rewrite E in Hin. contradiction.
    - intros E. assert (Hin : In (s, j) ready) by (apply Hready; auto).
      rewrite E in Hin. contradiction. }
  rewrite schedule_step by assumption. cbv zeta. fold ready. simpl app.
  set (names := keys ready). set (pending2 := without names pending).
  assert (Hp2 : forall n i, In (n, i) pending2 ->
            In (n, i) pending /\ depends_on (exec_at store i) = [s] /\ In s names).
  { intros n i H. apply in_without in H. destruct H as [Hin Hn]. split; [exact Hin|].
    destruct (Hdeps n i Hin) as [H|[H [j [Hj Hj0]]]].
    - exfalso. apply Hn. apply in_keys. exists i. apply Hready. auto.
    - split; [exact H|]. apply in_keys. exists j. apply Hready. auto. }
  assert (Hcase : pending2 = [] \/ pending2 <> [])
    by (destruct pending2; [left|right]; congruence).
  destruct Hcase as [E2|E2].
  { rewrite schedule_done by exact E2. eexists. split; [reflexivity|].
    split; [simpl; lia|]. intros ? ? [=]. }
  assert (Hlen2 : (length pending2 < length pending)%nat).
  { destruct ready as [|[n0 i0] r] eqn:Er; [contradiction|].
    apply (@length_without_lt names pending n0).
    - unfold names. now left.
    - apply in_keys. exists i0. apply (Hready n0 i0). now left. }
  destruct fuel as [|fuel]; [destruct pending2; [contradiction|simpl in Hlen2; lia]|].
  assert (Hall : ready_entries store names pending2 = pending2).
  { unfold ready_entries. apply forallb_filter_id. apply forallb_forall.
    intros [n i] Hin. cbn [snd]. destruct (Hp2 n i Hin) as (_ & Hd & Hs).
    unfold deps_met. rewrite Hd. simpl. rewrite andb_true_r. now apply mem_in. }
  rewrite schedule_step; [|exact E2|rewrite Hall; exact E2].
  cbv zeta. rewrite Hall.
  assert (E3 : without (keys pending2) pending2 = []).
  { unfold without. destruct (filter _ pending2) as [|[n i] r] eqn:Ef; [reflexivity|].
    assert (Hin : In (n, i) (filter (fun p => negb (mem (fst p) (keys pending2))) pending2))
      by (rewrite Ef; now left).
    apply filter_In in Hin. destruct Hin as [Hin Hm]. cbn [fst] in Hm.
    apply negb_true_iff in Hm.
    assert (Hk : mem n (keys pending2) = true) by (apply mem_in, in_keys; eauto).
    congruence. }
  rewrite schedule_done by exact E3. eexists. split; [reflexivity|].
  split; [simpl; lia|]. intros w1 w2 [= <- <-]. split; [|split; [|split]].
  - destruct pending2 as [|[n i] r]; [contradiction|].
    now destruct (Hp2 n i (or_introl eq_refl)) as (_ & _ & H).
  - intros E. unfold keys in E. apply map_eq_nil in E. contradiction.
  - unfold pending2, without. now apply nodup_filter_keys.
  - intros n Hn. apply in_keys in Hn. destruct Hn as [i Hi].
    destruct (Hp2 n i Hi) as (H1 & H2 & _). eauto.
Qed.

Lemma only_element {A} (a : A) (l : list A) :
  NoDup l -> l <> [] -> (forall x, In x l -> x = a) -> l = [a].
Proof.
  intros Hnd Hne Hall. destruct l as [|x [|y r]]; [contradiction| |].
  - now rewrite (Hall x (or_introl eq_refl)).
  - exfalso. inversion Hnd as [|? ? Hx _]; subst. apply Hx. left.
    rewrite (Hall x), (Hall y); simpl; auto.
Qed.

Section AgentBatches.

Context {World : Type}.
Variable registry : sdict (@handler World).
Variable max_retries : Z.
Variable json_loads : str -> option json.

(** Only a [load_documents_full] execution is given a dependency. *)
Lemma analyze_from_waiting (tool_calls : list tool_call) : forall names exs out,
  (forall ex, In ex exs -> depends_on ex = [] \/ tool_name ex = load_tool) ->
  analyze_from json_loads tool_calls names exs = Return out ->
  forall ex, In ex out -> depends_on ex = [] \/ tool_name ex = load_tool.
Proof.
  induction tool_calls as [|call rest IH]; intros names exs out Hexs; simpl.
  - intros [= <-]. exact Hexs.
  - destruct (fn_name call) as [[|c s]|] eqn:En; try (apply IH; assumption).
    intros H. apply ScenarioFacts.bind_return in H. destruct H as [deps [Hd H]].
    eapply IH; [|exact H].
    intros ex Hin. apply in_app_or in Hin. destruct Hin as [Hin|[<-|[]]]; [auto|].
    cbn [depends_on tool_name].
    destruct (str_eqb (c :: s) load_tool) eqn:El.
    + right. now apply str_eqb_eq.
    + injection Hd as <-. now left.
Qed.


End AgentBatches.


End ExecutorPlans.

(* ================================================================== *)
(** * The tool registry *)

Module RegistryFacts.
Import Py PyFacts Scenario Executor ExecutorFacts.

Section WithWorld.

Context {World : Type}.
Variable json_loads : str -> option json.

Local Abbreviation ToolDefinition := (@Registry.ToolDefinition World).
Local Abbreviation execute := (@Registry.execute World json_loads).
Local Abbreviation parse := (Registry._parse_arguments json_loads).

Lemma parse_arguments_object (raw : option str) (arguments : json) :
  parse raw = Return arguments -> J.is_dict arguments = true.
Proof.
  unfold Registry._parse_arguments.
  destruct raw as [[|c s]|]; try (intros [= <-]; reflexivity).
  destruct (json_loads (c :: s)) as [v|]; [|discriminate].
  destruct (J.is_dict v) eqn:E; [|discriminate]. now intros [= <-].
Qed.

Lemma parse_arguments_errors (raw : option str) (e : exn) :
  parse raw = Raise e -> e = ValueError \/ e = BadToolArguments.
Proof.
  unfold Registry._parse_arguments.
  destruct raw as [[|c s]|]; try discriminate.
  destruct (json_loads (c :: s)) as [v|]; [|intros [= <-]; now left].
  destruct (J.is_dict v); [discriminate|]. intros [= <-]. now right.
Qed.

(** [execute] either calls the handler registered under the name, with
    arguments that are a JSON object, or refuses the call with one of its
    three [ValueError]s (unknown tool, arguments that are not JSON, arguments
    that are not an object) and leaves the world as it was: no handler runs
    on a refused call. *)
Theorem execute_refuses_or_calls_with_object
    (definitions : sdict ToolDefinition) (tool : option str)
    (arguments_json : option str) (w : World) :
  (exists n d arguments,
     tool = Some n /\ J.assoc n definitions = Some d /\
     parse arguments_json = Return arguments /\ J.is_dict arguments = true /\
     execute definitions tool arguments_json w = Registry.handler d arguments w) \/
  (exists e,
     execute definitions tool arguments_json w = (Raise e, w) /\
     In e [UnknownTool; ValueError; BadToolArguments] /\
     (e = UnknownTool <->
      match tool with Some n => J.assoc n definitions = None | None => True end)).
Proof.
  unfold Registry.execute. destruct tool as [n|].
  - destruct (J.assoc n definitions) as [d|] eqn:Ed.
    + destruct (parse arguments_json) as [arguments|e] eqn:Ep.
      * left. exists n, d, arguments. repeat split; auto.
        now apply parse_arguments_object in Ep.
      * right. exists e. split; [reflexivity|].
        destruct (parse_arguments_errors _ _ Ep) as [-> | ->];
          (split; [simpl; tauto|split; discriminate]).
    + right. exists UnknownTool. split; [reflexivity|]. split; [now left|tauto].
  - right. exists UnknownTool. split; [reflexivity|]. split; [now left|tauto].
Qed.

Lemma assoc_handlers (definitions : sdict ToolDefinition) (n : str) :
  J.assoc n (Registry.handlers definitions)
  = option_map (@Registry.handler World) (J.assoc n definitions).
Proof.
  induction definitions as [|[k d] r IH]; [reflexivity|].
  simpl. destruct (str_eqb n k); [reflexivity|exact IH].
Qed.

(** The executor hands the arguments over as JSON text
    ([json.dumps(execution.arguments)]) and the registry parses the text
    again.  When parsing gives the arguments back, the call does what the
    registered handler does on the arguments themselves when they are an
    object, and is refused when they are not or the tool is unknown. *)
Theorem execute_after_dumps (json_dumps : json -> str)
    (definitions : sdict ToolDefinition) (n : str) (arguments : json) (w : World) :
  json_loads (json_dumps arguments) = Some arguments ->
  json_dumps arguments <> [] ->
  execute definitions (Some n) (Some (json_dumps arguments)) w
  = registry_execute (Registry.handlers definitions) n arguments w.
Proof.
  intros Hrt Hne. unfold Registry.execute, registry_execute.
  rewrite assoc_handlers. destruct (J.assoc n definitions) as [d|]; [|reflexivity].
  cbn [option_map]. unfold Registry._parse_arguments.
  destruct (json_dumps arguments) as [|c s] eqn:E; [contradiction|].
  rewrite Hrt. now destruct (J.is_dict arguments).
Qed.

(** *** The registry as a dictionary *)

Lemma find_app {A} (f : A -> bool) (a b : list A) :
  find f (a ++ b) = match find f a with Some x => Some x | None => find f b end.
Proof. induction a as [|x a IH]; simpl; [reflexivity|]. now destruct (f x). Qed.

Lemma assoc_fold_sset {V} (items : list (str * V)) : forall (d : sdict V) key,
  J.assoc key (fold_left (fun d kv => sset (fst kv) (snd kv) d) items d)
  = match find (fun kv => str_eqb (fst kv) key) (rev items) with
    | Some kv => Some (snd kv)
    | None => J.assoc key d
    end.
Proof.
  induction items as [|[k v] l IH]; intros d key; [reflexivity|].
  cbn [fold_left fst snd rev]. rewrite IH, find_app.
  destruct (find _ (rev l)); [reflexivity|]. cbn [find fst snd].
  destruct (str_eqb k key) eqn:E.
  - apply str_eqb_eq in E. subst. apply assoc_sset_same.
  - apply str_eqb_neq in E. now apply assoc_sset_other.
Qed.

Lemma registry_lookup (definitions : list ToolDefinition) (n : str) :
  J.assoc n (Registry.ToolRegistry definitions) = Registry.last_named n definitions.
Proof.
  unfold Registry.ToolRegistry, dict_of, Registry.last_named.
  rewrite assoc_fold_sset, <- map_rev. cbn [J.assoc].
  induction (rev definitions) as [|d l IH]; [reflexivity|].
  cbn [map find fst snd]. destruct (str_eqb (Registry.name d) n); [reflexivity|exact IH].
Qed.

Lemma last_named_name (definitions : list ToolDefinition) (n : str) d :
  Registry.last_named n definitions = Some d -> Registry.name d = n.
Proof.
  unfold Registry.last_named. intros H. apply find_some in H.
  now apply str_eqb_eq.
Qed.

Lemma registry_keys (definitions : list ToolDefinition) (n : str) :
  In n (keys (Registry.ToolRegistry definitions)) <-> In n (map Registry.name definitions).
Proof.
  unfold Registry.ToolRegistry, dict_of. rewrite fold_sset_keys, map_map. cbn [fst keys map].
  change (map (fun x : ToolDefinition => Registry.name x) definitions)
    with (map (@Registry.name World) definitions).
  simpl. tauto.
Qed.

Lemma spec_name_to_openai (d : ToolDefinition) :
  Registry.spec_name (Registry.to_openai d) = Some (Registry.name d).
Proof. reflexivity. Qed.

(** The registry built from a list of definitions holds, under each name,
    the last definition of that name.  [describe] with a list of allowed
    names gives the specifications of the allowed names that are registered,
    in the order of that list, names that are not registered being left out
    silently; without a list it gives every registered name once. *)
Theorem registry_keeps_last_and_describes_allowed
    (definitions : list ToolDefinition) :
  (forall n, J.assoc n (Registry.ToolRegistry definitions)
             = Registry.last_named n definitions) /\
  (forall allowed,
     map Registry.spec_name (Registry.describe (Registry.ToolRegistry definitions)
                               (Some allowed))
     = map Some (filter (fun n => mem n (map Registry.name definitions)) allowed)) /\
  map Registry.spec_name (Registry.describe (Registry.ToolRegistry definitions) None)
  = map Some (keys (Registry.ToolRegistry definitions)) /\
  NoDup (keys (Registry.ToolRegistry definitions)) /\
  (forall n, In n (keys (Registry.ToolRegistry definitions))
             <-> In n (map Registry.name definitions)).
Proof.
  split; [apply registry_lookup|]. split; [|split; [|split]].
  - intros allowed. induction allowed as [|n l IH]; [reflexivity|].
    cbn [Registry.describe flat_map filter] in *.
    destruct (J.assoc n (Registry.ToolRegistry definitions)) as [d|] eqn:E.
    + assert (Hin : mem n (map Registry.name definitions) = true).
      { apply mem_in, registry_keys. apply assoc_in in E. apply in_keys. eauto. }
      rewrite Hin. cbn [app map]. rewrite IH, spec_name_to_openai.
      rewrite registry_lookup in E. now rewrite (last_named_name _ _ _ E).
    + assert (Hin : mem n (map Registry.name definitions) = false).
      { destruct (mem n (map Registry.name definitions)) eqn:M; [|reflexivity].
        apply mem_in, registry_keys in M. apply assoc_none in E. contradiction. }
      rewrite Hin. exact IH.
  - cbn [Registry.describe]. rewrite map_map.
    assert (H : forall p, In p (Registry.ToolRegistry definitions) ->
              Registry.name (snd p) = fst p).
    { intros [k d] Hp. cbn [fst snd].
      pose proof (in_assoc (d := Registry.ToolRegistry definitions) (dict_of_nodup _) Hp)
        as Ha.
      rewrite registry_lookup in Ha. now apply last_named_name in Ha. }
    unfold keys. rewrite map_map. apply map_ext_in. intros p Hp.
    now rewrite spec_name_to_openai, (H p Hp).
  - apply dict_of_nodup.
  - apply registry_keys.
Qed.

End WithWorld.

(** The round trip at the tool [steady] and the empty object. *)
Lemma execute_after_dumps_witness :
  @Registry.execute nat sample_loads
    [ (lit "steady",
       {| Registry.name := lit "steady"; Registry.description := [];
          Registry.parameters := JObj []; Registry.handler := steady |}) ]
    (Some (lit "steady")) (Some (lit "{}")) O
  = (Return (ok_result 2), 1%nat).
Proof.
  rewrite (@execute_after_dumps nat sample_loads (fun _ => lit "{}")
             [ (lit "steady",
                {| Registry.name := lit "steady"; Registry.description := [];
                   Registry.parameters := JObj []; Registry.handler := steady |}) ]
             (lit "steady") (JObj []) O eq_refl ltac:(discriminate)).
  reflexivity.
Defined.

End RegistryFacts.

(* ================================================================== *)
(** * Loading documents in full *)

Module DocumentsFacts.
Import Py Documents.

Lemma fold_length_sum {A} (f : A -> Z) (l : list A) : forall acc,
  fold_left (fun total x => total + f x) l acc = acc + fold_left (fun total x => total + f x) l 0.
Proof.
  induction l as [|x l IH]; intros acc; cbn [fold_left]; [lia|].
  rewrite (IH (acc + f x)), (IH (0 + f x)). lia.
Qed.

Lemma trimmed_length_cons t l :
  trimmed_length (t :: l) = Z.of_nat (length (text t)) + trimmed_length l.
Proof.
  unfold trimmed_length. cbn [fold_left].
  rewrite (fold_length_sum (fun t => Z.of_nat (length (text t)))). lia.
Qed.

Lemma total_length_cons d l :
  total_length (d :: l) = Z.of_nat (length (text_of d)) + total_length l.
Proof.
  unfold total_length. cbn [fold_left].
  rewrite (fold_length_sum (fun d => Z.of_nat (length (text_of d)))). lia.
Qed.

Lemma total_length_nonneg l : 0 <= total_length l.
Proof.
  induction l as [|d l IH]; [reflexivity|]. rewrite total_length_cons. lia.
Qed.

Lemma slice_to_nonneg {A} (n : Z) (l : list A) :
  0 <= n -> slice_to n l = firstn (Z.to_nat n) l.
Proof. intros H. unfold slice_to. now destruct (Z.leb_spec 0 n); [|lia]. Qed.

(** One turn of the loop. *)
Lemma trim_documents_cons (remaining : Z) d rest :
  trim_documents remaining (d :: rest)
  = {| source := d; text := firstn (Z.to_nat (Z.max 0 remaining)) (text_of d) |}
      :: (if remaining - Z.of_nat (length (text_of d)) <=? 0 then []
          else trim_documents (remaining - Z.of_nat (length (text_of d))) rest) /\
  (0 < remaining - Z.of_nat (length (text_of d)) ->
     firstn (Z.to_nat (Z.max 0 remaining)) (text_of d) = text_of d).
Proof.
  cbn [trim_documents]. rewrite slice_to_nonneg by lia.
  set (n := Z.to_nat (Z.max 0 remaining)).
  assert (Hlen : length (firstn n (text_of d)) = Nat.min n (length (text_of d)))
    by apply length_firstn.
  split.
  - f_equal. rewrite Hlen.
    destruct (Z.leb_spec (Z.max 0 (remaining - Z.of_nat (Nat.min n (length (text_of d))))) 0)
      as [H|H];
      destruct (Z.leb_spec (remaining - Z.of_nat (length (text_of d))) 0) as [H'|H'];
      try reflexivity; try (exfalso; subst n; lia).
    replace (Nat.min n (length (text_of d))) with (length (text_of d)) by (subst n; lia).
    now rewrite Z.max_r by lia.
  - intros H. apply firstn_all2. subst n. lia.
Qed.

Lemma trimmed_documents_budget (max_chars : Z) (documents : list ParsedDocument) :
  trimmed_length (trim_documents max_chars documents) <= Z.max 0 max_chars.
Proof.
  revert max_chars. induction documents as [|d rest IH]; intros max_chars.
  - change (trimmed_length (trim_documents max_chars [])) with 0. lia.
  - destruct (trim_documents_cons max_chars d rest) as [E _]. rewrite E.
    rewrite trimmed_length_cons. cbn [text].
    assert (H : Z.of_nat (length (firstn (Z.to_nat (Z.max 0 max_chars)) (text_of d)))
                = Z.min (Z.max 0 max_chars) (Z.of_nat (length (text_of d))))
      by (rewrite length_firstn; lia).
    destruct (Z.leb_spec (max_chars - Z.of_nat (length (text_of d))) 0).
    + change (trimmed_length []) with 0. lia.
    + specialize (IH (max_chars - Z.of_nat (length (text_of d)))). lia.
Qed.

(** The documents handed over by [_tool_load_documents_full] are the first
    documents loaded, in their order, each with a leading part of its
    content; all but the last have their whole content; the characters
    handed over are at most [max(0, max_chars)]; when the documents hold
    fewer characters than [max_chars], all are handed over whole.  The first
    document is always in the result: for [max_chars <= 0] it is the only
    one, with an empty content. *)
Theorem trimmed_documents_fit (max_chars : Z) (documents : list ParsedDocument) :
  map source (trim_documents max_chars documents)
  = firstn (length (trim_documents max_chars documents)) documents /\
  Forall (fun t => exists n, text t = firstn n (text_of (source t)))
         (trim_documents max_chars documents) /\
  trimmed_length (trim_documents max_chars documents) <= Z.max 0 max_chars /\
  (forall front lst, trim_documents max_chars documents = front ++ [lst] ->
     Forall (fun t => text t = text_of (source t)) front) /\
  (total_length documents < max_chars ->
     trim_documents max_chars documents
     = map (fun d => {| source := d; text := text_of d |}) documents) /\
  (forall d rest, documents = d :: rest ->
     exists t more, trim_documents max_chars documents = t :: more /\ source t = d /\
       (max_chars <= 0 -> text t = [] /\ more = [])).
Proof.
  revert max_chars. induction documents as [|d rest IH]; intros max_chars.
  - cbn [trim_documents]. repeat split; try constructor; try reflexivity.
    + change (trimmed_length []) with 0. lia.
    + intros [|? ?] ? [=].
    + intros ? ? [=].
  - destruct (trim_documents_cons max_chars d rest) as [E Hfull]. rewrite E.
    set (first := {| source := d; text := firstn (Z.to_nat (Z.max 0 max_chars)) (text_of d) |}).
    assert (Hfirst : Z.of_nat (length (text first)) <= Z.max 0 max_chars).
    { unfold first. cbn [text]. rewrite length_firstn. lia. }
    destruct (Z.leb_spec (max_chars - Z.of_nat (length (text_of d))) 0) as [Hstop|Hgo].
    + split; [reflexivity|]. split; [repeat constructor; eexists; reflexivity|].
      split; [rewrite trimmed_length_cons; change (trimmed_length []) with 0; lia|].
      split; [intros [|? [|? ?]] ? [=]; constructor|].
      split.
      * intros Htot. rewrite total_length_cons in Htot.
        pose proof (total_length_nonneg rest). lia.
      * intros d' rest' [= <- <-]. exists first, []. split; [reflexivity|].
        split; [reflexivity|]. intros Hneg. split; [|reflexivity].
        unfold first. cbn [text]. now rewrite Z.max_l by lia.
    + specialize (IH (max_chars - Z.of_nat (length (text_of d)))).
      destruct IH as (H1 & H2 & H3 & H4 & H5 & _).
      assert (Hwhole : text first = text_of d) by (apply Hfull; lia).
      split; [cbn [map length firstn]; now rewrite H1|].
      split; [constructor; [eexists; reflexivity|exact H2]|].
      split; [rewrite trimmed_length_cons, Hwhole; lia|].
      split; [|split].
      * intros front lst Hsplit. destruct front as [|f front'].
        -- constructor.
        -- injection Hsplit as <- Hsplit. constructor; [exact Hwhole|].
           now apply (H4 front' lst).
      * intros Htot. rewrite total_length_cons in Htot. cbn [map].
        rewrite H5 by lia. f_equal. unfold first. f_equal. exact Hwhole.
      * intros d' rest' [= <- <-]. eexists first, _. split; [reflexivity|].
        split; [reflexivity|]. intros Hneg. lia.
Qed.

Lemma trimmed_within_total (documents : list ParsedDocument) : forall remaining,
  trimmed_length (trim_documents remaining documents) <= total_length documents.
Proof.
  induction documents as [|d rest IH]; intros remaining; [reflexivity|].
  destruct (trim_documents_cons remaining d rest) as [E _]. rewrite E.
  rewrite trimmed_length_cons, total_length_cons. cbn [text].
  assert (H : Z.of_nat (length (firstn (Z.to_nat (Z.max 0 remaining)) (text_of d)))
              <= Z.of_nat (length (text_of d))) by (rewrite length_firstn; lia).
  destruct (_ <=? 0).
  - change (trimmed_length []) with 0. pose proof (total_length_nonneg rest). lia.
  - specialize (IH (remaining - Z.of_nat (length (text_of d)))). lia.
Qed.

Section Handler.

Variable get_many_by_ids : json -> outcome (list ParsedDocument).
Variable max_context_chars : Z.

Local Abbreviation tool := (_tool_load_documents_full get_many_by_ids max_context_chars).

(** [_tool_load_documents_full] takes the document ids from its arguments
    and, when these give none, from the selection of the context; when both
    give none it raises [ValueError] and loads nothing.  When it returns,
    [total_length] is the length of all the documents loaded, and the
    documents handed over hold at most [max(0, max_chars)] characters and at
    most [total_length], [max_chars] being the integer argument or, when the
    argument is missing or not an integer, the configured maximum. *)
Theorem load_documents_full_needs_ids_and_fits
    (arguments : json) (selected_document_ids : list Z) :
  (forall fields, arguments = JObj fields ->
     J.truthy (match J.assoc (lit "document_ids") fields with
               | Some v => v
               | None => JNull
               end) = false ->
     selected_document_ids = [] ->
     tool arguments selected_document_ids = Raise ValueError) /\
  (forall out total,
     tool arguments selected_document_ids = Return (out, total) ->
     exists fields document_ids documents,
       arguments = JObj fields /\
       J.truthy document_ids = true /\
       get_many_by_ids document_ids = Return documents /\
       total = total_length documents /\
       out = trim_documents
               (max_chars_of max_context_chars
                  (match J.assoc (lit "max_chars") fields with
                   | Some v => v
                   | None => JNull
                   end)) documents /\
       trimmed_length out
       <= Z.max 0 (max_chars_of max_context_chars
                     (match J.assoc (lit "max_chars") fields with
                      | Some v => v
                      | None => JNull
                      end)) /\
       trimmed_length out <= total).
Proof.
  unfold _tool_load_documents_full. split.
  - intros fields -> Hids ->. cbn [J.get bind]. rewrite Hids. reflexivity.
  - intros out total H.
    destruct arguments as [| | | | | |fields]; try discriminate.
    cbn [J.get bind] in H.
    set (given := match J.assoc (lit "document_ids") fields with
                  | Some v => v
                  | None => JNull
                  end) in *.
    set (ids := if J.truthy given then given else JArr (map JInt selected_document_ids)) in *.
    destruct (J.truthy ids) eqn:Et; cbn [negb] in H; [|discriminate].
    unfold _load_documents in H.
    destruct (get_many_by_ids ids) as [documents|e] eqn:Eg; [|discriminate].
    cbn [bind fst snd] in H. injection H as <- <-.
    exists fields, ids, documents. repeat split; auto.
    + pose proof (trimmed_documents_budget
                    (max_chars_of max_context_chars
                       (match J.assoc (lit "max_chars") fields with
                        | Some v => v
                        | None => JNull
                        end)) documents). assumption.
    + apply trimmed_within_total.
Qed.

End Handler.

End DocumentsFacts.

(* ================================================================== *)
(** * Finance news: the order of the results *)

Module NewsFacts.
Import Py PyFacts Scenario News.

Lemma url_of_raises (item : json) (e : exn) : url_of item = Raise e -> e = AttributeError.
Proof.
  unfold url_of. destruct item as [| | | | | |fields]; try (now intros [= <-]).
  cbn [J.get bind]. destruct (J.or_else _ _); now intros [= <-].
Qed.

Lemma url_of_object (item : json) (url : str) :
  url_of item = Return url -> exists fields, item = JObj fields.
Proof. destruct item; try discriminate. eauto. Qed.

(** The URL under which an item is known. *)
Local Abbreviation url item :=
  (match url_of item with Return u => u | Raise _ => [] end).

Lemma dedupe_raises (results : list json) : forall seen e,
  dedupe results seen = Raise e -> e = AttributeError.
Proof.
  induction results as [|item rest IH]; intros seen e; cbn [dedupe]; [discriminate|].
  destruct (url_of item) as [u|e'] eqn:Eu; cbn [bind].
  - destruct (negb (truthy_str u) || mem u seen); [apply IH|].
    destruct (dedupe rest (seen ++ [u])) as [kept|e''] eqn:Ed; [discriminate|].
    cbn [bind]. intros [= <-]. now apply IH in Ed.
  - intros [= <-]. now apply url_of_raises in Eu.
Qed.

Lemma dedupe_fails (results : list json) : forall seen,
  (exists item, In item results /\ forall u, url_of item <> Return u) ->
  dedupe results seen = Raise AttributeError.
Proof.
  induction results as [|item rest IH]; intros seen [bad [Hin Hbad]]; [destruct Hin|].
  cbn [dedupe]. destruct (url_of item) as [u|e] eqn:Eu; cbn [bind].
  - assert (Hrest : exists i, In i rest /\ forall u, url_of i <> Return u).
    { destruct Hin as [<-|Hin]; [exfalso; now apply (Hbad u)|eauto]. }
    destruct (negb (truthy_str u) || mem u seen); [now apply IH|].
    now rewrite (IH (seen ++ [u]) Hrest).
  - now rewrite (url_of_raises _ _ Eu).
Qed.

Lemma dedupe_spec (results : list json) : forall seen,
  (forall item, In item results -> exists u, url_of item = Return u) ->
  exists out,
    dedupe results seen = Return out /\
    (forall item, In item out -> In item results) /\
    NoDup (map (fun item => url item) out) /\
    Forall (fun item => url item <> [] /\ ~ In (url item) seen) out /\
    (forall item, In item results -> url item <> [] -> ~ In (url item) seen ->
       In (url item) (map (fun item => url item) out)) /\
    (length out <= length results)%nat.
Proof.
  induction results as [|item rest IH]; intros seen Hok.
  - exists []. repeat split; try constructor; auto.
  - assert (Hok' : forall i, In i rest -> exists u, url_of i = Return u)
      by (intros; apply Hok; now right).
    cbn [dedupe]. destruct (Hok item (or_introl eq_refl)) as [u Eu]. rewrite Eu. cbn [bind].
    destruct (negb (truthy_str u) || mem u seen) eqn:Eskip.
    + destruct (IH seen Hok') as (out & E & Hsub & Hnd & Hall & Hcomp & Hlen).
      exists out. split; [exact E|]. split; [intros; right; auto|].
      split; [exact Hnd|]. split; [exact Hall|]. split; [|cbn [length]; lia].
      intros i [<-|Hi] Hne Hns; [|auto]. exfalso. rewrite Eu in *.
      apply orb_true_iff in Eskip. destruct Eskip as [Ht|Hm].
      * destruct u; [contradiction|discriminate].
      * apply ExecutorFacts.mem_in in Hm. contradiction.
    + apply orb_false_iff in Eskip. destruct Eskip as [Ht Hm].
      assert (Hne : u <> []) by (intros ->; discriminate).
      assert (Hns : ~ In u seen).
      { intros H. apply ExecutorFacts.mem_in in H. congruence. }
      destruct (IH (seen ++ [u]) Hok') as (out & E & Hsub & Hnd & Hall & Hcomp & Hlen).
      rewrite E. cbn [bind]. exists (item :: out). split; [reflexivity|].
      split; [intros i [<-|Hi]; [now left|right; auto]|].
      rewrite Forall_forall in Hall.
      split; [|split; [|split; [|cbn [length]; lia]]].
      * cbn [map]. rewrite Eu. constructor; [|exact Hnd].
        intros Hin. apply in_map_iff in Hin. destruct Hin as [i [Hi Hin]].
        destruct (Hall i Hin) as [_ Hfresh]. apply Hfresh. rewrite Hi.
        apply in_or_app. right. now left.
      * constructor; [rewrite Eu; auto|]. apply Forall_forall. intros i Hi.
        destruct (Hall i Hi) as [H1 H2]. split; [exact H1|].
        intros H. apply H2. apply in_or_app. now left.
      * intros i [<-|Hi] Hne' Hns'; [cbn [map]; now left|].
        cbn [map]. destruct (list_eq_dec N.eq_dec (url i) u) as [Heq|Hneq].
        -- left. now rewrite Eu.
        -- right. apply Hcomp; auto. intros H. apply in_app_or in H.
           destruct H as [H|[H|[]]]; [contradiction|now apply Hneq].
Qed.

Section WithRuntime.

Variable lower : str -> str.
Variable repr : json -> str.
Variable hostname_of : str -> str.

Local Abbreviation is_russian := (_is_russian_source lower repr hostname_of).
Local Abbreviation prioritize := (_prioritize_news_results lower repr hostname_of).

Lemma is_russian_returns (item : json) (u : str) :
  url_of item = Return u -> exists b, is_russian item = Return b.
Proof.
  intros Eu. unfold _is_russian_source. rewrite Eu. cbn [bind].
  destruct (existsb _ _RUSSIAN_NEWS_DOMAINS); [eauto|].
  destruct (url_of_object _ _ Eu) as [fields ->]. cbn [J.get bind]. eauto.
Qed.

Lemma split_sources_spec (items : list json) :
  (forall item, In item items -> exists u, url_of item = Return u) ->
  exists russian others,
    split_sources lower repr hostname_of items = Return (russian, others) /\
    Forall (fun i => is_russian i = Return true) russian /\
    Forall (fun i => is_russian i = Return false) others /\
    Permutation.Permutation (russian ++ others) items.
Proof.
  induction items as [|item rest IH]; intros Hok.
  - exists [], []. repeat split; constructor.
  - destruct IH as (ru & gl & E & Hru & Hgl & Hperm); [intros; apply Hok; now right|].
    destruct (Hok item (or_introl eq_refl)) as [u Eu].
    destruct (is_russian_returns item u Eu) as [b Eb].
    cbn [split_sources]. rewrite Eb, E. cbn [bind fst snd]. destruct b.
    + exists (item :: ru), gl. repeat split; auto. cbn [app]. now constructor.
    + exists ru, (item :: gl). repeat split; auto.
      symmetry. apply Permutation.Permutation_cons_app. now symmetry.
Qed.

(** [_prioritize_news_results] raises [AttributeError] when a result is not
    an object or has a URL that is neither a string nor empty.  Otherwise it
    returns results of the input, the Russian sources before the others; no
    two of them have the same URL (compared after stripping), none has an
    empty URL, and every URL of the input that is not empty is the URL of a
    result: only repetitions and results without a URL are left out. *)
Theorem prioritized_news_are_distinct_russian_first (results : list json) :
  ((exists item, In item results /\ forall u, url_of item <> Return u) ->
   prioritize results = Raise AttributeError) /\
  ((forall item, In item results -> exists u, url_of item = Return u) ->
   exists russian others,
     prioritize results = Return (russian ++ others) /\
     Forall (fun i => is_russian i = Return true) russian /\
     Forall (fun i => is_russian i = Return false) others /\
     (forall item, In item (russian ++ others) -> In item results) /\
     NoDup (map (fun item => url item) (russian ++ others)) /\
     Forall (fun item => url item <> []) (russian ++ others) /\
     (forall item, In item results -> url item <> [] ->
        In (url item) (map (fun item => url item) (russian ++ others))) /\
     (length (russian ++ others) <= length results)%nat).
Proof.
  unfold _prioritize_news_results. split.
  - intros Hbad. destruct results as [|r0 rest]; [destruct Hbad as [? [[] _]]|].
    now rewrite (dedupe_fails _ [] Hbad).
  - intros Hok. destruct results as [|r0 rest].
    + exists [], []. repeat split; try constructor; auto.
    + destruct (dedupe_spec (r0 :: rest) [] Hok)
        as (out & E & Hsub & Hnd & Hall & Hcomp & Hlen).
      rewrite E. cbn [bind].
      destruct (split_sources_spec out) as (ru & gl & Es & Hru & Hgl & Hperm).
      { intros i Hi. apply Hok. auto. }
      rewrite Es. cbn [bind fst snd]. exists ru, gl. split; [reflexivity|].
      split; [exact Hru|]. split; [exact Hgl|].
      assert (Hin : forall i, In i (ru ++ gl) <-> In i out).
      { intros i. split; apply Permutation.Permutation_in; [exact Hperm|now symmetry]. }
      split; [intros i Hi; apply Hsub; now apply Hin|].
      split; [|split; [|split]].
      * eapply Permutation.Permutation_NoDup; [|exact Hnd].
        apply Permutation.Permutation_map. now symmetry.
      * apply Forall_forall. intros i Hi. rewrite Forall_forall in Hall.
        now destruct (Hall i (proj1 (Hin i) Hi)).
      * intros i Hi Hne.
        eapply Permutation.Permutation_in;
          [apply Permutation.Permutation_map; symmetry; exact Hperm|].
        apply Hcomp; auto.
      * now rewrite (Permutation.Permutation_length Hperm).
Qed.

End WithRuntime.

End NewsFacts.

(* ================================================================== *)
(** ** The agent's run: which tools a request may use *)

Module RoutingFacts.

Import Scenario Routing.

Lemma is_text_eq (value : json) (text : Py.str) :
  is_text value text = true <-> value = JStr text.
Proof.
  destruct value; simpl; try (split; [discriminate|intros [=]]).
  rewrite PyFacts.str_eqb_eq. split; [now intros ->|now intros [= ->]].
Qed.

Lemma is_text_neq (value : json) (text : Py.str) :
  is_text value text = false <-> value <> JStr text.
Proof.
  rewrite <- is_text_eq. destruct (is_text value text); split; congruence.
Qed.

Lemma tools_empty (scenario : Z) (intent : json) :
  _tools_for_scenario scenario intent = [] <->
  ~ In scenario [1; 2; 3; 4] \/
  (scenario = 2 /\
   (intent = JStr (Py.lit "small_talk") \/ intent = JStr (Py.lit "off_topic"))).
Proof.
  unfold _tools_for_scenario.
  destruct (Z.eqb_spec scenario 1) as [->|H1].
  { split; [discriminate|]. intros [H|[H _]]; [exfalso; apply H; simpl; tauto|discriminate]. }
  destruct (Z.eqb_spec scenario 2) as [->|H2].
  { destruct (is_text intent (Py.lit "small_talk")) eqn:Es; simpl.
    - apply is_text_eq in Es. split; [|reflexivity]. intros _. right. tauto.
    - destruct (is_text intent (Py.lit "off_topic")) eqn:Eo.
      + apply is_text_eq in Eo. split; [|reflexivity]. intros _. right. tauto.
      + apply is_text_neq in Es, Eo.
        assert (Hno : ~ (~ In 2 [1; 2; 3; 4] \/
                         2 = 2 /\ (intent = JStr (Py.lit "small_talk") \/
                                   intent = JStr (Py.lit "off_topic")))).
        { intros [H|[_ [H|H]]]; [apply H; simpl; tauto|now apply Es|now apply Eo]. }
        repeat match goal with
               | |- context [if ?b then _ else _] => destruct b
               end; (split; [discriminate|intros H; now destruct (Hno H)]). }
  destruct (Z.eqb_spec scenario 3) as [->|H3].
  { split; [discriminate|]. intros [H|[H _]]; [exfalso; apply H; simpl; tauto|discriminate]. }
  destruct (Z.eqb_spec scenario 4) as [->|H4].
  { split; [discriminate|]. intros [H|[H _]]; [exfalso; apply H; simpl; tauto|discriminate]. }
  split; [|reflexivity]. intros _. left. simpl. lia.
Qed.

Lemma tools_values (scenario : Z) (intent : json) :
  In (_tools_for_scenario scenario intent)
     [ []; [Py.lit "search_user_documents"]; [Py.lit "fetch_cbr_data"];
       [Py.lit "fetch_finance_news"]; [Py.lit "search_general_kb"];
       [Py.lit "search_general_kb"; Py.lit "search_user_documents"];
       [Py.lit "load_documents_full"] ].
Proof.
  unfold _tools_for_scenario.
  repeat match goal with
         | |- context [if ?b then _ else _] => destruct b
         end; cbn [In]; auto 10.
Qed.

(** Whatever the scenario and the intent, the tools offered to the model are
    registered ones, none of them twice; and no tool is offered exactly when
    the scenario is not one of 1, 2, 3, 4, or it is 2 with the intent
    [small_talk] or [off_topic]. *)
Theorem tools_for_scenario_are_registered (scenario : Z) (intent : json) :
  incl (_tools_for_scenario scenario intent) registered_tools /\
  NoDup (_tools_for_scenario scenario intent) /\
  (_tools_for_scenario scenario intent = [] <->
   ~ In scenario [1; 2; 3; 4] \/
   (scenario = 2 /\
    (intent = JStr (Py.lit "small_talk") \/ intent = JStr (Py.lit "off_topic")))).
Proof.
  split; [|split; [|apply tools_empty]].
  - pose proof (tools_values scenario intent) as H. cbn [In] in H.
    intros x Hx.
    repeat (destruct H as [H|H]; [rewrite <- H in Hx; cbn [In] in Hx|]);
      try contradiction;
      repeat (destruct Hx as [<-|Hx]; [unfold registered_tools; cbn [In]; auto 10|]);
      contradiction.
  - pose proof (tools_values scenario intent) as H. cbn [In] in H.
    repeat (destruct H as [H|H]; [rewrite <- H|]); try contradiction;
      repeat constructor; cbn [In]; try tauto.
    intros [E|[]]. vm_compute in E. discriminate.
Qed.

Section Run.

Variable _load_chat_history : Z -> outcome (list message).
Variable _choose_scenario :
  Py.str -> list message -> option (list Z) -> outcome Scenario.ScenarioDecision.
Variable _ask_clarification : Py.str -> list message -> list Py.str -> outcome Py.str.
Variable _load_documents : list Z -> outcome Z.
Variable _max_context_chars : Z.
Variable _get_predefined_response : json -> Py.str -> Py.str.
Variable _answer_format_instructions : Py.str.
Variable _vector_search_unavailable_message : Py.str.

Local Abbreviation conversations :=
  (Z -> Py.str -> list message -> Py.str -> list Py.str -> option (list Z) -> json -> json
   -> conversation).
Local Abbreviation run_with conv :=
  (run _load_chat_history _choose_scenario _ask_clarification _load_documents
       _max_context_chars _get_predefined_response _answer_format_instructions
       _vector_search_unavailable_message conv).
Local Abbreviation adjust :=
  (_adjust_scenario_for_documents _load_documents _max_context_chars).
Local Abbreviation instructions_of :=
  (_resolve_instructions _answer_format_instructions).

Lemma in_predefined_false (intent : json) :
  in_predefined intent = Return false ->
  is_text intent (Py.lit "small_talk") = false /\
  is_text intent (Py.lit "off_topic") = false.
Proof.
  intros Hp. apply Bool.orb_false_iff.
  destruct intent; simpl in Hp |- *; congruence.
Qed.

(** What [run] has established when it reaches the tool conversation. *)
Lemma tools_branch (s : Z) (intent : json) :
  in_predefined intent = Return false ->
  (s =? 5)
  || (match _tools_for_scenario s intent with [] => true | _ => false end
      && negb (is_text intent (Py.lit "small_talk"))
      && negb (is_text intent (Py.lit "off_topic"))) = false ->
  In s [1; 2; 3; 4] /\ _tools_for_scenario s intent <> [].
Proof.
  intros Hp Hc.
  destruct (in_predefined_false _ Hp) as [Hs Ho]. rewrite Hs, Ho in Hc. simpl in Hc.
  apply Bool.orb_false_iff in Hc. destruct Hc as [_ Hc].
  rewrite !Bool.andb_true_r in Hc.
  assert (Hne : _tools_for_scenario s intent <> []).
  { intros E. rewrite E in Hc. discriminate. }
  split; [|exact Hne].
  destruct (in_dec Z.eq_dec s [1; 2; 3; 4]) as [Hin|Hout]; [exact Hin|].
  exfalso. apply Hne. apply tools_empty. now left.
Qed.

(** And the other way round. *)
Lemma no_tools_branch (s : Z) (intent : json) :
  in_predefined intent = Return false ->
  ~ In s [1; 2; 3; 4] ->
  (s =? 5)
  || (match _tools_for_scenario s intent with [] => true | _ => false end
      && negb (is_text intent (Py.lit "small_talk"))
      && negb (is_text intent (Py.lit "off_topic"))) = true.
Proof.
  intros Hp Hout.
  destruct (in_predefined_false _ Hp) as [Hs Ho]. rewrite Hs, Ho.
  assert (E : _tools_for_scenario s intent = []) by (apply tools_empty; now left).
  rewrite E. simpl. apply Bool.orb_true_r.
Qed.

(** The tool conversation is entered only with a scenario from 1 to 4, the
    tools of that scenario (at least one), the instructions resolved from
    the request and an intent that is neither [small_talk] nor [off_topic]:
    two conversations that agree on such calls give the same run. *)
Theorem run_starts_tools_only_when_routed (conv1 conv2 : conversations)
    (query : Py.str) (chat_id : option Z) (selected : option (list Z))
    (answer_instructions : option Py.str) :
  (forall scenario history intent use_query_expansion,
      In scenario [1; 2; 3; 4] ->
      _tools_for_scenario scenario intent <> [] ->
      in_predefined intent = Return false ->
      conv1 scenario query history (instructions_of answer_instructions)
            (_tools_for_scenario scenario intent) selected intent use_query_expansion
      = conv2 scenario query history (instructions_of answer_instructions)
              (_tools_for_scenario scenario intent) selected intent use_query_expansion) ->
  run_with conv1 query chat_id selected answer_instructions
  = run_with conv2 query chat_id selected answer_instructions.
Proof.
  intros Hagree. unfold run.
  destruct (history_of _load_chat_history chat_id) as [history|e]; [|reflexivity].
  cbn [bind].
  destruct (_choose_scenario query history selected) as [decision|e]; [|reflexivity].
  cbn [bind].
  destruct (Scenario.follow_up decision); [reflexivity|].
  destruct (adjust selected (Scenario.scenario decision)) as [s|e]; [|reflexivity].
  cbn [bind].
  destruct (in_predefined (Scenario.intent decision)) as [[|]|e] eqn:Hp;
    [reflexivity| |reflexivity].
  cbn [bind].
  match goal with |- (if ?c then _ else _) = _ => destruct c eqn:Hc end; [reflexivity|].
  destruct (tools_branch _ _ Hp Hc) as [Hin Hne].
  now rewrite (Hagree s history _ (Scenario.use_query_expansion decision) Hin Hne Hp).
Qed.

(** A run that needs no tool.  With the follow-up flag off and the scenario
    adjusted to [s]: an intent that is a list or an object fails with
    [TypeError]; the intents [small_talk] and [off_topic] get the predefined
    answer whatever [s] is; and any other intent with [s] outside 1..4 gets
    a clarification, the result still carrying [s]. *)
Theorem run_answers_without_tools (conv : conversations)
    (query : Py.str) (chat_id : option Z) (selected : option (list Z))
    (answer_instructions : option Py.str)
    (history : list message) (decision : Scenario.ScenarioDecision) (s : Z) :
  history_of _load_chat_history chat_id = Return history ->
  _choose_scenario query history selected = Return decision ->
  Scenario.follow_up decision = false ->
  adjust selected (Scenario.scenario decision) = Return s ->
  ((exists items, Scenario.intent decision = JArr items) \/
   (exists fields, Scenario.intent decision = JObj fields) ->
   run_with conv query chat_id selected answer_instructions = Raise TypeError) /\
  (Scenario.intent decision = JStr (Py.lit "small_talk") \/
   Scenario.intent decision = JStr (Py.lit "off_topic") ->
   run_with conv query chat_id selected answer_instructions
   = Return {| answer := _get_predefined_response (Scenario.intent decision) query;
               used_chunks := []; result_scenario := s |}) /\
  (in_predefined (Scenario.intent decision) = Return false ->
   ~ In s [1; 2; 3; 4] ->
   run_with conv query chat_id selected answer_instructions
   = (answer <- _ask_clarification query history (Scenario.clarifications decision) ;;
      Return {| answer := answer; used_chunks := []; result_scenario := s |})%py).
Proof.
  intros Hh Hd Hf Ha. unfold run. rewrite Hh. cbn [bind]. rewrite Hd. cbn [bind].
  rewrite Hf, Ha. cbn [bind].
  split; [|split].
  - intros [[items E]|[fields E]]; now rewrite E.
  - intros [E|E]; now rewrite E.
  - intros Hp Hout. rewrite Hp. cbn [bind].
    now rewrite (no_tools_branch _ _ Hp Hout).
Qed.

(** A result that carries chunks was produced by the tool conversation: its
    scenario is one of 1, 2, 3, 4, and its answer and its chunks are those
    the conversation ended with, for the tools of that scenario. *)
Theorem run_chunks_come_from_the_tools (conv : conversations)
    (query : Py.str) (chat_id : option Z) (selected : option (list Z))
    (answer_instructions : option Py.str) (r : AgentResult) :
  run_with conv query chat_id selected answer_instructions = Return r ->
  used_chunks r <> [] ->
  In (result_scenario r) [1; 2; 3; 4] /\
  exists history decision,
    history_of _load_chat_history chat_id = Return history /\
    _choose_scenario query history selected = Return decision /\
    Scenario.follow_up decision = false /\
    in_predefined (Scenario.intent decision) = Return false /\
    conv (result_scenario r) query history (instructions_of answer_instructions)
         (_tools_for_scenario (result_scenario r) (Scenario.intent decision))
         selected (Scenario.intent decision) (Scenario.use_query_expansion decision)
    = Finished (answer r) (used_chunks r).
Proof.
  unfold run. intros Hrun Hchunks.
  destruct (history_of _load_chat_history chat_id) as [history|e] eqn:Hh; [|discriminate].
  cbn [bind] in Hrun.
  destruct (_choose_scenario query history selected) as [decision|e] eqn:Hd; [|discriminate].
  cbn [bind] in Hrun.
  destruct (Scenario.follow_up decision) eqn:Hf.
  { destruct (_ask_clarification query history (Scenario.clarifications decision));
      [|discriminate]. cbn [bind] in Hrun. injection Hrun as <-. now destruct Hchunks. }
  destruct (adjust selected (Scenario.scenario decision)) as [s|e]; [|discriminate].
  cbn [bind] in Hrun.
  destruct (in_predefined (Scenario.intent decision)) as [[|]|e] eqn:Hp;
    cbn [bind] in Hrun; [injection Hrun as <-; now destruct Hchunks| |discriminate].
  match type of Hrun with (if ?c then _ else _) = _ => destruct c eqn:Hc end.
  { destruct (_ask_clarification query history (Scenario.clarifications decision));
      [|discriminate]. cbn [bind] in Hrun. injection Hrun as <-. now destruct Hchunks. }
  destruct (tools_branch _ _ Hp Hc) as [Hin Hne].
  match type of Hrun with (match ?c with _ => _ end) = _ => destruct c eqn:Hconv end;
    [|injection Hrun as <-; now destruct Hchunks|discriminate].
  injection Hrun as <-. cbn [result_scenario answer used_chunks].
  split; [exact Hin|]. exists history, decision. repeat split; assumption.
Qed.

End Run.

Lemma run_starts_tools_only_when_routed_witness :
  sample_run 2 (JStr (Py.lit "cbr_rate"))
    (fun s _ => if (1 <=? s) && (s <=? 4) then Finished (Py.lit "a") [] else SearchUnavailable)
  = sample_run 2 (JStr (Py.lit "cbr_rate")) (fun _ _ => Finished (Py.lit "a") []).
Proof.
  unfold sample_run. apply run_starts_tools_only_when_routed.
  intros scenario history intent use_query_expansion Hin _ _.
  destruct Hin as [<-|[<-|[<-|[<-|[]]]]]; reflexivity.
Defined.

Lemma run_answers_without_tools_witness :
  sample_run 7 (JStr (Py.lit "cbr_rate")) (fun _ _ => SearchUnavailable)
  = Return {| answer := Py.lit "?"; used_chunks := []; result_scenario := 7 |}.
Proof.
  unfold sample_run.
  refine (proj2 (proj2 (run_answers_without_tools
                          (fun _ => Return (@nil message))
                          (fun _ _ _ => Return (sample_decision 7 (JStr (Py.lit "cbr_rate"))))
                          (fun _ _ _ => Return (Py.lit "?"))
                          (fun _ => Return 0) 100
                          (fun _ _ => Py.lit "hello") (Py.lit "format")
                          (Py.lit "unavailable")
                          (fun _ _ _ _ _ _ _ _ => SearchUnavailable)
                          (Py.lit "query") None None None
                          (@nil message) (sample_decision 7 (JStr (Py.lit "cbr_rate"))) 7
                          eq_refl eq_refl eq_refl eq_refl)) eq_refl _).
  simpl. lia.
Defined.

Lemma run_chunks_come_from_the_tools_witness :
  In 1 [1; 2; 3; 4] /\
  exists (history : list message) (decision : ScenarioDecision),
    Return (@nil message) = Return history /\
    Return (sample_decision 1 JNull) = Return decision /\
    Scenario.follow_up decision = false /\
    in_predefined (Scenario.intent decision) = Return false /\
    Finished (Py.lit "a") [Rrf.sample_result 7 1] = Finished (Py.lit "a") [Rrf.sample_result 7 1].
Proof.
  refine (run_chunks_come_from_the_tools
            (fun _ => Return (@nil message))
            (fun _ _ _ => Return (sample_decision 1 JNull))
            (fun _ _ _ => Return (Py.lit "?"))
            (fun _ => Return 0) 100
            (fun _ _ => Py.lit "hello") (Py.lit "format") (Py.lit "unavailable")
            (fun _ _ _ _ _ _ _ _ => Finished (Py.lit "a") [Rrf.sample_result 7 1])
            (Py.lit "query") None None None
            {| answer := Py.lit "a"; used_chunks := [Rrf.sample_result 7 1];
               result_scenario := 1 |}
            eq_refl _).
  discriminate.
Defined.

End RoutingFacts.
